(** * Monica RAG: embedding store, text projection and retrieval engine

    A shallow embedding of the Python package [monica-rag]:
    - [utils/text_processing.py]  ([create_contact_text],
                                   [format_search_results]),
    - [storage/database.py]       ([MonicaRAGStorage]),
    - [models/rag.py]             ([MonicaRAG]),
    - [api/client.py]             ([MonicaAPIClient]),
    - [config.py], [__main__.py]  ([Config], the commands [search] and
                                   [update]),
    and of the single-file version [monica_rag.py], together with the
    fragments of Python, numpy, json and SQLite that these files rely on.

    Conventions.
    - A Python [str] is a Rocq [string]; each character stands for the code
      point of the same number (U+0000 .. U+00FF).
    - A JSON value as produced by [response.json()] is a [pyval]; numbers are
      integers.  Values with other numbers or other characters are outside
      the model.
    - The id of a contact is whatever JSON value the server gives; as a
      dictionary key it is a [key], as a parameter of SQLite a
      [Storage.sql_value].
    - A store is its path and the rows of the table in its database file.
      Under the paths [""] and [":memory:"] every connection opens a new
      database, which has no table.
    - A numpy [float32] array is the list of the 32-bit patterns it holds;
      arithmetic on it goes through IEEE 754 binary32 ([spec_float] with
      precision 24 and maximal exponent 128).
    - The limits of the interpreter and of the machine (recursion depth,
      the digit limit of integer conversion, memory, disk) are outside the
      model.
    - A raised exception is the [Raise] case of [result]; stateful methods
      return the outcome together with the object after the call, so that
      what a method did before it raised stays visible. *)

From Stdlib Require Import ZArith List String Ascii Bool Lia.
From Stdlib Require Import Sorted Permutation.
From Stdlib Require Import Floats.SpecFloat.
From Stdlib Require Import DecimalString DecimalZ DecimalFacts.
From Stdlib Require Import Strings.Byte.
Import ListNotations.

Set Warnings "-register-all".

Local Open Scope string_scope.
Local Open Scope Z_scope.

(* ================================================================= *)
(** ** Python: exceptions, values, dictionaries, strings *)

Module Py.

(** The exception classes the modelled code can meet; all of them derive
    from [Exception]. *)
Inductive exn : Type :=
| KeyError
| TypeError
| ValueError
| AttributeError
| OverflowError
| ConnectionError
| JSONDecodeError
| OperationalError        (* sqlite3 *)
| IntegrityError          (* sqlite3 *)
| InterfaceError.         (* sqlite3; ProgrammingError from Python 3.11 on *)

Inductive result (A : Type) : Type :=
| Ok (a : A)
| Raise (e : exn).
Arguments Ok {A} a.
Arguments Raise {A} e.

Definition bind {A B} (r : result A) (k : A -> result B) : result B :=
  match r with
  | Ok a => k a
  | Raise e => Raise e
  end.

(** [try: body except Exception: handler] *)
Definition try_except {A} (body : result A) (handler : exn -> result A)
  : result A :=
  match body with
  | Ok a => Ok a
  | Raise e => handler e
  end.

(** JSON-shaped Python values. *)
Inductive pyval : Type :=
| PyNone
| PyBool (b : bool)
| PyInt (z : Z)
| PyStr (s : string)
| PyList (xs : list pyval)
| PyDict (items : list (string * pyval)).

(** A dictionary is the list of its items in insertion order. *)
Section Dict.
Context {K V : Type} (eqb : K -> K -> bool).

Fixpoint dict_get (d : list (K * V)) (k : K) : option V :=
  match d with
  | [] => None
  | (k', v) :: d' => if eqb k k' then Some v else dict_get d' k
  end.

(** [d[k] = v]: an existing key keeps its position. *)
Fixpoint dict_set (d : list (K * V)) (k : K) (v : V) : list (K * V) :=
  match d with
  | [] => [(k, v)]
  | (k', v') :: d' =>
      if eqb k k' then (k', v) :: d' else (k', v') :: dict_set d' k v
  end.

(** [d[k]] *)
Definition dict_getitem (d : list (K * V)) (k : K) : result V :=
  match dict_get d k with
  | Some v => Ok v
  | None => Raise KeyError
  end.

Definition dict_keys (d : list (K * V)) : list K := map fst d.
End Dict.

Definition record : Type := list (string * pyval).

(** [contact.get(key)] and [contact.get(key, default)] *)
Definition get (contact : record) (key : string) : pyval :=
  match dict_get String.eqb contact key with
  | Some v => v
  | None => PyNone
  end.

Definition get_default (contact : record) (key : string) (default : pyval)
  : pyval :=
  match dict_get String.eqb contact key with
  | Some v => v
  | None => default
  end.

(** [v[key]] with a string key. *)
Definition getitem (v : pyval) (key : string) : result pyval :=
  match v with
  | PyDict items => dict_getitem String.eqb items key
  | _ => Raise TypeError
  end.

(** *** Dictionary keys

    A key of a Python dictionary, up to the equality the dictionary looks
    keys up with: [True] and [False] are the keys [1] and [0], since
    [True == 1] and both hash alike; a string is never equal to a number.
    Lists and dictionaries cannot be keys. *)
Inductive key : Type :=
| KNone
| KInt (z : Z)
| KStr (s : string).

Definition key_eqb (a b : key) : bool :=
  match a, b with
  | KNone, KNone => true
  | KInt x, KInt y => x =? y
  | KStr x, KStr y => String.eqb x y
  | _, _ => false
  end.

(** [hash(v)], as far as a dictionary needs it; [TypeError] is
    "unhashable type". *)
Definition hash_key (v : pyval) : result key :=
  match v with
  | PyNone => Ok KNone
  | PyBool b => Ok (KInt (if b then 1 else 0))
  | PyInt z => Ok (KInt z)
  | PyStr s => Ok (KStr s)
  | PyList _ => Raise TypeError
  | PyDict _ => Raise TypeError
  end.

(** Truth value, as tested by [if v:]. *)
Definition truthy (v : pyval) : bool :=
  match v with
  | PyNone => false
  | PyBool b => b
  | PyInt z => negb (z =? 0)
  | PyStr s => negb (String.eqb s "")
  | PyList xs => match xs with [] => false | _ => true end
  | PyDict items => match items with [] => false | _ => true end
  end.

(** *** Characters *)

Definition code (c : ascii) : Z := Z.of_nat (nat_of_ascii c).

Definition chr (z : Z) : ascii := ascii_of_nat (Z.to_nat z).

Definition hex_digit (z : Z) : ascii :=
  if z <? 10 then chr (48 + z) else chr (87 + z).

(** [str.isspace] on one character. *)
Definition isspace (c : ascii) : bool :=
  let n := code c in
  ((9 <=? n) && (n <=? 13)) || ((28 <=? n) && (n <=? 32))
  || (n =? 133) || (n =? 160).

(** [str.isprintable] on one character. *)
Definition isprintable (c : ascii) : bool :=
  let n := code c in
  ((32 <=? n) && (n <=? 126))
  || ((161 <=? n) && negb (n =? 173)).

Fixpoint lstrip (s : string) : string :=
  match s with
  | EmptyString => EmptyString
  | String c s' => if isspace c then lstrip s' else s
  end.

Fixpoint rstrip (s : string) : string :=
  match s with
  | EmptyString => EmptyString
  | String c s' =>
      match rstrip s' with
      | EmptyString => if isspace c then EmptyString else String c EmptyString
      | r => String c r
      end
  end.

(** [s.strip()] *)
Definition strip (s : string) : string := rstrip (lstrip s).

(** [l.append(x)] *)
Definition list_append {A} (l : list A) (x : A) : list A := (l ++ [x])%list.

(** [sep.join(parts)] *)
Definition join (sep : string) (parts : list string) : string :=
  String.concat sep parts.

Fixpoint contains (c : ascii) (s : string) : bool :=
  match s with
  | EmptyString => false
  | String c' s' => Ascii.eqb c c' || contains c s'
  end.

(** *** [str()] and [repr()] *)

Definition str_of_int (z : Z) : string :=
  NilZero.string_of_int (Z.to_int z).

Definition backslash : ascii := "\"%char.
Definition quote1 : ascii := "'"%char.
Definition quote2 : ascii := chr 34.

Definition repr_char (q : ascii) (c : ascii) : string :=
  let n := code c in
  if Ascii.eqb c q || Ascii.eqb c backslash then String backslash (String c "")
  else if n =? 9 then String backslash "t"
  else if n =? 10 then String backslash "n"
  else if n =? 13 then String backslash "r"
  else if isprintable c then String c ""
  else String backslash
         (String "x" (String (hex_digit (n / 16)) (String (hex_digit (n mod 16)) ""))).

Fixpoint repr_chars (q : ascii) (s : string) : string :=
  match s with
  | EmptyString => EmptyString
  | String c s' => repr_char q c ++ repr_chars q s'
  end.

(** [repr(s)] for a string: single quotes, unless the text has a single
    quote and no double quote. *)
Definition repr_str (s : string) : string :=
  let q := if contains quote1 s && negb (contains quote2 s)
           then quote2 else quote1 in
  String q (repr_chars q s ++ String q "").

Fixpoint repr (v : pyval) : string :=
  match v with
  | PyNone => "None"
  | PyBool true => "True"
  | PyBool false => "False"
  | PyInt z => str_of_int z
  | PyStr s => repr_str s
  | PyList xs => "[" ++ join ", " (map repr xs) ++ "]"
  | PyDict items =>
      "{" ++ join ", " (map (fun kv => repr_str (fst kv) ++ ": " ++ repr (snd kv)) items)
          ++ "}"
  end.

(** [str(v)], which is what an f-string field [{v}] inserts. *)
Definition str (v : pyval) : string :=
  match v with
  | PyStr s => s
  | _ => repr v
  end.

End Py.

Import Py.

Notation "x <- c1 ;; c2" := (bind c1 (fun x => c2))
  (at level 61, c1 at next level, right associativity).

(* ================================================================= *)
(** ** utils/text_processing.py *)

Definition nl : string := String (chr 10) "".

(** The list [parts] as it stands when the function reaches its [return]. *)
Definition contact_parts (contact : record) : list string :=
  let parts : list string := [] in
  let name :=
    strip (str (get_default contact "first_name" (PyStr "")) ++ " "
           ++ str (get_default contact "last_name" (PyStr ""))) in
  let parts := if negb (String.eqb name "") then list_append parts ("Name: " ++ name) else parts in
  let parts :=
    if truthy (get contact "job")
    then list_append parts ("Job: " ++ str (get contact "job")) else parts in
  let parts :=
    if truthy (get contact "company")
    then list_append parts ("Company: " ++ str (get contact "company")) else parts in
  let parts :=
    if truthy (get contact "email")
    then list_append parts ("Email: " ++ str (get contact "email")) else parts in
  let parts :=
    if truthy (get contact "phone")
    then list_append parts ("Phone: " ++ str (get contact "phone")) else parts in
  let parts :=
    if truthy (get contact "notes")
    then list_append parts ("Notes: " ++ str (get contact "notes")) else parts in
  parts.

Definition create_contact_text (contact : record) : string :=
  join nl (filter (fun p => negb (String.eqb p "")) (contact_parts contact)).

(* ================================================================= *)
(** ** numpy: float32 arrays *)

Module Np.

(** A one-dimensional [float32] array: the 32-bit patterns of its elements,
    each in [0, 2^32). *)
Definition ndarray : Type := list Z.

Definition is_float32 (w : Z) : Prop := 0 <= w < 2 ^ 32.

Definition prec : Z := 24.
Definition emax : Z := 128.

(** The binary32 number a bit pattern stands for: sign bit 31, biased
    exponent in bits 30..23, fraction in bits 22..0. *)
Definition float_of_bits (w : Z) : spec_float :=
  let s := Z.testbit w 31 in
  let e := Z.land (Z.shiftr w 23) 255 in
  let m := Z.land w (Z.ones 23) in
  if e =? 0 then
    match m with
    | Zpos p => S754_finite s p (-149)
    | _ => S754_zero s
    end
  else if e =? 255 then
    if m =? 0 then S754_infinity s else S754_nan
  else
    match Z.lor m (Z.shiftl 1 23) with
    | Zpos p => S754_finite s p (e - 150)
    | _ => S754_nan
    end.

Definition add : spec_float -> spec_float -> spec_float := SFadd prec emax.
Definition mul : spec_float -> spec_float -> spec_float := SFmul prec emax.
Definition div : spec_float -> spec_float -> spec_float := SFdiv prec emax.
Definition sqrt : spec_float -> spec_float := SFsqrt prec emax.
Definition ltb : spec_float -> spec_float -> bool := SFltb.
Definition leb : spec_float -> spec_float -> bool := SFleb.

(** Sum of the element-wise products, accumulated in index order from
    [+0.0] in binary32.  (numpy leaves the sum to its BLAS library, which
    may add the products of long arrays in another order; the values
    computed below are sums of at most two products, for which every
    order gives the same result.) *)
Fixpoint inner_from (acc : spec_float) (a b : ndarray) : spec_float :=
  match a, b with
  | x :: a', y :: b' =>
      inner_from (add acc (mul (float_of_bits x) (float_of_bits y))) a' b'
  | _, _ => acc
  end.

Definition inner (a b : ndarray) : spec_float :=
  inner_from (S754_zero false) a b.

(** [np.dot(a, b)] on one-dimensional arrays: the shapes must agree. *)
Definition dot (a b : ndarray) : result spec_float :=
  if (List.length a =? List.length b)%nat then Ok (inner a b) else Raise ValueError.

(** [np.linalg.norm(x)]: [sqrt(x.dot(x))]. *)
Definition linalg_norm (x : ndarray) : spec_float := sqrt (inner x x).

Definition byte_of_Z (z : Z) : byte :=
  match Byte.of_N (Z.to_N (Z.land z 255)) with
  | Some b => b
  | None => x00
  end.

Definition Z_of_byte (b : byte) : Z := Z.of_N (Byte.to_N b).

(** The four bytes of one element, least significant first. *)
Definition element_bytes (w : Z) : list byte :=
  [ byte_of_Z w; byte_of_Z (Z.shiftr w 8);
    byte_of_Z (Z.shiftr w 16); byte_of_Z (Z.shiftr w 24) ].

Definition element_of_bytes (b0 b1 b2 b3 : byte) : Z :=
  Z.lor (Z_of_byte b0)
    (Z.lor (Z.shiftl (Z_of_byte b1) 8)
       (Z.lor (Z.shiftl (Z_of_byte b2) 16) (Z.shiftl (Z_of_byte b3) 24))).

(** [a.tobytes()] *)
Definition tobytes (a : ndarray) : list byte := flat_map element_bytes a.

(** [np.frombuffer(buf, dtype=np.float32).copy()]: the buffer size must be
    a multiple of the element size. *)
Fixpoint frombuffer (buf : list byte) : result ndarray :=
  match buf with
  | [] => Ok []
  | b0 :: b1 :: b2 :: b3 :: rest =>
      a <- frombuffer rest ;; Ok (element_of_bytes b0 b1 b2 b3 :: a)
  | _ => Raise ValueError
  end.

Definition is_nan (x : spec_float) : bool :=
  match x with S754_nan => true | _ => false end.

Definition is_zero (x : spec_float) : bool :=
  match x with S754_zero _ => true | _ => false end.

Definition is_infinite (x : spec_float) : bool :=
  match x with S754_infinity _ => true | _ => false end.

End Np.

(* ================================================================= *)
(** ** json: [dumps] and [loads] *)

Module Json.

(** *** Encoding ([json.dumps] with its default arguments:
    [ensure_ascii=True], separators [", "] and [": "]) *)

Definition escape_char (c : ascii) : string :=
  let n := code c in
  if n =? 34 then String backslash (String c "")
  else if n =? 92 then String backslash (String c "")
  else if n =? 10 then String backslash "n"
  else if n =? 13 then String backslash "r"
  else if n =? 9 then String backslash "t"
  else if n =? 8 then String backslash "b"
  else if n =? 12 then String backslash "f"
  else if (32 <=? n) && (n <=? 126) then String c ""
  else String backslash
         (String "u" (String "0" (String "0"
            (String (hex_digit (n / 16)) (String (hex_digit (n mod 16)) ""))))).

Fixpoint escape (s : string) : string :=
  match s with
  | EmptyString => EmptyString
  | String c s' => escape_char c ++ escape s'
  end.

Definition dumps_str (s : string) : string :=
  String quote2 (escape s ++ String quote2 "").

Fixpoint dumps (v : pyval) : string :=
  match v with
  | PyNone => "null"
  | PyBool true => "true"
  | PyBool false => "false"
  | PyInt z => str_of_int z
  | PyStr s => dumps_str s
  | PyList xs => "[" ++ join ", " (map dumps xs) ++ "]"
  | PyDict items =>
      "{" ++ join ", "
               (map (fun kv => dumps_str (fst kv) ++ ": " ++ dumps (snd kv)) items)
          ++ "}"
  end.

(** *** Decoding ([json.loads])

    The decoder reads the JSON texts whose values are in [pyval]: null,
    the booleans, integers, strings of the characters U+0000 .. U+00FF,
    arrays and objects of these.  A number with a fraction or an exponent,
    the constants [NaN] and [Infinity], and an escape above [\u00ff] have
    no value in [pyval]; [json.loads] reads them, this decoder refuses
    them.  The statements below are made for the texts it reads; none
    depends on its refusing a text. *)

Definition is_ws (c : ascii) : bool :=
  let n := code c in (n =? 32) || (n =? 9) || (n =? 10) || (n =? 13).

Fixpoint skip_ws (s : string) : string :=
  match s with
  | EmptyString => EmptyString
  | String c s' => if is_ws c then skip_ws s' else s
  end.

Definition hex_value (c : ascii) : option Z :=
  let n := code c in
  if (48 <=? n) && (n <=? 57) then Some (n - 48)
  else if (97 <=? n) && (n <=? 102) then Some (n - 87)
  else if (65 <=? n) && (n <=? 70) then Some (n - 55)
  else None.

Definition hex4 (h1 h2 h3 h4 : ascii) : option Z :=
  match hex_value h1, hex_value h2, hex_value h3, hex_value h4 with
  | Some a, Some b, Some c, Some d => Some (((a * 16 + b) * 16 + c) * 16 + d)
  | _, _, _, _ => None
  end.

(** The character a one-letter escape stands for. *)
Definition unescape (e : ascii) : option ascii :=
  let n := code e in
  if n =? 34 then Some e
  else if n =? 92 then Some e
  else if n =? 47 then Some e
  else if n =? 98 then Some (chr 8)
  else if n =? 102 then Some (chr 12)
  else if n =? 110 then Some (chr 10)
  else if n =? 114 then Some (chr 13)
  else if n =? 116 then Some (chr 9)
  else None.

Definition scons (c : ascii) (r : option (string * string))
  : option (string * string) :=
  match r with
  | Some (t, rest) => Some (String c t, rest)
  | None => None
  end.

(** The body of a string literal, read from just after its opening quote;
    returns the decoded text and what follows the closing quote.  A code
    point above U+00FF has no counterpart in [string] and is refused. *)
Fixpoint scanstring (s : string) : option (string * string) :=
  match s with
  | EmptyString => None
  | String c s' =>
      if code c =? 34 then Some (EmptyString, s')
      else if code c =? 92 then
        match s' with
        | EmptyString => None
        | String e s'' =>
            if code e =? 117 then
              match s'' with
              | String h1 (String h2 (String h3 (String h4 s3))) =>
                  match hex4 h1 h2 h3 h4 with
                  | Some n => if n <? 256 then scons (chr n) (scanstring s3) else None
                  | None => None
                  end
              | _ => None
              end
            else
              match unescape e with
              | Some c' => scons c' (scanstring s'')
              | None => None
              end
        end
      else if code c <? 32 then None
      else scons c (scanstring s')
  end.

Definition is_digit (c : ascii) : bool :=
  let n := code c in (48 <=? n) && (n <=? 57).

Fixpoint span_digits (s : string) : string * string :=
  match s with
  | EmptyString => (EmptyString, EmptyString)
  | String c s' =>
      if is_digit c
      then let (ds, rest) := span_digits s' in (String c ds, rest)
      else (EmptyString, s)
  end.

(** A digit string with a superfluous leading zero. *)
Definition leading_zero (ds : string) : bool :=
  match ds with
  | String c (String _ _) => code c =? 48
  | _ => false
  end.

(** A fraction or an exponent follows: the literal is a float, which
    [pyval] does not hold. *)
Definition float_follows (rest : string) : bool :=
  match rest with
  | String c _ => let n := code c in (n =? 46) || (n =? 101) || (n =? 69)
  | EmptyString => false
  end.

Definition scan_number (s : string) : option (pyval * string) :=
  let (sign, s1) :=
    match s with
    | String c s' => if code c =? 45 then ("-", s') else ("", s)
    | EmptyString => ("", s)
    end in
  let (ds, rest) := span_digits s1 in
  match ds with
  | EmptyString => None
  | _ =>
      if leading_zero ds || float_follows rest then None
      else
        match NilZero.int_of_string (sign ++ ds) with
        | Some d => Some (PyInt (Z.of_int d), rest)
        | None => None
        end
  end.

(** [s] begins with [lit]: what follows it. *)
Fixpoint literal (lit s : string) : option string :=
  match lit with
  | EmptyString => Some s
  | String c lit' =>
      match s with
      | String c' s' => if Ascii.eqb c c' then literal lit' s' else None
      | EmptyString => None
      end
  end.

(** [dict(pairs)] *)
Definition dict_of_pairs (pairs : list (string * pyval)) : record :=
  fold_left (fun d kv => dict_set String.eqb d (fst kv) (snd kv)) pairs [].

(** The scanner.  [fuel] bounds the number of nested calls; [loads] gives
    it the length of the text, and every call consumes a character. *)
Fixpoint scan_once (fuel : nat) (s : string) {struct fuel}
  : option (pyval * string) :=
  match fuel with
  | O => None
  | S fuel' =>
      match s with
      | EmptyString => None
      | String c s' =>
          let n := code c in
          if n =? 34 then
            match scanstring s' with
            | Some (t, rest) => Some (PyStr t, rest)
            | None => None
            end
          else if n =? 123 then
            match skip_ws s' with
            | String c1 s1 =>
                if code c1 =? 125 then Some (PyDict [], s1)
                else
                  match scan_pairs fuel' (String c1 s1) with
                  | Some (pairs, rest) => Some (PyDict (dict_of_pairs pairs), rest)
                  | None => None
                  end
            | EmptyString => None
            end
          else if n =? 91 then
            match skip_ws s' with
            | String c1 s1 =>
                if code c1 =? 93 then Some (PyList [], s1)
                else
                  match scan_items fuel' (String c1 s1) with
                  | Some (xs, rest) => Some (PyList xs, rest)
                  | None => None
                  end
            | EmptyString => None
            end
          else if n =? 110 then
            option_map (fun rest => (PyNone, rest)) (literal "null" s)
          else if n =? 116 then
            option_map (fun rest => (PyBool true, rest)) (literal "true" s)
          else if n =? 102 then
            option_map (fun rest => (PyBool false, rest)) (literal "false" s)
          else scan_number s
      end
  end

(** The elements of an array, from its first value to its closing bracket. *)
with scan_items (fuel : nat) (s : string) {struct fuel}
  : option (list pyval * string) :=
  match fuel with
  | O => None
  | S fuel' =>
      match scan_once fuel' s with
      | Some (v, rest) =>
          match skip_ws rest with
          | String c r =>
              if code c =? 93 then Some ([v], r)
              else if code c =? 44 then
                match scan_items fuel' (skip_ws r) with
                | Some (vs, rest') => Some (v :: vs, rest')
                | None => None
                end
              else None
          | EmptyString => None
          end
      | None => None
      end
  end

(** The members of an object, from its first key to its closing brace. *)
with scan_pairs (fuel : nat) (s : string) {struct fuel}
  : option (list (string * pyval) * string) :=
  match fuel with
  | O => None
  | S fuel' =>
      match s with
      | String q s1 =>
          if code q =? 34 then
            match scanstring s1 with
            | Some (k, rest) =>
                match skip_ws rest with
                | String colon r =>
                    if code colon =? 58 then
                      match scan_once fuel' (skip_ws r) with
                      | Some (v, rest1) =>
                          match skip_ws rest1 with
                          | String c r1 =>
                              if code c =? 125 then Some ([(k, v)], r1)
                              else if code c =? 44 then
                                match scan_pairs fuel' (skip_ws r1) with
                                | Some (kvs, rest') => Some ((k, v) :: kvs, rest')
                                | None => None
                                end
                              else None
                          | EmptyString => None
                          end
                      | None => None
                      end
                    else None
                | EmptyString => None
                end
            | None => None
            end
          else None
      | EmptyString => None
      end
  end.

(** [json.loads(s)]: one value, with nothing but white space around it. *)
Definition loads (s : string) : result pyval :=
  match scan_once (S (String.length s)) (skip_ws s) with
  | Some (v, rest) =>
      match skip_ws rest with
      | EmptyString => Ok v
      | _ => Raise JSONDecodeError
      end
  | None => Raise JSONDecodeError
  end.

(** What may follow a number: the end of the text, or a character that is
    neither a digit nor the start of a fraction or an exponent. *)
Definition delimited (rest : string) : bool :=
  match rest with
  | EmptyString => true
  | String c _ => negb (is_digit c) && negb (float_follows rest)
  end.

Fixpoint distinct (keys : list string) : bool :=
  match keys with
  | [] => true
  | k :: keys' => negb (existsb (String.eqb k) keys') && distinct keys'
  end.

(** A value in which no dictionary lists a key twice (as in any Python
    dictionary). *)
Fixpoint wf_json (v : pyval) : bool :=
  match v with
  | PyList xs => forallb wf_json xs
  | PyDict items =>
      distinct (map fst items) && forallb (fun kv => wf_json (snd kv)) items
  | _ => true
  end.

(** The first character of an encoded value: not white space, and neither
    a closing bracket nor a closing brace. *)
Definition starts_value (s : string) : Prop :=
  match s with
  | String c _ => is_ws c = false /\ (code c =? 93) = false /\ (code c =? 125) = false
  | EmptyString => False
  end.

(** One member of an object, as [dumps] writes it. *)
Definition member (kv : string * pyval) : string :=
  dumps_str (fst kv) ++ ": " ++ dumps (snd kv).

(** What the round trip says of one value: scanned from its encoding with
    enough fuel, it comes back, and what follows is left. *)
Definition scans_back (v : pyval) : Prop :=
  wf_json v = true ->
  forall fuel rest,
    (String.length (dumps v) <= fuel)%nat ->
    delimited rest = true ->
    scan_once fuel (dumps v ++ rest) = Some (v, rest).

End Json.

(* ================================================================= *)
(** ** Python built-ins used by the retrieval engine *)

Module Builtins.

Section Sorting.
Context {A : Type} (key_lt : A -> A -> bool).

(** Puts [x] in front of the first element whose key is not above its
    own. *)
Fixpoint insert_reverse (x : A) (l : list A) : list A :=
  match l with
  | [] => [x]
  | y :: l' => if key_lt x y then y :: insert_reverse x l' else x :: l
  end.

(** [sorted(l, key=..., reverse=True)] with [key_lt x y] standing for
    [key(x) < key(y)]: the stable descending sort, in which elements of
    equal key keep their order.  Whenever [<] totally preorders the keys
    at hand this is the one list a stable sort can return.  With a NaN
    among the keys it does not, and where the elements end up then depends
    on the comparisons the sort happens to make; this definition makes
    those of an insertion sort from the right. *)
Definition sorted_reverse (l : list A) : list A :=
  fold_right insert_reverse [] l.
End Sorting.

(** [l[:k]]: a negative bound counts from the end. *)
Definition slice_to {A : Type} (l : list A) (k : Z) : list A :=
  if k <? 0
  then firstn (Z.to_nat (Z.max 0 (Z.of_nat (List.length l) + k))) l
  else firstn (Z.to_nat k) l.

(** What [with e as conn:] is given.  A [sqlite3.Connection] enters as
    itself; a [str] has no [__enter__], and the statement raises
    [AttributeError] ([TypeError] from Python 3.11 on). *)
Inductive context_expr (C : Type) : Type :=
| Connection (conn : C)
| StrObject (s : string).
Arguments Connection {C} conn.
Arguments StrObject {C} s.

Definition with_as {C : Type} (e : context_expr C) : result C :=
  match e with
  | Connection conn => Ok conn
  | StrObject _ => Raise AttributeError
  end.

End Builtins.

Import Builtins.

(* ================================================================= *)
(** ** storage/database.py *)

Module Storage.

(** One row of the table [embeddings]. *)
Record row : Type := {
  contact_id : Z;               (* INTEGER PRIMARY KEY *)
  embedding : list byte;        (* BLOB NOT NULL *)
  contact_data : string;        (* TEXT NOT NULL *)
  last_updated : Z              (* TIMESTAMP *)
}.

(** The rows of the table, in the order a [SELECT] without [ORDER BY]
    walks them (by row id, which [contact_id] is). *)
Definition table : Type := list row.

(** A [MonicaRAGStorage] object together with the table found in the
    database file at [db_path].  The object exists once its constructor
    has returned, so the file could be opened. *)
Record MonicaRAGStorage : Type := {
  db_path : string;
  db : table
}.

(** The two names that stand for no file: [sqlite3.connect("")] and
    [sqlite3.connect(":memory:")] make a new, private, empty database at
    every call. *)
Definition transient (path : string) : bool :=
  String.eqb path "" || String.eqb path ":memory:".

(** [sqlite3.connect(self.db_path)].  The connection finds the table of
    the file; when the path names no file it finds no table at all, since
    the one [setup_database] created went away with its connection. *)
Definition sqlite3_connect (self : MonicaRAGStorage)
  : context_expr (option table) :=
  Connection (if transient (db_path self) then None else Some (db self)).

(** Preparing a statement on the table [embeddings]; [OperationalError]
    is "no such table". *)
Definition prepare (conn : option table) : result table :=
  match conn with
  | Some rows => Ok rows
  | None => Raise OperationalError
  end.

(** [CREATE TABLE IF NOT EXISTS embeddings (...)]; [None] is a database
    file without the table. *)
Definition setup_database (file : option table) : table :=
  match file with
  | Some rows => rows
  | None => []
  end.

(** [MonicaRAGStorage(db_path)] *)
Definition init (path : string) (file : option table) : MonicaRAGStorage :=
  {| db_path := path; db := setup_database file |}.

(** The values of SQLite that a contact id can be bound as. *)
Inductive sql_value : Type :=
| SqlNull
| SqlInteger (z : Z)
| SqlText (s : string).

(** SQLite integers have 64 bits, with sign. *)
Definition in_int64 (z : Z) : bool := (- 2 ^ 63 <=? z) && (z <? 2 ^ 63).

(** Binding a Python value to a [?] of a statement.  [OverflowError] is
    "Python int too large to convert to SQLite INTEGER"; a list or a
    dictionary is of no supported type. *)
Definition bind_parameter (v : pyval) : result sql_value :=
  match v with
  | PyNone => Ok SqlNull
  | PyBool b => Ok (SqlInteger (if b then 1 else 0))
  | PyInt z => if in_int64 z then Ok (SqlInteger z) else Raise OverflowError
  | PyStr s => Ok (SqlText s)
  | PyList _ => Raise InterfaceError
  | PyDict _ => Raise InterfaceError
  end.

(** What is left to the SQLite library when the value for the
    [INTEGER PRIMARY KEY] column is no integer: the integer it converts a
    text to, if it converts it, and the row id it picks for a NULL, if it
    finds one.  The statements below hold whatever the library answers. *)
Record sqlite : Type := {
  integer_of_text : string -> option Z;
  auto_rowid : table -> option Z
}.

(** The row id under which the statement stores its row.  An integer is
    the row id; a text must convert to one, or the statement fails with
    "datatype mismatch"; for a NULL the library picks a row id that is not
    in use, or the statement fails with "database or disk is full". *)
Definition rowid_for (lib : sqlite) (value : sql_value) (rows : table)
  : result Z :=
  match value with
  | SqlInteger z => Ok z
  | SqlText s =>
      match integer_of_text lib s with
      | Some z => if in_int64 z then Ok z else Raise IntegrityError
      | None => Raise IntegrityError
      end
  | SqlNull =>
      match auto_rowid lib rows with
      | Some z =>
          if in_int64 z && negb (existsb (fun r => contact_id r =? z) rows)
          then Ok z else Raise OperationalError
      | None => Raise OperationalError
      end
  end.

Fixpoint insert_by_rowid (r : row) (rows : table) : table :=
  match rows with
  | [] => [r]
  | r' :: rows' =>
      if contact_id r <? contact_id r' then r :: rows
      else r' :: insert_by_rowid r rows'
  end.

(** [INSERT OR REPLACE]: the rows in conflict on the primary key are
    deleted, then the new row is inserted. *)
Definition insert_or_replace (r : row) (rows : table) : table :=
  insert_by_rowid r
    (filter (fun r' => negb (contact_id r' =? contact_id r)) rows).

(** The statement of [save_embedding] on a connection: it is prepared,
    its parameters are bound, and it runs. *)
Definition execute_insert (lib : sqlite) (conn : option table)
    (contact_id : pyval) (blob : list byte) (text : string) (now : Z)
  : result table :=
  rows <- prepare conn ;;
  value <- bind_parameter contact_id ;;
  rowid <- rowid_for lib value rows ;;
  Ok (insert_or_replace
        {| contact_id := rowid; embedding := blob; contact_data := text;
           last_updated := now |} rows).

(** [save_embedding(contact_id, embedding, contact_data)], run when
    [CURRENT_TIMESTAMP] is [now].  When the statement raises, the [with]
    block rolls back and the table is as before. *)
Definition save_embedding (lib : sqlite) (self : MonicaRAGStorage)
    (contact_id : pyval) (vector : Np.ndarray) (data : pyval) (now : Z)
  : result unit * MonicaRAGStorage :=
  match (conn <- with_as (sqlite3_connect self) ;;
         execute_insert lib conn contact_id (Np.tobytes vector)
           (Json.dumps data) now) with
  | Ok rows => (Ok tt, {| db_path := db_path self; db := rows |})
  | Raise e => (Raise e, self)
  end.

(** The dictionary comprehension of [get_all_embeddings], row by row. *)
Fixpoint decode_rows (rows : table) (acc : list (Z * (Np.ndarray * pyval)))
  : result (list (Z * (Np.ndarray * pyval))) :=
  match rows with
  | [] => Ok acc
  | r :: rows' =>
      vector <- Np.frombuffer (embedding r) ;;
      data <- Json.loads (contact_data r) ;;
      decode_rows rows' (dict_set Z.eqb acc (contact_id r) (vector, data))
  end.

Definition get_all_embeddings (self : MonicaRAGStorage)
  : result (list (Z * (Np.ndarray * pyval))) :=
  conn <- with_as (sqlite3_connect self) ;;
  rows <- prepare conn ;;
  decode_rows rows [].

(** [SELECT MAX(last_updated)]: [None] on an empty table. *)
Definition get_last_updated (self : MonicaRAGStorage) : result (option Z) :=
  conn <- with_as (sqlite3_connect self) ;;
  rows <- prepare conn ;;
  Ok (match rows with
      | [] => None
      | r :: rows' => Some (fold_left Z.max (map last_updated rows') (last_updated r))
      end).

(** [SELECT COUNT( * ) FROM embeddings] *)
Definition select_count (conn : table) : Z := Z.of_nat (List.length conn).

(** The stores a program can hold: one opened on a new file, one opened
    on the file another left behind, and what [save_embedding] leaves.
    (The [get] methods return their answer and write nothing.) *)
Inductive reachable : MonicaRAGStorage -> Prop :=
| reach_new path :
    reachable (init path None)
| reach_reopen path self :
    reachable self -> reachable (init path (Some (db self)))
| reach_save lib self id vector data now :
    reachable self ->
    reachable (snd (save_embedding lib self id vector data now)).

End Storage.

(* ================================================================= *)
(** ** models/rag.py *)

Module RAG.

Import Storage.

(** The requests sent to the Monica API; the id of a contact is whatever
    value the list of contacts gave under ["id"]. *)
Inductive api_call : Type :=
| GetContacts
| GetContactDetails (id : pyval).

(** What lies outside the process while a method runs: the answers of
    the Monica API ([_make_request(...)['data']], or the [ConnectionError]
    or [KeyError] it ends in), the time at which the row of a contact is
    written, and the SQLite library. *)
Record environment : Type := {
  contacts : result (list pyval);
  contact_details : pyval -> result pyval;
  current_timestamp : pyval -> Z;
  sqlite : Storage.sqlite
}.

Record search_result : Type := {
  contact : pyval;
  similarity : spec_float
}.

(** A [MonicaRAG] object.  [api_calls] is a ghost field: the requests the
    object has sent through [self.api_client], oldest first. *)
Record MonicaRAG : Type := {
  encoder : string -> Np.ndarray;
  storage : MonicaRAGStorage;
  embeddings : list (key * Np.ndarray);
  contact_data : list (key * pyval);
  api_calls : list api_call
}.

(** [MonicaRAG(api_client, model_name, db_path)] *)
Definition init (encode : string -> Np.ndarray) (path : string)
    (file : option table) : MonicaRAG :=
  {| encoder := encode;
     storage := Storage.init path file;
     embeddings := [];
     contact_data := [];
     api_calls := [] |}.

(** Methods thread the object and may raise. *)
Definition method (A : Type) : Type := MonicaRAG -> result A * MonicaRAG.

Definition ret {A} (a : A) : method A := fun self => (Ok a, self).

Definition raise_of {A} (r : result A) : method A := fun self => (r, self).

Definition bindM {A B} (m : method A) (k : A -> method B) : method B :=
  fun self =>
    match m self with
    | (Ok a, self') => k a self'
    | (Raise e, self') => (Raise e, self')
    end.

Notation "x <-- c1 ;;; c2" := (bindM c1 (fun x => c2))
  (at level 61, c1 at next level, right associativity).

Definition set_storage (s : MonicaRAGStorage) : method unit := fun self =>
  (Ok tt, {| encoder := encoder self; storage := s;
             embeddings := embeddings self;
             contact_data := contact_data self;
             api_calls := api_calls self |}).

(** [self.embeddings[id] = vector]; the id must be hashable. *)
Definition set_embedding (id : pyval) (vector : Np.ndarray) : method unit :=
  fun self =>
  match hash_key id with
  | Ok k =>
      (Ok tt, {| encoder := encoder self; storage := storage self;
                 embeddings := dict_set key_eqb (embeddings self) k vector;
                 contact_data := contact_data self;
                 api_calls := api_calls self |})
  | Raise e => (Raise e, self)
  end.

(** [self.contact_data[id] = data] *)
Definition set_contact_data (id : pyval) (data : pyval) : method unit :=
  fun self =>
  match hash_key id with
  | Ok k =>
      (Ok tt, {| encoder := encoder self; storage := storage self;
                 embeddings := embeddings self;
                 contact_data := dict_set key_eqb (contact_data self) k data;
                 api_calls := api_calls self |})
  | Raise e => (Raise e, self)
  end.

Definition request {A} (c : api_call) (answer : result A) : method A :=
  fun self =>
  (answer, {| encoder := encoder self; storage := storage self;
              embeddings := embeddings self;
              contact_data := contact_data self;
              api_calls := list_append (api_calls self) c |}).

(** [self.api_client.get_contacts()] *)
Definition get_contacts (env : environment) : method (list pyval) :=
  request GetContacts (contacts env).

(** [self.api_client.get_contact_details(contact_id)] *)
Definition get_contact_details (env : environment) (id : pyval) : method pyval :=
  request (GetContactDetails id) (contact_details env id).

(** [self.storage.save_embedding(contact_id, embedding, details)] *)
Definition storage_save_embedding (lib : Storage.sqlite) (id : pyval)
    (vector : Np.ndarray) (data : pyval) (now : Z) : method unit := fun self =>
  let (r, s) := save_embedding lib (storage self) id vector data now in
  bindM (set_storage s) (fun _ => raise_of r) self.

(** [create_contact_text(details)]: [details.get] exists on a dictionary
    only. *)
Definition call_create_contact_text (details : pyval) : result string :=
  match details with
  | PyDict d => Ok (create_contact_text d)
  | _ => Raise AttributeError
  end.

(** [contact['id']]: the value as it is, of whatever type. *)
Definition contact_id_of (c : pyval) : result pyval := getitem c "id".

(** The body of the [for contact in contacts] loop. *)
Definition update_one (env : environment) (c : pyval) : method unit :=
  contact_id <-- raise_of (contact_id_of c) ;;;
  details <-- get_contact_details env contact_id ;;;
  text <-- raise_of (call_create_contact_text details) ;;;
  embedding <-- (fun self => ret (encoder self text) self) ;;;
  _ <-- set_embedding contact_id embedding ;;;
  _ <-- set_contact_data contact_id details ;;;
  storage_save_embedding (sqlite env) contact_id embedding details
    (current_timestamp env contact_id).

Fixpoint for_each {A} (body : A -> method unit) (l : list A) : method unit :=
  match l with
  | [] => ret tt
  | x :: l' => _ <-- body x ;;; for_each body l'
  end.

(** [update_embeddings()]; its [except] clause logs and re-raises. *)
Definition update_embeddings (env : environment) : method unit :=
  cs <-- get_contacts env ;;;
  for_each (update_one env) cs.

(** [_has_embeddings()].  The [with] statement is given the path string
    [self.storage.db_path]. *)
Definition _has_embeddings (self : MonicaRAG) : result bool :=
  try_except
    (conn <- with_as (StrObject (db_path (storage self))) ;;
     rows <- prepare conn ;;
     let count := select_count rows in
     Ok (0 <? count))
    (fun _ => Ok false).

(** The loop of [_load_from_storage], over the items of [stored_data];
    the ids that come out of the table are integers. *)
Definition load_one (item : Z * (Np.ndarray * pyval)) : method unit :=
  let '(contact_id, (embedding, data)) := item in
  _ <-- set_embedding (PyInt contact_id) embedding ;;;
  set_contact_data (PyInt contact_id) data.

(** [_load_from_storage()]; its [except] clause logs and re-raises. *)
Definition _load_from_storage : method unit :=
  stored_data <-- (fun self => raise_of (get_all_embeddings (storage self)) self) ;;;
  for_each load_one stored_data.

(** [initialize()]; its [except] clause logs and re-raises. *)
Definition initialize (env : environment) : method bool :=
  has <-- (fun self => raise_of (_has_embeddings self) self) ;;;
  if has : bool
  then _ <-- _load_from_storage ;;; ret true
  else _ <-- update_embeddings env ;;; ret false.

(** The quotient computed in the loop of [query], in [float32]. *)
Definition cosine (query_embedding embedding : Np.ndarray) : result spec_float :=
  d <- Np.dot query_embedding embedding ;;
  Ok (Np.div d (Np.mul (Np.linalg_norm query_embedding) (Np.linalg_norm embedding))).

(** The dictionary [similarities] after the first loop of [query]. *)
Fixpoint similarities_from (query_embedding : Np.ndarray)
    (items : list (key * Np.ndarray)) (similarities : list (key * spec_float))
  : result (list (key * spec_float)) :=
  match items with
  | [] => Ok similarities
  | (contact_id, embedding) :: items' =>
      s <- cosine query_embedding embedding ;;
      similarities_from query_embedding items'
        (dict_set key_eqb similarities contact_id s)
  end.

(** The order of the sort key [lambda x: x[1]]. *)
Definition score_lt (x y : key * spec_float) : bool := Np.ltb (snd x) (snd y).

(** The second loop of [query]; [float(similarity)] keeps the value. *)
Fixpoint results_of (self : MonicaRAG) (top_results : list (key * spec_float))
  : result (list search_result) :=
  match top_results with
  | [] => Ok []
  | (contact_id, s) :: rest =>
      c <- dict_getitem key_eqb (contact_data self) contact_id ;;
      results <- results_of self rest ;;
      Ok ({| contact := c; similarity := s |} :: results)
  end.

(** [query(query, top_k)]; its [except] clause logs and re-raises.  The
    method leaves the object as it is. *)
Definition query (self : MonicaRAG) (q : string) (top_k : Z)
  : result (list search_result) :=
  let query_embedding := encoder self q in
  similarities <- similarities_from query_embedding (embeddings self) [] ;;
  let top_results :=
    slice_to (sorted_reverse score_lt similarities) top_k in
  results_of self top_results.

(** The ids of the records a fetch returns, as the list gives them. *)
Definition fetched_ids (env : environment) : list pyval :=
  match contacts env with
  | Ok cs =>
      flat_map (fun c => match contact_id_of c with
                         | Ok id => [id]
                         | Raise _ => []
                         end) cs
  | Raise _ => []
  end.

(** The objects a program can hold: a fresh one, and what [initialize]
    and [update_embeddings] leave behind, whether they return or raise,
    whatever the environment does.  ([query] returns its answer and
    leaves the object as it is.) *)
Inductive reachable : MonicaRAG -> Prop :=
| reach_init encode path file :
    reachable (init encode path file)
| reach_initialize env self :
    reachable self -> reachable (snd (initialize env self))
| reach_update_embeddings env self :
    reachable self -> reachable (snd (update_embeddings env self)).

End RAG.

(* ================================================================= *)
(** ** Sample data *)

Module Sample.

(** [float32] bit patterns. *)
Definition f_one : Z := 0x3f800000.          (* 1.0 *)
Definition f_zero : Z := 0.                  (* 0.0 *)
Definition f_0_9 : Z := 0x3f666666.          (* 0.9 *)
Definition f_0_1 : Z := 0x3dcccccd.          (* 0.1 *)

Definition alice : pyval :=
  PyDict [("id", PyInt 1); ("first_name", PyStr "Alice");
          ("last_name", PyStr "Smith"); ("job", PyStr "Engineer");
          ("company", PyStr "Acme")].

Definition bob : pyval :=
  PyDict [("id", PyInt 2); ("first_name", PyStr "Bob");
          ("last_name", PyStr "Lee"); ("company", PyStr "Acme")].

(** A stub encoder: the query text goes to (0.9, 0.1), the projection of
    Alice to (1, 0), any other text to (0, 1). *)
Definition stub_encoder (text : string) : Np.ndarray :=
  if String.eqb text "query" then [f_0_9; f_0_1]
  else if String.prefix "Name: Alice" text then [f_one; f_zero]
  else [f_zero; f_one].

(** An SQLite library: it converts a text of decimal digits to the
    number it writes, and gives a NULL the row id after the largest one. *)
Definition sqlite_lib : Storage.sqlite :=
  {| Storage.integer_of_text := fun s =>
       match s, NilEmpty.uint_of_string s with
       | String _ _, Some u => Some (Z.of_uint u)
       | _, _ => None
       end;
     Storage.auto_rowid := fun rows =>
       match rows with
       | [] => Some 1
       | r :: rows' =>
           Some (1 + fold_left Z.max (map Storage.contact_id rows')
                       (Storage.contact_id r))
       end |}.

(** The clock of the samples: one second later for each id. *)
Definition clock (id : pyval) : Z :=
  match id with
  | PyInt z => 1700000000 + z
  | _ => 1700000000
  end.

(** A Monica instance with Alice and Bob. *)
Definition two_contacts : RAG.environment :=
  {| RAG.contacts := Ok [PyDict [("id", PyInt 1)]; PyDict [("id", PyInt 2)]];
     RAG.contact_details := fun id =>
       match id with
       | PyInt 1 => Ok alice
       | PyInt 2 => Ok bob
       | _ => Raise ConnectionError
       end;
     RAG.current_timestamp := clock;
     RAG.sqlite := sqlite_lib |}.

(** A Monica instance without contacts. *)
Definition no_contacts : RAG.environment :=
  {| RAG.contacts := Ok [];
     RAG.contact_details := fun _ => Raise ConnectionError;
     RAG.current_timestamp := fun _ => 1700000100;
     RAG.sqlite := sqlite_lib |}.

(** The row [save_embedding] writes for Alice. *)
Definition alice_row : Storage.row :=
  {| Storage.contact_id := 1;
     Storage.embedding := Np.tobytes [f_one; f_zero];
     Storage.contact_data := Json.dumps alice;
     Storage.last_updated := 1700000001 |}.

(** An entry for a contact that Monica no longer has. *)
Definition stale_row : Storage.row :=
  {| Storage.contact_id := 7;
     Storage.embedding := Np.tobytes [f_zero; f_one];
     Storage.contact_data := Json.dumps (PyDict [("id", PyInt 7)]);
     Storage.last_updated := 1600000000 |}.

(** A store that holds Alice's entry and the stale one. *)
Definition store_with_stale : Storage.MonicaRAGStorage :=
  Storage.init "monica_rag.db" (Some [alice_row; stale_row]).

(** An engine over that store. *)
Definition engine_with_stale : RAG.MonicaRAG :=
  RAG.init stub_encoder "monica_rag.db" (Some [alice_row; stale_row]).

(** An engine over a database file that holds Alice's entry. *)
Definition engine_with_store : RAG.MonicaRAG :=
  RAG.init stub_encoder "monica_rag.db" (Some [alice_row]).

(** An engine whose mirror holds Alice and Bob, built from an empty file. *)
Definition engine_ready : RAG.MonicaRAG :=
  snd (RAG.initialize two_contacts (RAG.init stub_encoder "monica_rag.db" None)).

(** A Monica instance with Alice alone. *)
Definition one_contact : RAG.environment :=
  {| RAG.contacts := Ok [PyDict [("id", PyInt 1)]];
     RAG.contact_details := fun id =>
       match id with
       | PyInt 1 => Ok alice
       | _ => Raise ConnectionError
       end;
     RAG.current_timestamp := clock;
     RAG.sqlite := sqlite_lib |}.


(** An encoder whose model maps the projection of Alice to the zero
    vector: the query text goes to (1, 0), the projection of Alice to
    (0, 0), any other text to (0, 1). *)
Definition degenerate_encoder (text : string) : Np.ndarray :=
  if String.eqb text "query" then [f_one; f_zero]
  else if String.prefix "Name: Alice" text then [f_zero; f_zero]
  else [f_zero; f_one].

(** An engine whose mirror holds a zero vector for Alice. *)
Definition engine_degenerate : RAG.MonicaRAG :=
  snd (RAG.initialize two_contacts
         (RAG.init degenerate_encoder "monica_rag.db" None)).

End Sample.

(* ================================================================= *)
(** ** Predicates of the statements *)

Module Spec.
Import RAG.

(** The two mappings of the mirror have the same keys. *)
Definition same_keys (self : MonicaRAG) : Prop :=
  dict_keys (embeddings self) = dict_keys (contact_data self).

(** A method keeps [I], whether it returns or raises. *)
Definition preserves {A} (I : MonicaRAG -> Prop) (m : method A) : Prop :=
  forall self, I self -> I (snd (m self)).

(** The mirror is a pair of dictionaries over the same ids. *)
Definition mirror_inv (self : MonicaRAG) : Prop :=
  NoDup (dict_keys (embeddings self)) /\ same_keys self.

(** The mirror is a pair of dictionaries over the same ids, and every
    stored vector has the dimension of the embedding of [q]. *)
Definition mirror_ready (self : MonicaRAG) (q : string) : Prop :=
  NoDup (dict_keys (embeddings self))
  /\ same_keys self
  /\ Forall (fun item => List.length (snd item) = List.length (encoder self q))
            (embeddings self).

(** The row can be decoded. *)
Definition row_decodes (r : Storage.row) : Prop :=
  exists vector data,
    Np.frombuffer (Storage.embedding r) = Ok vector
    /\ Json.loads (Storage.contact_data r) = Ok data.

(** [get_all_embeddings] returns, rather than raising. *)
Definition readable (s : Storage.MonicaRAGStorage) : Prop :=
  exists d, Storage.get_all_embeddings s = Ok d.

(** The text projection, following the words of the specification: one
    line per attribute that is present and not empty, among the full name
    (first and last name), the job title, the company, the e-mail address,
    the phone number and the notes, each behind its label.  A missing or
    null name part contributes no text. *)
Definition name_part (contact : record) (key : string) : string :=
  match dict_get String.eqb contact key with
  | None | Some PyNone => EmptyString
  | Some v => str v
  end.

Definition full_name (contact : record) : pyval :=
  PyStr (strip (name_part contact "first_name" ++ " "
                ++ name_part contact "last_name")).

Definition attribute_line (label : string) (value : pyval) : list string :=
  if truthy value then [(label ++ str value)%string] else [].

Definition projection_lines (contact : record) : list string :=
  (attribute_line "Name: " (full_name contact)
   ++ attribute_line "Job: " (get contact "job")
   ++ attribute_line "Company: " (get contact "company")
   ++ attribute_line "Email: " (get contact "email")
   ++ attribute_line "Phone: " (get contact "phone")
   ++ attribute_line "Notes: " (get contact "notes"))%list.

Definition projection_spec (contact : record) : string :=
  join nl (projection_lines contact).

(** Neither name part is a JSON null. *)
Definition names_not_null (contact : record) : Prop :=
  dict_get String.eqb contact "first_name" <> Some PyNone
  /\ dict_get String.eqb contact "last_name" <> Some PyNone.

(** What a rebuild owes to the rows [rows0] it found: those of the ids in
    [ids] may be overwritten, the others stay as they are, and no id goes
    away. *)
Definition keeps_rows (rows0 : Storage.table) (ids : list Z) (rows : Storage.table) : Prop :=
  forall r, In r rows0 ->
    (~ In (Storage.contact_id r) ids -> In r rows)
    /\ exists r', In r' rows /\ Storage.contact_id r' = Storage.contact_id r.

Definition keeps (rows0 : Storage.table) (ids : list Z) (self : MonicaRAG) : Prop :=
  keeps_rows rows0 ids (Storage.db (storage self)).

(** No pair of the query and a stored vector scores NaN. *)
Definition scores_are_numbers (self : MonicaRAG) (q : string) : Prop :=
  forall id vector s,
    In (id, vector) (embeddings self) ->
    cosine (encoder self q) vector = Ok s -> Np.is_nan s = false.

(** Each score is at most the one before it. *)
Definition non_increasing (scores : list spec_float) : Prop :=
  Sorted (fun a b => Np.leb b a = true) scores.

(** Every element is a zero of either sign. *)
Definition all_zero (x : Np.ndarray) : Prop :=
  Forall (fun w => Np.is_zero (Np.float_of_bits w) = true) x.

(** Neither zero nor any other finite number. *)
Definition not_finite (x : spec_float) : bool :=
  Np.is_nan x || Np.is_infinite x.

End Spec.

Import Spec.

(* ================================================================= *)
(** ** api/client.py *)

Module Client.

Definition slash : ascii := "/"%char.

(** [s.lstrip('/')] *)
Fixpoint lstrip_slash (s : string) : string :=
  match s with
  | EmptyString => EmptyString
  | String c s' => if Ascii.eqb c slash then lstrip_slash s' else s
  end.

(** [s.rstrip('/')] *)
Fixpoint rstrip_slash (s : string) : string :=
  match s with
  | EmptyString => EmptyString
  | String c s' =>
      match rstrip_slash s' with
      | EmptyString => if Ascii.eqb c slash then EmptyString else String c EmptyString
      | r => String c r
      end
  end.

(** [_normalize_base_url(base_url)] *)
Definition _normalize_base_url (base_url : string) : string :=
  let base_url := rstrip_slash base_url in
  if negb (String.prefix "https://" base_url)
  then "https://" ++ base_url
  else base_url.

(** A [MonicaAPIClient] object; [session_headers] are the headers its
    session sends with every request. *)
Record MonicaAPIClient : Type := {
  base_url : string;
  token : option string;
  verify_ssl : bool
}.

(** [str(token)] in the f-string of the authorisation header. *)
Definition token_text (t : option string) : string :=
  match t with
  | Some s => s
  | None => "None"
  end.

(** [_setup_session()] *)
Definition session_headers (self : MonicaAPIClient) : list (string * string) :=
  [ ("Authorization", "Bearer " ++ token_text (token self));
    ("Content-Type", "application/json") ].

(** [MonicaAPIClient(base_url, token, verify_ssl)].  The configuration may
    hand over [None] for the URL, on which [rstrip] does not exist. *)
Definition init (url : option string) (tok : option string) (verify : bool)
  : result MonicaAPIClient :=
  match url with
  | None => Raise AttributeError
  | Some u =>
      Ok {| base_url := _normalize_base_url u; token := tok; verify_ssl := verify |}
  end.

(** What [session.request] is given and what comes back: a response with
    its status code and the JSON value of its body, or one of the two
    exceptions [_make_request] catches ([ssl.SSLError], and
    [requests.exceptions.RequestException] with its subclasses).  A
    response whose body is not JSON is outside this model. *)
Record http_request : Type := {
  http_method : string;
  url : string;
  headers : list (string * string);
  verify : bool
}.

Inductive http_outcome : Type :=
| Response (status_code : Z) (body : pyval)
| SSLError
| RequestException.

Definition transport : Type := http_request -> http_outcome.

(** The URL of a request: [f'{self.base_url}/api/{endpoint.lstrip("/")}'] *)
Definition request_url (self : MonicaAPIClient) (endpoint : string) : string :=
  base_url self ++ "/api/" ++ lstrip_slash endpoint.

(** [response.raise_for_status()] raises [HTTPError], a
    [RequestException], on the 4xx and 5xx codes. *)
Definition raise_for_status (status_code : Z) : bool :=
  (400 <=? status_code) && (status_code <? 600).

(** [_make_request(method, endpoint)] *)
Definition _make_request (send : transport) (self : MonicaAPIClient)
    (method endpoint : string) : result pyval :=
  match send {| http_method := method;
                url := request_url self endpoint;
                headers := session_headers self;
                verify := verify_ssl self |} with
  | Response status_code body =>
      if raise_for_status status_code then Raise ConnectionError else Ok body
  | SSLError => Raise ConnectionError
  | RequestException => Raise ConnectionError
  end.

(** [get_contacts()] *)
Definition get_contacts (send : transport) (self : MonicaAPIClient)
  : result pyval :=
  answer <- _make_request send self "GET" "contacts" ;;
  getitem answer "data".

(** [get_contact_details(contact_id)]; the f-string writes the id as
    [str] does, whatever its type. *)
Definition get_contact_details (send : transport) (self : MonicaAPIClient)
    (contact_id : pyval) : result pyval :=
  answer <- _make_request send self "GET" ("contacts/" ++ str contact_id) ;;
  getitem answer "data".

End Client.

(* ================================================================= *)
(** ** utils/text_processing.py: the display of search results *)

Module Display.

(** The integer nearest to [m * 2^e], ties to the even one. *)
Definition round_half_even (m e : Z) : Z :=
  match e with
  | Zneg p =>
      let d := 2 ^ Zpos p in
      let q := m / d in
      let r := m mod d in
      if 2 * r <? d then q
      else if 2 * r =? d then (if Z.even q then q else q + 1)
      else q + 1
  | _ => m * 2 ^ e
  end.

(** Three digits, with leading zeros. *)
Definition pad3 (n : Z) : string :=
  String (hex_digit (n / 100))
    (String (hex_digit ((n / 10) mod 10)) (String (hex_digit (n mod 10)) "")).

(** [f"{x:.3f}"]: the decimal with three digits after the point that is
    nearest to the exact value, ties to even; the sign of a negative
    number stays even when the digits are all zero. *)
Definition format_3f (x : spec_float) : string :=
  match x with
  | S754_nan => "nan"
  | S754_infinity s => if s then "-inf" else "inf"
  | S754_zero s => (if s then "-" else "") ++ "0.000"
  | S754_finite s m e =>
      let n := round_half_even (Zpos m * 1000) e in
      (if s then "-" else "") ++ str_of_int (n / 1000) ++ "." ++ pad3 (n mod 1000)
  end.

(** What one pass of the loop appends to [output], for the result of rank
    [i]. *)
Definition result_lines (i : Z) (r : RAG.search_result) : result (list string) :=
  match RAG.contact r with
  | PyDict contact =>
      let output : list string := [] in
      let name :=
        strip (str (get_default contact "first_name" (PyStr "")) ++ " "
               ++ str (get_default contact "last_name" (PyStr ""))) in
      let output := list_append output (nl ++ str_of_int i ++ ". " ++ name) in
      let output :=
        list_append output ("   Similarity: " ++ format_3f (RAG.similarity r)) in
      let output :=
        if truthy (get contact "job")
        then list_append output ("   Job: " ++ str (get contact "job"))
        else output in
      let output :=
        if truthy (get contact "company")
        then list_append output ("   Company: " ++ str (get contact "company"))
        else output in
      Ok output
  | _ => Raise AttributeError
  end.

(** The loop over [enumerate(results, 1)], from rank [i] on. *)
Fixpoint output_from (i : Z) (results : list RAG.search_result)
  : result (list string) :=
  match results with
  | [] => Ok []
  | r :: results' =>
      lines <- result_lines i r ;;
      more <- output_from (i + 1) results' ;;
      Ok (lines ++ more)%list
  end.

(** [format_search_results(results)] *)
Definition format_search_results (results : list RAG.search_result)
  : result string :=
  output <- output_from 1 results ;;
  Ok (join nl output).

End Display.

(* ================================================================= *)
(** ** config.py and __main__.py: the commands [search] and [update] *)

Module Cli.

(** The class attributes of [Config], read from the process environment. *)
Record Config : Type := {
  ENVIRONMENT : string;
  BASE_URL : option string;
  API_TOKEN : option string;
  DB_PATH : string;
  MODEL_NAME : string
}.

Definition getenv_default (environ : string -> option string)
    (key default : string) : string :=
  match environ key with
  | Some v => v
  | None => default
  end.

(** The body of [class Config]. *)
Definition load_config (environ : string -> option string) : Config :=
  let environment := getenv_default environ "ENVIRONMENT" "dev" in
  {| ENVIRONMENT := environment;
     BASE_URL := if String.eqb environment "prod"
                 then environ "MONICA_PROD_BASE_URL"
                 else environ "MONICA_DEV_BASE_URL";
     API_TOKEN := if String.eqb environment "prod"
                  then environ "MONICA_PROD_API_TOKEN"
                  else environ "MONICA_DEV_API_TOKEN";
     DB_PATH := getenv_default environ "DB_PATH" "monica_rag.db";
     MODEL_NAME := getenv_default environ "MODEL_NAME" "all-MiniLM-L6-v2" |}.

(** What a command finds around it: the Monica server behind the
    transport, the clock, the SQLite library, the sentence-transformer
    models by name, and the database files by path. *)
Record world : Type := {
  send : Client.transport;
  clock : pyval -> Z;
  sqlite : Storage.sqlite;
  model : string -> string -> Np.ndarray;
  files : string -> option Storage.table
}.

(** [len(contacts)] and [for contact in contacts], on whatever
    [get_contacts] returned: the elements of a list, the keys of a
    dictionary, the characters of a string; nothing else has a length. *)
Definition elements (v : pyval) : result (list pyval) :=
  match v with
  | PyList xs => Ok xs
  | PyDict items => Ok (map (fun kv => PyStr (fst kv)) items)
  | PyStr s => Ok (map (fun c => PyStr (String c "")) (list_ascii_of_string s))
  | _ => Raise TypeError
  end.

(** The environment of the retrieval engine, served by the API client. *)
Definition environment_of (api_client : Client.MonicaAPIClient) (w : world)
  : RAG.environment :=
  {| RAG.contacts :=
       data <- Client.get_contacts (send w) api_client ;; elements data;
     RAG.contact_details := Client.get_contact_details (send w) api_client;
     RAG.current_timestamp := clock w;
     RAG.sqlite := sqlite w |}.

(** [MonicaRAG(api_client)]: the model and the database are those of the
    configuration. *)
Definition new_rag (cfg : Config) (w : world) : RAG.MonicaRAG :=
  RAG.init (model w (MODEL_NAME cfg)) (DB_PATH cfg) (files w (DB_PATH cfg)).

(** The command [search --query q --top-k top_k]: what it echoes, and the
    engine it leaves behind (none when the client could not be built). *)
Definition search (cfg : Config) (w : world) (q : string) (top_k : Z)
  : result (list string) * option RAG.MonicaRAG :=
  match Client.init (BASE_URL cfg) (API_TOKEN cfg) true with
  | Raise e => (Raise e, None)
  | Ok api_client =>
      let rag := new_rag cfg w in
      let (r, rag) := RAG.initialize (environment_of api_client w) rag in
      (_ <- r ;;
       results <- RAG.query rag q top_k ;;
       text <- Display.format_search_results results ;;
       Ok [nl ++ "Search results for: " ++ q; text],
       Some rag)
  end.

(** The command [update]. *)
Definition update (cfg : Config) (w : world)
  : result (list string) * option RAG.MonicaRAG :=
  match Client.init (BASE_URL cfg) (API_TOKEN cfg) true with
  | Raise e => (Raise e, None)
  | Ok api_client =>
      let rag := new_rag cfg w in
      let (r, rag) := RAG.update_embeddings (environment_of api_client w) rag in
      (_ <- r ;; Ok ["Successfully updated embeddings"], Some rag)
  end.

End Cli.

(* ================================================================= *)
(** ** monica_rag.py: the single-file version of the engine *)

Module Legacy.

Import Storage RAG.

(** [has_embeddings()]: the connection is opened with [sqlite3.connect]. *)
Definition has_embeddings (self : MonicaRAG) : result bool :=
  conn <- with_as (sqlite3_connect (storage self)) ;;
  rows <- prepare conn ;;
  let count := select_count rows in
  Ok (0 <? count).

(** [_create_contact_text(contact)]: the name line is always there. *)
Definition _create_contact_text (contact : record) : string :=
  let parts : list string := [] in
  let parts :=
    list_append parts
      ("Name: " ++ str (get_default contact "first_name" (PyStr "")) ++ " "
       ++ str (get_default contact "last_name" (PyStr ""))) in
  let parts :=
    if truthy (get contact "job")
    then list_append parts ("Job: " ++ str (get contact "job")) else parts in
  let parts :=
    if truthy (get contact "company")
    then list_append parts ("Company: " ++ str (get contact "company"))
    else parts in
  join nl parts.

Definition call_create_contact_text (details : pyval) : result string :=
  match details with
  | PyDict d => Ok (_create_contact_text d)
  | _ => Raise AttributeError
  end.

(** The body of the loop of [update_embeddings]. *)
Definition update_one (env : environment) (c : pyval) : method unit :=
  contact_id <-- raise_of (contact_id_of c) ;;;
  details <-- get_contact_details env contact_id ;;;
  text <-- raise_of (call_create_contact_text details) ;;;
  embedding <-- (fun self => ret (encoder self text) self) ;;;
  _ <-- set_embedding contact_id embedding ;;;
  _ <-- set_contact_data contact_id details ;;;
  storage_save_embedding (sqlite env) contact_id embedding details
    (current_timestamp env contact_id).

Definition update_embeddings (env : environment) : method unit :=
  cs <-- get_contacts env ;;;
  for_each (update_one env) cs.

(** [initialize()] *)
Definition initialize (env : environment) : method bool :=
  has <-- (fun self => raise_of (has_embeddings self) self) ;;;
  if has : bool
  then _ <-- _load_from_storage ;;; ret true
  else _ <-- update_embeddings env ;;; ret false.

End Legacy.

(* ================================================================= *)
(** ** Further predicates of the statements *)

Module Shape.

(** The rows come in ascending order of their ids. *)
Definition ascending (rows : Storage.table) : Prop :=
  StronglySorted (fun a b => Storage.contact_id a < Storage.contact_id b) rows.

(** A row without its time stamp. *)
Definition untimed (r : Storage.row) : Z * list byte * string :=
  (Storage.contact_id r, Storage.embedding r, Storage.contact_data r).

(** The store is kept in a database file. *)
Definition file_backed (s : Storage.MonicaRAGStorage) : Prop :=
  Storage.transient (Storage.db_path s) = false.

(** The row [save_embedding] writes for an integer id. *)
Definition saved_row (id : Z) (vector : Np.ndarray) (data : pyval) (now : Z)
  : Storage.row :=
  {| Storage.contact_id := id;
     Storage.embedding := Np.tobytes vector;
     Storage.contact_data := Json.dumps data;
     Storage.last_updated := now |}.

(** The row id a contact id is stored under, where that does not depend
    on the table: the integer itself, 1 and 0 for the booleans, and for a
    text the integer SQLite converts it to.  (A null id gets a row id that
    is not in use; a list or a dictionary is never stored.) *)
Definition rowid_of (lib : Storage.sqlite) (id : pyval) : option Z :=
  match id with
  | PyBool b => Some (if b then 1 else 0)
  | PyInt z => Some z
  | PyStr s => Storage.integer_of_text lib s
  | _ => None
  end.

(** The row ids that stand for the fetched records. *)
Definition fetched_rowids (env : RAG.environment) : list Z :=
  flat_map (fun id => match rowid_of (RAG.sqlite env) id with
                      | Some z => [z]
                      | None => []
                      end) (RAG.fetched_ids env).

(** The two objects differ at most in the rows of their table. *)
Definition same_mirror (a b : RAG.MonicaRAG) : Prop :=
  RAG.encoder a = RAG.encoder b
  /\ RAG.embeddings a = RAG.embeddings b
  /\ RAG.contact_data a = RAG.contact_data b
  /\ RAG.api_calls a = RAG.api_calls b
  /\ Storage.db_path (RAG.storage a) = Storage.db_path (RAG.storage b).

(** An entry of the mirror after the loop of [_load_from_storage]: the
    loaded value if the store has one, the old one otherwise. *)
Definition loaded {V} (old : list (key * V)) (new : option V) (id : Z) : option V :=
  match new with
  | Some v => Some v
  | None => dict_get key_eqb old (KInt id)
  end.

(** The ids of the listed contacts that have one. *)
Definition ids_of (cs : list pyval) : list pyval :=
  flat_map (fun c => match RAG.contact_id_of c with
                     | Ok id => [id]
                     | Raise _ => []
                     end) cs.

(** The id is an integer (and no boolean). *)
Definition is_int (id : pyval) : Prop := exists z, id = PyInt z.

(** The integers among the ids. *)
Definition ints_of (ids : list pyval) : list Z :=
  flat_map (fun id => match id with PyInt z => [z] | _ => [] end) ids.

(** The row [update_embeddings] writes for the contact of integer id
    [id] whose details are the dictionary [details]. *)
Definition entry_row (env : RAG.environment) (self : RAG.MonicaRAG) (id : Z)
    (details : record) : Storage.row :=
  {| Storage.contact_id := id;
     Storage.embedding :=
       Np.tobytes (RAG.encoder self (create_contact_text details));
     Storage.contact_data := Json.dumps (PyDict details);
     Storage.last_updated := RAG.current_timestamp env (PyInt id) |}.

(** Mirror and store hold, for the contact of integer id [id], what its
    details in Monica give: the embedding of their text and the details
    themselves, in the two dictionaries and in a row of the table. *)
Definition in_sync (env : RAG.environment) (self : RAG.MonicaRAG) (id : Z)
  : Prop :=
  exists details,
    RAG.contact_details env (PyInt id) = Ok (PyDict details)
    /\ dict_get key_eqb (RAG.embeddings self) (KInt id)
       = Some (RAG.encoder self (create_contact_text details))
    /\ dict_get key_eqb (RAG.contact_data self) (KInt id) = Some (PyDict details)
    /\ In (entry_row env self id details) (Storage.db (RAG.storage self)).

(** The contact has an integer id that SQLite can hold, and Monica
    returns a dictionary of details for it. *)
Definition fetchable (env : RAG.environment) (c : pyval) : Prop :=
  exists id details,
    RAG.contact_id_of c = Ok (PyInt id)
    /\ Storage.in_int64 id = true
    /\ RAG.contact_details env (PyInt id) = Ok (PyDict details).

(** Same encoder, same mirror, and the same rows up to their time
    stamps. *)
Definition same_content (a b : RAG.MonicaRAG) : Prop :=
  RAG.encoder a = RAG.encoder b
  /\ RAG.embeddings a = RAG.embeddings b
  /\ RAG.contact_data a = RAG.contact_data b
  /\ map untimed (Storage.db (RAG.storage a))
     = map untimed (Storage.db (RAG.storage b)).

(** The two Monica instances give the same answers; their clocks may
    differ. *)
Definition same_answers (env env' : RAG.environment) : Prop :=
  RAG.contacts env' = RAG.contacts env
  /\ forall id, RAG.contact_details env' id = RAG.contact_details env id.

(** The value is a dictionary. *)
Definition is_dict (v : pyval) : Prop := exists items, v = PyDict items.

End Shape.

Import Shape.

(* ================================================================= *)
(** ** Further sample data *)

Module Scenario.

(** A row whose blob was cut short: two bytes are no [float32]. *)
Definition torn_row : Storage.row :=
  {| Storage.contact_id := 3;
     Storage.embedding := [x00; x00];
     Storage.contact_data := Json.dumps (PyDict [("id", PyInt 3)]);
     Storage.last_updated := 1650000000 |}.

(** A store that holds Alice's entry and the torn one. *)
Definition store_with_torn_row : Storage.MonicaRAGStorage :=
  Storage.init "monica_rag.db" (Some [Sample.alice_row; torn_row]).


(** [MonicaRAGStorage("monica_rag.db")] on a new file. *)
Definition new_store : Storage.MonicaRAGStorage :=
  Storage.init "monica_rag.db" None.

(** A Monica instance that lists Alice and Bob and fails on the details
    of Bob. *)
Definition details_fail : RAG.environment :=
  {| RAG.contacts := Ok [PyDict [("id", PyInt 1)]; PyDict [("id", PyInt 2)]];
     RAG.contact_details := fun id =>
       match id with
       | PyInt 1 => Ok Sample.alice
       | _ => Raise ConnectionError
       end;
     RAG.current_timestamp := Sample.clock;
     RAG.sqlite := Sample.sqlite_lib |}.

(** The Monica instance of [Sample.two_contacts], an hour later. *)
Definition two_contacts_later : RAG.environment :=
  {| RAG.contacts := RAG.contacts Sample.two_contacts;
     RAG.contact_details := RAG.contact_details Sample.two_contacts;
     RAG.current_timestamp := fun id => 3600 + Sample.clock id;
     RAG.sqlite := Sample.sqlite_lib |}.

(** A Monica instance whose list gives the id of its one contact as the
    text "7", and the details of the contact under that id. *)
Definition text_id : RAG.environment :=
  {| RAG.contacts := Ok [PyDict [("id", PyStr "7")]];
     RAG.contact_details := fun id =>
       match id with
       | PyStr "7" => Ok Sample.bob
       | _ => Raise ConnectionError
       end;
     RAG.current_timestamp := fun _ => 1700000007;
     RAG.sqlite := Sample.sqlite_lib |}.

(** A Monica instance whose one contact has the id 2^63. *)
Definition wide_id : RAG.environment :=
  {| RAG.contacts := Ok [PyDict [("id", PyInt (2 ^ 63))]];
     RAG.contact_details := fun _ => Ok Sample.bob;
     RAG.current_timestamp := fun _ => 1700000008;
     RAG.sqlite := Sample.sqlite_lib |}.

(** A Monica instance whose list has the ids 1 and [true], with Alice
    under the first and Bob under the second. *)
Definition boolean_id : RAG.environment :=
  {| RAG.contacts := Ok [PyDict [("id", PyInt 1)]; PyDict [("id", PyBool true)]];
     RAG.contact_details := fun id =>
       match id with
       | PyInt 1 => Ok Sample.alice
       | PyBool true => Ok Sample.bob
       | _ => Raise ConnectionError
       end;
     RAG.current_timestamp := fun _ => 1700000009;
     RAG.sqlite := Sample.sqlite_lib |}.

(** A model of another dimension: every text goes to (1, 0, 0). *)
Definition wide_encoder (text : string) : Np.ndarray :=
  [Sample.f_one; Sample.f_zero; Sample.f_zero].

(** An engine with that model whose mirror was loaded from a store
    written with the two-dimensional one. *)
Definition engine_other_model : RAG.MonicaRAG :=
  snd (RAG._load_from_storage
         (RAG.init wide_encoder "monica_rag.db" (Some [Sample.alice_row]))).

(** A process environment that sets the production URL and token but not
    [ENVIRONMENT]. *)
Definition production_only (key : string) : option string :=
  if String.eqb key "MONICA_PROD_BASE_URL" then Some "monica.example.org"
  else if String.eqb key "MONICA_PROD_API_TOKEN" then Some "secret"
  else None.

(** A world without network: every request fails in the transport. *)
Definition offline : Cli.world :=
  {| Cli.send := fun _ => Client.RequestException;
     Cli.clock := fun _ => 1700000000;
     Cli.sqlite := Sample.sqlite_lib;
     Cli.model := fun _ => Sample.stub_encoder;
     Cli.files := fun _ => None |}.

(** A process environment of development: the URL and the token of the
    development server. *)
Definition development (key : string) : option string :=
  if String.eqb key "MONICA_DEV_BASE_URL" then Some "monica.example.org"
  else if String.eqb key "MONICA_DEV_API_TOKEN" then Some "secret"
  else None.

(** A world whose Monica server has Alice as its one contact. *)
Definition online : Cli.world :=
  {| Cli.send := fun request =>
       if String.eqb (Client.url request) "https://monica.example.org/api/contacts"
       then Client.Response 200
              (PyDict [("data", PyList [PyDict [("id", PyInt 1)]])])
       else if String.eqb (Client.url request)
                 "https://monica.example.org/api/contacts/1"
       then Client.Response 200 (PyDict [("data", Sample.alice)])
       else Client.Response 404 PyNone;
     Cli.clock := Sample.clock;
     Cli.sqlite := Sample.sqlite_lib;
     Cli.model := fun _ => Sample.stub_encoder;
     Cli.files := fun _ => None |}.

End Scenario.

(* ================================================================= *)
(** * Properties *)

(** ** Dictionaries *)

Section DictGeneric.
Context {K V : Type} (eqb : K -> K -> bool).
Hypothesis eqb_spec : forall a b, reflect (a = b) (eqb a b).
Implicit Types (d : list (K * V)) (k : K) (v : V).

Lemma eqb_refl_gen k : eqb k k = true.
Proof. now destruct (eqb_spec k k). Qed.

Lemma dict_keys_set_in_gen d k v :
  In k (dict_keys d) -> dict_keys (dict_set eqb d k v) = dict_keys d.
Proof.
  induction d as [|[k' v'] d IH]; simpl; [tauto|].
  intros H. destruct (eqb_spec k k') as [->|Hne]; simpl; [reflexivity|].
  f_equal. apply IH. destruct H; congruence.
Qed.

Lemma dict_keys_set_notin_gen d k v :
  ~ In k (dict_keys d) ->
  dict_keys (dict_set eqb d k v) = (dict_keys d ++ [k])%list.
Proof.
  induction d as [|[k' v'] d IH]; simpl; [reflexivity|].
  intros H. destruct (eqb_spec k k') as [->|Hne]; simpl; [tauto|].
  f_equal. apply IH. tauto.
Qed.

Lemma dict_get_set_same_gen d k v : dict_get eqb (dict_set eqb d k v) k = Some v.
Proof.
  induction d as [|[k' v'] d IH]; simpl.
  - now rewrite eqb_refl_gen.
  - destruct (eqb_spec k k') as [->|Hne]; simpl.
    + now rewrite eqb_refl_gen.
    + destruct (eqb_spec k k'); [contradiction|exact IH].
Qed.

Lemma dict_get_set_other_gen d k k' v :
  k' <> k -> dict_get eqb (dict_set eqb d k v) k' = dict_get eqb d k'.
Proof.
  intros Hne. induction d as [|[k0 v0] d IH]; simpl.
  - destruct (eqb_spec k' k); [contradiction|reflexivity].
  - destruct (eqb_spec k k0) as [->|Hk]; simpl.
    + destruct (eqb_spec k' k0); [contradiction|reflexivity].
    + destruct (eqb_spec k' k0); [reflexivity|exact IH].
Qed.

Lemma dict_get_in_keys_gen d k :
  In k (dict_keys d) -> exists v, dict_get eqb d k = Some v.
Proof.
  induction d as [|[k' v'] d IH]; simpl; [tauto|].
  intros H. destruct (eqb_spec k k') as [->|Hne]; [eauto|].
  apply IH. destruct H; congruence.
Qed.

Lemma in_keys_dec_gen d k : In k (dict_keys d) \/ ~ In k (dict_keys d).
Proof.
  induction d as [|[k' v'] d IH]; simpl; [tauto|].
  destruct (eqb_spec k' k); tauto.
Qed.

Lemma dict_set_nodup_gen d k v :
  NoDup (dict_keys d) -> NoDup (dict_keys (dict_set eqb d k v)).
Proof.
  intros H. destruct (in_keys_dec_gen d k) as [Hin|Hout].
  - now rewrite dict_keys_set_in_gen.
  - rewrite dict_keys_set_notin_gen by assumption.
    apply NoDup_app; [assumption|repeat constructor; simpl; tauto|].
    intros x Hx [<-|[]]. contradiction.
Qed.

Lemma dict_get_notin_gen d k : ~ In k (dict_keys d) -> dict_get eqb d k = None.
Proof.
  induction d as [|[k' v'] d IH]; cbn [dict_get dict_keys map fst]; [reflexivity|].
  intros H. destruct (eqb_spec k k') as [->|Hne]; [exfalso; apply H; now left|].
  apply IH. intros Hin. apply H. now right.
Qed.

Lemma dict_get_in_gen d k v : dict_get eqb d k = Some v -> In (k, v) d.
Proof.
  induction d as [|[k' v'] d IH]; cbn [dict_get]; [discriminate|].
  destruct (eqb_spec k k') as [->|_]; [intros [= ->]; now left|right; auto].
Qed.

Lemma dict_set_same_gen d k v : dict_get eqb d k = Some v -> dict_set eqb d k v = d.
Proof.
  induction d as [|[k' v'] d IH]; cbn [dict_get dict_set]; [discriminate|].
  destruct (eqb_spec k k') as [->|Hne].
  - now intros [= ->].
  - intros H. now rewrite IH.
Qed.

Lemma in_dict_set_gen d k v k' v' :
  In (k', v') (dict_set eqb d k v) -> In (k', v') d \/ (k' = k /\ v' = v).
Proof.
  induction d as [|[k0 v0] d IH]; simpl.
  - intros [[= <- <-]|[]]. now right.
  - destruct (eqb_spec k k0) as [->|Hne]; simpl.
    + intros [[= <- <-]|H]; [now right|left; now right].
    + intros [H|H]; [left; now left|]. destruct (IH H); [left; now right|now right].
Qed.

End DictGeneric.

Lemma dict_keys_set_same_keys_gen {K V W : Type} (eqb : K -> K -> bool)
    (eqb_spec : forall a b, reflect (a = b) (eqb a b))
    (d : list (K * V)) (e : list (K * W)) k v w :
  dict_keys d = dict_keys e ->
  dict_keys (dict_set eqb d k v) = dict_keys (dict_set eqb e k w).
Proof.
  intros H. destruct (in_keys_dec_gen eqb eqb_spec d k) as [Hin|Hout].
  - rewrite !(dict_keys_set_in_gen eqb eqb_spec); congruence.
  - rewrite !(dict_keys_set_notin_gen eqb eqb_spec); congruence.
Qed.

Lemma key_eqb_spec (a b : key) : reflect (a = b) (key_eqb a b).
Proof.
  destruct a as [|x|x], b as [|y|y]; cbn [key_eqb];
    try (constructor; congruence).
  - destruct (Z.eqb_spec x y); constructor; congruence.
  - destruct (String.eqb_spec x y); constructor; congruence.
Qed.

(** Dictionaries with integer keys: what [get_all_embeddings] returns. *)
Section DictFacts.
Context {V : Type}.
Implicit Types (d : list (Z * V)) (k : Z) (v : V).

Lemma dict_keys_set_in d k v :
  In k (dict_keys d) -> dict_keys (dict_set Z.eqb d k v) = dict_keys d.
Proof. apply (dict_keys_set_in_gen Z.eqb Z.eqb_spec). Qed.

Lemma dict_keys_set_notin d k v :
  ~ In k (dict_keys d) ->
  dict_keys (dict_set Z.eqb d k v) = (dict_keys d ++ [k])%list.
Proof. apply (dict_keys_set_notin_gen Z.eqb Z.eqb_spec). Qed.

Lemma dict_get_set_same d k v : dict_get Z.eqb (dict_set Z.eqb d k v) k = Some v.
Proof. apply (dict_get_set_same_gen Z.eqb Z.eqb_spec). Qed.

Lemma dict_get_set_other d k k' v :
  k' <> k -> dict_get Z.eqb (dict_set Z.eqb d k v) k' = dict_get Z.eqb d k'.
Proof. apply (dict_get_set_other_gen Z.eqb Z.eqb_spec). Qed.

Lemma dict_set_nodup d k v :
  NoDup (dict_keys d) -> NoDup (dict_keys (dict_set Z.eqb d k v)).
Proof. apply (dict_set_nodup_gen Z.eqb Z.eqb_spec). Qed.

Lemma dict_get_notin d k : ~ In k (dict_keys d) -> dict_get Z.eqb d k = None.
Proof. apply (dict_get_notin_gen Z.eqb Z.eqb_spec). Qed.

End DictFacts.

(** Dictionaries of the mirror, with Python keys. *)
Section KeyDictFacts.
Context {V : Type}.
Implicit Types (d : list (key * V)) (k : key) (v : V).

Lemma kdict_keys_set_in d k v :
  In k (dict_keys d) -> dict_keys (dict_set key_eqb d k v) = dict_keys d.
Proof. apply (dict_keys_set_in_gen key_eqb key_eqb_spec). Qed.

Lemma kdict_keys_set_notin d k v :
  ~ In k (dict_keys d) ->
  dict_keys (dict_set key_eqb d k v) = (dict_keys d ++ [k])%list.
Proof. apply (dict_keys_set_notin_gen key_eqb key_eqb_spec). Qed.

Lemma kdict_get_set_same d k v :
  dict_get key_eqb (dict_set key_eqb d k v) k = Some v.
Proof. apply (dict_get_set_same_gen key_eqb key_eqb_spec). Qed.

Lemma kdict_get_set_other d k k' v :
  k' <> k -> dict_get key_eqb (dict_set key_eqb d k v) k' = dict_get key_eqb d k'.
Proof. apply (dict_get_set_other_gen key_eqb key_eqb_spec). Qed.

Lemma kdict_get_in_keys d k :
  In k (dict_keys d) -> exists v, dict_get key_eqb d k = Some v.
Proof. apply (dict_get_in_keys_gen key_eqb key_eqb_spec). Qed.

Lemma kdict_set_nodup d k v :
  NoDup (dict_keys d) -> NoDup (dict_keys (dict_set key_eqb d k v)).
Proof. apply (dict_set_nodup_gen key_eqb key_eqb_spec). Qed.

Lemma kdict_get_notin d k : ~ In k (dict_keys d) -> dict_get key_eqb d k = None.
Proof. apply (dict_get_notin_gen key_eqb key_eqb_spec). Qed.

Lemma kdict_get_in d k v : dict_get key_eqb d k = Some v -> In (k, v) d.
Proof. apply (dict_get_in_gen key_eqb key_eqb_spec). Qed.

Lemma kdict_set_same d k v :
  dict_get key_eqb d k = Some v -> dict_set key_eqb d k v = d.
Proof. apply (dict_set_same_gen key_eqb key_eqb_spec). Qed.

Lemma in_dict_set d k v k' v' :
  In (k', v') (dict_set key_eqb d k v) -> In (k', v') d \/ (k' = k /\ v' = v).
Proof. apply (in_dict_set_gen key_eqb key_eqb_spec). Qed.

End KeyDictFacts.

Lemma dict_keys_set_same_keys {V W : Type} (d : list (key * V)) (e : list (key * W)) k v w :
  dict_keys d = dict_keys e ->
  dict_keys (dict_set key_eqb d k v) = dict_keys (dict_set key_eqb e k w).
Proof. apply (dict_keys_set_same_keys_gen key_eqb key_eqb_spec). Qed.

(* ================================================================= *)
(** ** The retrieval engine: initialisation *)

Section Initialize.
Import Storage RAG.

(** The existence check never gets to count the rows: entering the [with]
    statement raises, and the handler answers [False]. *)
Lemma has_embeddings_is_false self : _has_embeddings self = Ok false.
Proof. reflexivity. Qed.

Lemma initialize_rebuilds env self :
  initialize env self = (_ <-- update_embeddings env ;;; ret false) self.
Proof. reflexivity. Qed.

(** With an empty store, [initialize] is a full build that returns
    [False] (unless the build raises). *)
Lemma initialize_empty_store env self :
  db (storage self) = [] ->
  snd (initialize env self) = snd (update_embeddings env self)
  /\ (fst (update_embeddings env self) = Ok tt -> fst (initialize env self) = Ok false).
Proof.
  intros _. rewrite initialize_rebuilds. unfold bindM.
  destruct (update_embeddings env self) as [[[]|e] self']; simpl;
    (split; [reflexivity|intros H; try discriminate H; reflexivity]).
Qed.

(** C1 (evaluated on the code).  The database file holds one entry, for
    Alice, and the Monica API has no contact.  [initialize] does not load
    the entry: it asks the Contact Source Adapter for the contacts,
    returns [False], and leaves the in-memory mirror empty. *)
Theorem initialize_with_stored_entry_rebuilds :
  select_count (db (storage Sample.engine_with_store)) = 1
  /\ fst (initialize Sample.no_contacts Sample.engine_with_store) = Ok false
  /\ api_calls (snd (initialize Sample.no_contacts Sample.engine_with_store))
     = [GetContacts]
  /\ embeddings (snd (initialize Sample.no_contacts Sample.engine_with_store)) = []
  /\ fst (_load_from_storage Sample.engine_with_store) = Ok tt
  /\ dict_keys (embeddings (snd (_load_from_storage Sample.engine_with_store)))
     = [KInt 1].
Proof. vm_compute. repeat split; reflexivity. Qed.
End Initialize.

(* ================================================================= *)
(** ** The retrieval engine: the mirror *)

Section Mirror.
Import Storage RAG.

Lemma preserves_ret {A} I (a : A) : preserves I (ret a).
Proof. intros self H; exact H. Qed.

Lemma preserves_raise_of {A} I (r : result A) : preserves I (raise_of r).
Proof. intros self H; exact H. Qed.

Lemma preserves_bind {A B} I (m : method A) (k : A -> method B) :
  preserves I m -> (forall a, preserves I (k a)) -> preserves I (bindM m k).
Proof.
  intros Hm Hk self H. unfold bindM. specialize (Hm self H).
  destruct (m self) as [[a|e] self']; simpl in *; [now apply Hk|assumption].
Qed.

Lemma preserves_for_each {A} I (body : A -> method unit) l :
  (forall x, preserves I (body x)) -> preserves I (for_each body l).
Proof.
  intros Hb. induction l as [|x l IH]; simpl.
  - apply preserves_ret.
  - apply preserves_bind; [apply Hb|intros _; exact IH].
Qed.

(** One pass of the loop of [update_embeddings], step by step: the id is
    read, the details are requested, their text is embedded, the two
    dictionaries are written, and the row is saved.  A step that raises
    ends the pass and leaves what the steps before it did. *)
Lemma update_one_run env c self :
  update_one env c self
  = match contact_id_of c with
    | Raise e => (Raise e, self)
    | Ok id =>
        let called :=
          {| encoder := encoder self; storage := storage self;
             embeddings := embeddings self; contact_data := contact_data self;
             api_calls := list_append (api_calls self) (GetContactDetails id) |} in
        match contact_details env id with
        | Raise e => (Raise e, called)
        | Ok details =>
            match call_create_contact_text details with
            | Raise e => (Raise e, called)
            | Ok text =>
                match hash_key id with
                | Raise e => (Raise e, called)
                | Ok k =>
                    let vector := encoder self text in
                    let saved :=
                      save_embedding (sqlite env) (storage self) id vector details
                        (current_timestamp env id) in
                    (fst saved,
                     {| encoder := encoder self;
                        storage := snd saved;
                        embeddings := dict_set key_eqb (embeddings self) k vector;
                        contact_data :=
                          dict_set key_eqb (contact_data self) k details;
                        api_calls :=
                          list_append (api_calls self) (GetContactDetails id) |})
                end
            end
        end
    end.
Proof.
  unfold update_one, bindM, raise_of, get_contact_details, request, ret,
    set_embedding, set_contact_data, storage_save_embedding, set_storage.
  destruct (contact_id_of c) as [id|e]; [|reflexivity].
  destruct (contact_details env id) as [details|e]; [|reflexivity].
  destruct (call_create_contact_text details) as [text|e]; [|reflexivity].
  cbn [encoder storage embeddings contact_data api_calls].
  destruct (hash_key id) as [k|e]; [|reflexivity].
  cbn [encoder storage embeddings contact_data api_calls].
  destruct (save_embedding _ _ _ _ _ _) as [[[]|e] s]; reflexivity.
Qed.

Ltac mirror_inv_after_set :=
  match goal with
  | H : mirror_inv _ |- _ =>
      destruct H as [? ?]; unfold mirror_inv, same_keys in *; simpl;
      split; [now apply kdict_set_nodup|now apply dict_keys_set_same_keys]
  end.

Lemma mirror_inv_request {A} c (r : result A) : preserves mirror_inv (request c r).
Proof. intros self H; exact H. Qed.

Lemma mirror_inv_update_one env c : preserves mirror_inv (update_one env c).
Proof.
  intros self H. rewrite update_one_run.
  destruct (contact_id_of c) as [id|e]; [|exact H].
  destruct (contact_details env id) as [details|e]; [|exact H].
  destruct (call_create_contact_text details) as [text|e]; [|exact H].
  destruct (hash_key id) as [k|e]; [|exact H].
  mirror_inv_after_set.
Qed.

Lemma mirror_inv_update_embeddings env : preserves mirror_inv (update_embeddings env).
Proof.
  unfold update_embeddings. apply preserves_bind.
  - apply mirror_inv_request.
  - intros cs. apply preserves_for_each, mirror_inv_update_one.
Qed.

Lemma mirror_inv_load_one item : preserves mirror_inv (load_one item).
Proof.
  destruct item as [id [vector data]]. intros self H.
  unfold load_one, bindM, set_embedding, set_contact_data. cbn [hash_key].
  mirror_inv_after_set.
Qed.

Lemma mirror_inv_load_from_storage : preserves mirror_inv _load_from_storage.
Proof.
  unfold _load_from_storage. apply preserves_bind.
  - intros self H; exact H.
  - intros stored. apply preserves_for_each, mirror_inv_load_one.
Qed.

Lemma mirror_inv_initialize env : preserves mirror_inv (initialize env).
Proof.
  unfold initialize. apply preserves_bind.
  - intros self H; exact H.
  - intros [|]; (apply preserves_bind; [|intros; apply preserves_ret]).
    + apply mirror_inv_load_from_storage.
    + apply mirror_inv_update_embeddings.
Qed.

Lemma reachable_mirror_inv self : reachable self -> mirror_inv self.
Proof.
  induction 1.
  - split; [constructor|reflexivity].
  - now apply mirror_inv_initialize.
  - now apply mirror_inv_update_embeddings.
Qed.

(** C9.  In every reachable state of the engine the id-to-vector mapping
    and the id-to-record mapping have the same keys (in the same order),
    so every id that [query] scores has a record in [contact_data]. *)
Theorem mirror_keys_agree :
  forall self,
    reachable self ->
    dict_keys (embeddings self) = dict_keys (contact_data self)
    /\ (forall id vector,
           In (id, vector) (embeddings self) ->
           exists data, dict_getitem key_eqb (contact_data self) id = Ok data).
Proof.
  intros self Hr. destruct (reachable_mirror_inv self Hr) as [_ Hk].
  split; [exact Hk|].
  intros id vector Hin.
  assert (Hin' : In id (dict_keys (contact_data self))).
  { rewrite <- Hk. unfold dict_keys. change id with (fst (id, vector)).
    now apply in_map. }
  destruct (kdict_get_in_keys _ _ Hin') as [data Hd].
  exists data. unfold dict_getitem. now rewrite Hd.
Qed.

Lemma mirror_keys_agree_witness :
  reachable Sample.engine_ready
  /\ dict_keys (embeddings Sample.engine_ready) = [KInt 1; KInt 2]
  /\ dict_keys (embeddings Sample.engine_ready)
     = dict_keys (contact_data Sample.engine_ready).
Proof.
  assert (Hr : reachable Sample.engine_ready)
    by (unfold Sample.engine_ready; apply reach_initialize, reach_init).
  split; [exact Hr|]. split; [reflexivity|].
  exact (proj1 (mirror_keys_agree Sample.engine_ready Hr)).
Defined.

(** C8.  On an empty mirror [query] returns the empty list, whatever the
    text and [top_k]; it does not raise. *)
Theorem query_empty_mirror :
  forall self q top_k,
    embeddings self = [] -> query self q top_k = Ok [].
Proof.
  intros self q top_k H. unfold query. rewrite H. simpl.
  unfold slice_to. simpl. destruct (top_k <? 0); now rewrite firstn_nil.
Qed.

Lemma query_empty_mirror_witness :
  embeddings (RAG.init Sample.stub_encoder "monica_rag.db" None) = []
  /\ query (RAG.init Sample.stub_encoder "monica_rag.db" None) "query" 3 = Ok [].
Proof.
  split; [reflexivity|].
  apply (query_empty_mirror (RAG.init Sample.stub_encoder "monica_rag.db" None)).
  reflexivity.
Defined.
End Mirror.

(* ================================================================= *)
(** ** Comparisons and division in binary32 *)

Section FloatFacts.

Lemma SFcompare_antisym a b :
  SFcompare b a = option_map CompOpp (SFcompare a b).
Proof.
  destruct a as [sa|sa| |sa ma ea], b as [sb|sb| |sb mb eb]; simpl;
    try reflexivity;
    try (destruct sa; reflexivity);
    try (destruct sb; reflexivity);
    try (destruct sa, sb; reflexivity).
  destruct sa, sb; simpl; try reflexivity;
    rewrite (Z.compare_antisym ea eb);
    destruct (ea ?= eb); simpl; try reflexivity;
    rewrite (Pos.compare_cont_antisym ma mb Eq); simpl;
    try rewrite CompOpp_involutive; reflexivity.
Qed.

Lemma ltb_asym a b : Np.ltb a b = true -> Np.ltb b a = false.
Proof.
  unfold Np.ltb, SFltb. rewrite (SFcompare_antisym a b).
  destruct (SFcompare a b) as [[]|]; simpl; congruence.
Qed.

Lemma not_ltb_leb a b :
  Np.is_nan a = false -> Np.is_nan b = false ->
  Np.ltb a b = false -> Np.leb b a = true.
Proof.
  unfold Np.ltb, Np.leb, SFltb, SFleb. intros Ha Hb.
  rewrite (SFcompare_antisym a b).
  destruct (SFcompare a b) as [[]|] eqn:E; simpl; try congruence.
  destruct a, b; simpl in *; try discriminate;
    repeat match goal with s : bool |- _ => destruct s end; discriminate.
Qed.

(** Dividing by a zero or by NaN gives no finite number. *)
Lemma div_by_zero_or_nan d x :
  Np.is_zero x || Np.is_nan x = true -> not_finite (Np.div d x) = true.
Proof.
  destruct x as [s|s| |s m e]; simpl; try discriminate; intros _;
    destruct d; reflexivity.
Qed.

Lemma mul_zero_r x z :
  Np.is_zero z = true -> Np.is_zero (Np.mul x z) || Np.is_nan (Np.mul x z) = true.
Proof. destruct z; try discriminate. intros _. destruct x; reflexivity. Qed.

Lemma mul_zero_l x z :
  Np.is_zero z = true -> Np.is_zero (Np.mul z x) || Np.is_nan (Np.mul z x) = true.
Proof. destruct z; try discriminate. intros _. destruct x; reflexivity. Qed.

Lemma add_zero_or_nan a b :
  Np.is_zero a || Np.is_nan a = true ->
  Np.is_zero b || Np.is_nan b = true ->
  Np.is_zero (Np.add a b) || Np.is_nan (Np.add a b) = true.
Proof.
  destruct a as [sa|sa| |sa ma ea]; try discriminate;
    destruct b as [sb|sb| |sb mb eb]; try discriminate; intros _ _;
    try reflexivity.
  destruct sa, sb; reflexivity.
Qed.

Lemma div_zero_or_nan a b :
  Np.is_zero a || Np.is_nan a = true ->
  Np.is_zero b || Np.is_nan b = true ->
  Np.div a b = S754_nan.
Proof.
  destruct a as [sa|sa| |sa ma ea]; try discriminate;
    destruct b as [sb|sb| |sb mb eb]; try discriminate; reflexivity.
Qed.

(** The sum of products with an all-zero array is a zero or NaN. *)
Lemma inner_all_zero_r_acc a b acc :
  all_zero b ->
  Np.is_zero acc || Np.is_nan acc = true ->
  Np.is_zero (Np.inner_from acc a b) || Np.is_nan (Np.inner_from acc a b) = true.
Proof.
  intros Hb. revert b Hb acc.
  induction a as [|x a IH]; intros b Hb acc Hacc; [exact Hacc|].
  destruct b as [|y b]; [exact Hacc|].
  inversion Hb as [|? ? Hy Hb']; subst.
  cbn [Np.inner_from].
  apply (IH b Hb'). apply add_zero_or_nan; [assumption|]. now apply mul_zero_r.
Qed.

Lemma inner_all_zero_l_acc a b acc :
  all_zero a ->
  Np.is_zero acc || Np.is_nan acc = true ->
  Np.is_zero (Np.inner_from acc a b) || Np.is_nan (Np.inner_from acc a b) = true.
Proof.
  intros Ha. revert b acc.
  induction Ha as [|x a Hx Ha IH]; intros b acc Hacc; [exact Hacc|].
  destruct b as [|y b]; [exact Hacc|].
  cbn [Np.inner_from].
  apply IH. apply add_zero_or_nan; [assumption|]. now apply mul_zero_l.
Qed.

Lemma inner_all_zero_r a b :
  all_zero b -> Np.is_zero (Np.inner a b) || Np.is_nan (Np.inner a b) = true.
Proof. intros H. now apply inner_all_zero_r_acc. Qed.

Lemma inner_all_zero_l a b :
  all_zero a -> Np.is_zero (Np.inner a b) || Np.is_nan (Np.inner a b) = true.
Proof. intros H. now apply inner_all_zero_l_acc. Qed.

Lemma sqrt_zero_or_nan x :
  Np.is_zero x || Np.is_nan x = true ->
  Np.is_zero (Np.sqrt x) || Np.is_nan (Np.sqrt x) = true.
Proof. destruct x; try discriminate; reflexivity. Qed.

Lemma norm_all_zero x :
  all_zero x ->
  Np.is_zero (Np.linalg_norm x) || Np.is_nan (Np.linalg_norm x) = true.
Proof. intros H. apply sqrt_zero_or_nan. now apply inner_all_zero_r. Qed.

Lemma mul_zero_or_nan_l a b :
  Np.is_zero a || Np.is_nan a = true ->
  Np.is_zero (Np.mul a b) || Np.is_nan (Np.mul a b) = true.
Proof.
  destruct a as [sa|sa| |sa ma ea]; try discriminate; intros _;
    destruct b; reflexivity.
Qed.

Lemma mul_zero_or_nan_r a b :
  Np.is_zero b || Np.is_nan b = true ->
  Np.is_zero (Np.mul a b) || Np.is_nan (Np.mul a b) = true.
Proof.
  destruct b as [sb|sb| |sb mb eb]; try discriminate; intros _;
    destruct a; reflexivity.
Qed.

End FloatFacts.

(* ================================================================= *)
(** ** Sorting and slicing *)

Section SortFacts.
Context {A : Type} (key_lt : A -> A -> bool).

Lemma insert_reverse_perm x l : Permutation (x :: l) (insert_reverse key_lt x l).
Proof.
  induction l as [|y l IH]; simpl; [reflexivity|].
  destruct (key_lt x y); [|reflexivity].
  rewrite perm_swap. now constructor.
Qed.

Lemma sorted_reverse_perm l : Permutation l (sorted_reverse key_lt l).
Proof.
  induction l as [|x l IH]; simpl; [reflexivity|].
  rewrite <- insert_reverse_perm. now constructor.
Qed.

Lemma sorted_reverse_length l : List.length (sorted_reverse key_lt l) = List.length l.
Proof. symmetry. apply Permutation_length, sorted_reverse_perm. Qed.

Hypothesis key_lt_asym : forall x y, key_lt x y = true -> key_lt y x = false.

Lemma insert_reverse_sorted x l :
  Sorted (fun a b => key_lt a b = false) l ->
  Sorted (fun a b => key_lt a b = false) (insert_reverse key_lt x l).
Proof.
  induction l as [|y l IH]; simpl; intros Hs.
  - repeat constructor.
  - destruct (key_lt x y) eqn:E.
    + inversion Hs as [|? ? Hl Hy]; subst. constructor; [now apply IH|].
      destruct l as [|z l]; simpl.
      * constructor. now apply key_lt_asym.
      * destruct (key_lt x z); constructor.
        -- now inversion Hy.
        -- now apply key_lt_asym.
    + constructor; [assumption|constructor; assumption].
Qed.

Lemma sorted_reverse_sorted l :
  Sorted (fun a b => key_lt a b = false) (sorted_reverse key_lt l).
Proof.
  induction l as [|x l IH]; simpl; [constructor|now apply insert_reverse_sorted].
Qed.
End SortFacts.

Section SliceFacts.
Context {A : Type}.

Lemma Sorted_firstn (R : A -> A -> Prop) n l : Sorted R l -> Sorted R (firstn n l).
Proof.
  revert l. induction n as [|n IH]; intros l Hs; simpl; [constructor|].
  destruct l as [|x l]; [constructor|].
  inversion Hs as [|? ? Hl Hx]; subst. constructor; [now apply IH|].
  destruct n; simpl; [constructor|].
  destruct l; [constructor|]. constructor. now inversion Hx.
Qed.

Lemma slice_to_nonneg (l : list A) k : 0 <= k -> slice_to l k = firstn (Z.to_nat k) l.
Proof. intros H. unfold slice_to. destruct (Z.ltb_spec k 0); [lia|reflexivity]. Qed.


Lemma slice_to_is_firstn (l : list A) k : exists n, slice_to l k = firstn n l.
Proof. unfold slice_to. destruct (k <? 0); eauto. Qed.
End SliceFacts.

(* ================================================================= *)
(** ** The retrieval engine: queries *)

Section Query.
Import Storage RAG.

Lemma cosine_ok q e :
  List.length e = List.length q ->
  cosine q e
  = Ok (Np.div (Np.inner q e) (Np.mul (Np.linalg_norm q) (Np.linalg_norm e))).
Proof.
  intros H. unfold cosine, Np.dot. now rewrite H, Nat.eqb_refl.
Qed.

Lemma cosine_inv q e s :
  cosine q e = Ok s ->
  s = Np.div (Np.inner q e) (Np.mul (Np.linalg_norm q) (Np.linalg_norm e)).
Proof.
  unfold cosine, Np.dot. destruct (List.length q =? List.length e)%nat; simpl; congruence.
Qed.

(** Every entry of [similarities] is the quotient of a stored pair. *)
Lemma similarities_from_sound q items acc sims :
  similarities_from q items acc = Ok sims ->
  forall id s, In (id, s) sims ->
    In (id, s) acc \/ exists e, In (id, e) items /\ cosine q e = Ok s.
Proof.
  revert acc. induction items as [|[k e] items IH]; intros acc H id s Hin.
  - injection H as <-. now left.
  - cbn [similarities_from] in H. destruct (cosine q e) as [c|] eqn:Ec; [|discriminate].
    cbn [bind] in H. destruct (IH _ H id s Hin) as [Hacc|[e' [He' Hc]]].
    + destruct (in_dict_set _ _ _ _ _ Hacc) as [?|[-> ->]]; [now left|].
      right. exists e. split; [now left|assumption].
    + right. exists e'. split; [now right|assumption].
Qed.

(** With dimensions in agreement the loop runs to its end, and over
    distinct ids it adds one entry per stored vector, in order. *)
Lemma similarities_from_keys q items acc :
  Forall (fun item => List.length (snd item) = List.length q) items ->
  NoDup (dict_keys acc ++ dict_keys items) ->
  exists sims, similarities_from q items acc = Ok sims
               /\ dict_keys sims = (dict_keys acc ++ dict_keys items)%list.
Proof.
  revert acc. induction items as [|[k e] items IH]; intros acc Hd Hn.
  - exists acc. split; [reflexivity|]. simpl. now rewrite List.app_nil_r.
  - inversion Hd as [|? ? He Hd']; subst. simpl in He.
    cbn [similarities_from]. rewrite (cosine_ok _ _ He). cbn [bind].
    simpl in Hn.
    assert (Hk : ~ In k (dict_keys acc)).
    { apply NoDup_remove_2 in Hn. intros Hin. apply Hn, in_or_app. now left. }
    destruct (IH (dict_set key_eqb acc k
                    (Np.div (Np.inner q e)
                       (Np.mul (Np.linalg_norm q) (Np.linalg_norm e)))) Hd')
      as [sims [Hs Hk']].
    + rewrite kdict_keys_set_notin by assumption. now rewrite <- List.app_assoc.
    + exists sims. split; [assumption|].
      rewrite Hk', kdict_keys_set_notin by assumption. now rewrite <- List.app_assoc.
Qed.

Lemma results_of_spec self top rs :
  results_of self top = Ok rs ->
  map similarity rs = map snd top
  /\ Forall2 (fun t r => dict_getitem key_eqb (contact_data self) (fst t) = Ok (contact r))
             top rs.
Proof.
  revert rs. induction top as [|[id s] top IH]; intros rs H.
  - injection H as <-. split; constructor.
  - cbn [results_of] in H.
    destruct (dict_getitem key_eqb (contact_data self) id) as [c|] eqn:Ec; [|discriminate].
    cbn [bind] in H. destruct (results_of self top) as [rs'|]; [|discriminate].
    injection H as <-. destruct (IH rs' eq_refl) as [H1 H2].
    split; simpl; [now f_equal|now constructor].
Qed.

Lemma results_of_ok self top :
  (forall id s, In (id, s) top -> In id (dict_keys (contact_data self))) ->
  exists rs, results_of self top = Ok rs.
Proof.
  induction top as [|[id s] top IH]; intros H; [now exists []|].
  cbn [results_of].
  destruct (kdict_get_in_keys (contact_data self) id) as [c Hc].
  { apply (H id s). now left. }
  unfold dict_getitem. rewrite Hc. cbn [bind].
  destruct IH as [rs Hrs]; [intros; eapply H; right; eassumption|].
  rewrite Hrs. cbn [bind]. eauto.
Qed.

Lemma results_of_firstn self top rs n :
  results_of self top = Ok rs ->
  results_of self (firstn n top) = Ok (firstn n rs).
Proof.
  revert top rs. induction n as [|n IH]; intros top rs H; [reflexivity|].
  destruct top as [|[id s] top]; [now injection H as <-|].
  cbn [results_of firstn] in *.
  destruct (dict_getitem key_eqb (contact_data self) id) as [c|]; [|discriminate].
  cbn [bind] in *. destruct (results_of self top) as [rs'|] eqn:E; [|discriminate].
  injection H as <-. now rewrite (IH top rs' E).
Qed.

(** The full ranking: what [query] returns when [top_k] is the size of the
    mirror. *)
Lemma query_ranking self q :
  mirror_ready self q ->
  exists sims all,
    similarities_from (encoder self q) (embeddings self) [] = Ok sims
    /\ List.length sims = List.length (embeddings self)
    /\ results_of self (sorted_reverse score_lt sims) = Ok all
    /\ List.length all = List.length (embeddings self)
    /\ forall top_k, query self q top_k
                     = results_of self (slice_to (sorted_reverse score_lt sims) top_k).
Proof.
  intros (Hn & Hk & Hd).
  destruct (similarities_from_keys (encoder self q) (embeddings self) [] Hd Hn)
    as [sims [Hs Hkeys]].
  change (dict_keys sims = dict_keys (embeddings self)) in Hkeys.
  unfold same_keys in Hk.
  assert (Hlen : List.length sims = List.length (embeddings self)).
  { unfold dict_keys in Hkeys. rewrite <- (length_map fst sims), Hkeys.
    apply length_map. }
  destruct (results_of_ok self (sorted_reverse score_lt sims)) as [all Hall].
  { intros id s Hin. rewrite <- Hk, <- Hkeys.
    apply (Permutation_in _ (Permutation_sym (sorted_reverse_perm score_lt sims))) in Hin.
    unfold dict_keys. change id with (fst (id, s)). now apply in_map. }
  exists sims, all. repeat split; try assumption.
  - destruct (results_of_spec _ _ _ Hall) as [Hm _].
    rewrite <- (length_map similarity all), Hm, length_map, sorted_reverse_length.
    exact Hlen.
  - intros top_k. unfold query. rewrite Hs. reflexivity.
Qed.

End Query.

Section QueryClaims.
Import Storage RAG.

Lemma Sorted_map {A B} (R : B -> B -> Prop) (f : A -> B) l :
  Sorted (fun a b => R (f a) (f b)) l -> Sorted R (map f l).
Proof.
  induction 1 as [|x l Hl IH Hx]; simpl; constructor; [assumption|].
  destruct Hx; simpl; constructor; assumption.
Qed.

Lemma Sorted_weaken {A} (R R' : A -> A -> Prop) (P : A -> Prop) l :
  (forall a b, P a -> P b -> R a b -> R' a b) ->
  Forall P l -> Sorted R l -> Sorted R' l.
Proof.
  intros HR HP Hs. induction Hs as [|x l Hl IH Hx]; constructor.
  - apply IH. now inversion HP.
  - inversion HP as [|? ? Px Pl]; subst.
    destruct Hx as [|y l' Hxy]; constructor.
    inversion Pl; subst. now apply HR.
Qed.

Lemma in_firstn {A} n (l : list A) x : In x (firstn n l) -> In x l.
Proof.
  intros H. rewrite <- (firstn_skipn n l). apply in_or_app. now left.
Qed.

(** A result of [query] carries the quotient computed for one of the
    stored vectors, as it was computed. *)
Lemma query_results_sound self q top_k rs r :
  query self q top_k = Ok rs -> In r rs ->
  exists id e, In (id, e) (embeddings self)
               /\ cosine (encoder self q) e = Ok (similarity r).
Proof.
  unfold query. intros H Hr.
  destruct (similarities_from (encoder self q) (embeddings self) [])
    as [sims|] eqn:Es; [|discriminate].
  cbn [bind] in H. destruct (results_of_spec _ _ _ H) as [Hm _].
  assert (Hin : In (similarity r) (map snd (slice_to (sorted_reverse score_lt sims) top_k))).
  { rewrite <- Hm. now apply in_map. }
  apply in_map_iff in Hin. destruct Hin as [[id s] [Hs Hin]]. simpl in Hs. subst s.
  destruct (slice_to_is_firstn (sorted_reverse score_lt sims) top_k) as [n Hn].
  rewrite Hn in Hin. apply in_firstn in Hin.
  apply (Permutation_in _ (Permutation_sym (sorted_reverse_perm score_lt sims))) in Hin.
  destruct (similarities_from_sound _ _ _ _ Es _ _ Hin) as [[]|[e [He Hc]]].
  now exists id, e.
Qed.

(** An entry of [similarities] stays where a later write has another key. *)
Lemma in_dict_set_other {V} (d : list (key * V)) k v k' v' :
  In (k', v') d -> k' <> k -> In (k', v') (dict_set key_eqb d k v).
Proof.
  intros Hin Hne. induction d as [|[k0 v0] d IH]; [contradiction|].
  cbn [dict_set]. destruct (key_eqb_spec k k0) as [->|_].
  - destruct Hin as [[= -> ->]|Hin]; [contradiction|now right].
  - destruct Hin as [Hin|Hin]; [now left|right; auto].
Qed.

Lemma similarities_from_keeps q items acc sims id s :
  similarities_from q items acc = Ok sims ->
  In (id, s) acc -> ~ In id (dict_keys items) -> In (id, s) sims.
Proof.
  revert acc. induction items as [|[k e] items IH]; intros acc H Hin Hout.
  - now injection H as <-.
  - cbn [similarities_from] in H. destruct (cosine q e) as [c|]; [|discriminate].
    cbn [bind] in H. apply (IH _ H).
    + apply in_dict_set_other; [exact Hin|]. intros ->. apply Hout. now left.
    + intros Hk. apply Hout. now right.
Qed.

(** Every stored vector gets its entry in [similarities]: the quotient
    computed for it. *)
Lemma similarities_from_complete q items acc sims id e :
  similarities_from q items acc = Ok sims ->
  NoDup (dict_keys items) ->
  In (id, e) items ->
  exists s, cosine q e = Ok s /\ In (id, s) sims.
Proof.
  revert acc. induction items as [|[k e0] items IH]; intros acc H Hnd Hin;
    [contradiction|].
  cbn [similarities_from] in H. destruct (cosine q e0) as [c|] eqn:Ec; [|discriminate].
  cbn [bind] in H. cbn [dict_keys map fst] in Hnd.
  inversion Hnd as [|? ? Hk Hnd']; subst.
  destruct Hin as [[= -> ->]|Hin].
  - exists c. split; [exact Ec|].
    apply (similarities_from_keeps _ _ _ _ _ _ H); [|exact Hk].
    apply kdict_get_in, kdict_get_set_same.
  - exact (IH _ H Hnd' Hin).
Qed.

(** A ranked id is reported with its record and its score. *)
Lemma results_of_in self top rs id s :
  results_of self top = Ok rs ->
  In (id, s) top ->
  exists c, dict_get key_eqb (contact_data self) id = Some c
            /\ In {| contact := c; similarity := s |} rs.
Proof.
  revert rs. induction top as [|[k s0] top IH]; intros rs H Hin; [contradiction|].
  cbn [results_of] in H. unfold dict_getitem in H.
  destruct (dict_get key_eqb (contact_data self) k) as [c|] eqn:Ec; [|discriminate].
  cbn [bind] in H. destruct (results_of self top) as [rs'|]; [|discriminate].
  injection H as <-. destruct Hin as [[= -> ->]|Hin].
  - exists c. split; [exact Ec|now left].
  - destruct (IH rs' eq_refl Hin) as (c' & Hc' & Hin'). exists c'.
    split; [exact Hc'|now right].
Qed.

(** C2 (amended).  [query] divides without looking at the norms.  For a
    stored vector such that its norm or the norm of the query embedding
    is zero, the similarity computed for the pair is no finite number, so
    it is not 0: it is NaN or an infinity, and it is NaN whenever one of
    the two vectors is all zeros.  [query] reports that value, unchanged:
    asked for at least as many results as there are stored vectors, it
    returns the record of the vector with that similarity; and whatever
    it is asked for, every similarity it returns is the quotient computed
    for a stored vector. *)
Theorem query_zero_magnitude_not_finite :
  forall self q id e,
    mirror_ready self q ->
    In (id, e) (embeddings self) ->
    Np.is_zero (Np.linalg_norm (encoder self q)) = true
    \/ Np.is_zero (Np.linalg_norm e) = true ->
    exists s c,
      cosine (encoder self q) e = Ok s
      /\ not_finite s = true
      /\ (all_zero (encoder self q) \/ all_zero e -> s = S754_nan)
      /\ dict_get key_eqb (contact_data self) id = Some c
      /\ (forall top_k,
            Z.of_nat (List.length (embeddings self)) <= top_k ->
            exists rs, query self q top_k = Ok rs
                       /\ In {| contact := c; similarity := s |} rs)
      /\ (forall top_k rs r,
            query self q top_k = Ok rs -> In r rs ->
            exists id' e', In (id', e') (embeddings self)
                           /\ cosine (encoder self q) e' = Ok (similarity r)).
Proof.
  intros self q id e Hready Hin Hz.
  destruct (query_ranking self q Hready) as (sims & all & Hs & Hlen & Hall & _ & Hq).
  destruct Hready as (Hnd & _ & _).
  destruct (similarities_from_complete _ _ _ _ id e Hs Hnd Hin) as (s & Hc & Hsim).
  assert (Hsorted : In (id, s) (sorted_reverse score_lt sims))
    by exact (Permutation_in _ (sorted_reverse_perm score_lt sims) Hsim).
  destruct (results_of_in _ _ _ _ _ Hall Hsorted) as (c & Hcd & Hres).
  exists s, c. split; [exact Hc|]. split; [|split; [|split; [exact Hcd|split]]].
  - rewrite (cosine_inv _ _ _ Hc).
    apply div_by_zero_or_nan. destruct Hz as [Hz|Hz].
    + apply mul_zero_or_nan_l. now rewrite Hz.
    + apply mul_zero_or_nan_r. now rewrite Hz.
  - intros Hzero. rewrite (cosine_inv _ _ _ Hc).
    destruct Hzero as [Hzero|Hzero].
    + apply div_zero_or_nan; [now apply inner_all_zero_l|].
      apply mul_zero_or_nan_l. now apply norm_all_zero.
    + apply div_zero_or_nan; [now apply inner_all_zero_r|].
      apply mul_zero_or_nan_r. now apply norm_all_zero.
  - intros top_k Hk. exists all. split; [|exact Hres].
    rewrite Hq, slice_to_nonneg by lia. rewrite firstn_all2; [exact Hall|].
    rewrite sorted_reverse_length. lia.
  - intros top_k rs r. apply query_results_sound.
Qed.

Lemma sample_degenerate_ready : mirror_ready Sample.engine_degenerate "query".
Proof.
  split; [|split].
  - change (NoDup [KInt 1; KInt 2]). repeat constructor; simpl; intuition discriminate.
  - reflexivity.
  - repeat constructor.
Qed.

Lemma query_zero_magnitude_not_finite_witness :
  mirror_ready Sample.engine_degenerate "query"
  /\ In (KInt 1, [Sample.f_zero; Sample.f_zero]) (embeddings Sample.engine_degenerate)
  /\ Np.is_zero (Np.linalg_norm [Sample.f_zero; Sample.f_zero]) = true
  /\ exists s c,
       cosine (encoder Sample.engine_degenerate "query")
         [Sample.f_zero; Sample.f_zero] = Ok s
       /\ s = S754_nan
       /\ exists rs, query Sample.engine_degenerate "query" 2 = Ok rs
                     /\ In {| contact := c; similarity := s |} rs.
Proof.
  assert (Hin : In (KInt 1, [Sample.f_zero; Sample.f_zero])
                  (embeddings Sample.engine_degenerate)) by (left; reflexivity).
  assert (Hz : Np.is_zero (Np.linalg_norm [Sample.f_zero; Sample.f_zero]) = true)
    by reflexivity.
  split; [exact sample_degenerate_ready|]. split; [exact Hin|]. split; [exact Hz|].
  destruct (query_zero_magnitude_not_finite Sample.engine_degenerate "query"
              (KInt 1) [Sample.f_zero; Sample.f_zero]
              sample_degenerate_ready Hin (or_intror Hz))
    as (s & c & Hc & _ & Hnan & _ & Hrep & _).
  exists s, c. split; [exact Hc|]. split.
  - apply Hnan. right. repeat constructor.
  - apply Hrep. vm_compute. discriminate.
Defined.

(** C2 (counterexample).  The mirror holds the zero vector for Alice and
    (0, 1) for Bob; the query embeds to (1, 0).  [query] reports NaN for
    Alice, not 0. *)
Lemma query_zero_vector_reports_nan :
  embeddings Sample.engine_degenerate
  = [(KInt 1, [Sample.f_zero; Sample.f_zero]);
     (KInt 2, [Sample.f_zero; Sample.f_one])]
  /\ Np.is_zero (Np.linalg_norm [Sample.f_zero; Sample.f_zero]) = true
  /\ query Sample.engine_degenerate "query" 3
     = Ok [ {| contact := Sample.alice; similarity := S754_nan |};
            {| contact := Sample.bob; similarity := S754_zero false |} ]
  /\ SFeqb S754_nan (S754_zero false) = false.
Proof. vm_compute. repeat split; reflexivity. Qed.

(** C3 (amended).  For a mirror of N vectors and every [top_k >= 0],
    [query] returns exactly min(top_k, N) results; when no score is NaN
    they are ordered by non-increasing score. *)
Theorem query_top_k_sorted :
  forall self q top_k,
    mirror_ready self q ->
    0 <= top_k ->
    exists rs,
      query self q top_k = Ok rs
      /\ Z.of_nat (List.length rs)
         = Z.min top_k (Z.of_nat (List.length (embeddings self)))
      /\ (scores_are_numbers self q -> non_increasing (map similarity rs)).
Proof.
  intros self q top_k Hready Hk.
  destruct (query_ranking self q Hready) as (sims & all & Hs & Hlen & Hall & Hlall & Hq).
  exists (firstn (Z.to_nat top_k) all). split; [|split].
  - rewrite Hq, slice_to_nonneg by assumption. now apply results_of_firstn.
  - rewrite length_firstn, Hlall. lia.
  - intros Hnum. unfold non_increasing.
    rewrite <- firstn_map. apply Sorted_firstn.
    destruct (results_of_spec _ _ _ Hall) as [Hm _]. rewrite Hm.
    apply Sorted_map.
    apply (Sorted_weaken (fun a b => score_lt a b = false) _
             (fun x => Np.is_nan (snd x) = false)).
    + intros a b Ha Hb Hab. now apply not_ltb_leb.
    + apply Forall_forall. intros [id s] Hin. simpl.
      apply (Permutation_in _ (Permutation_sym (sorted_reverse_perm score_lt sims))) in Hin.
      destruct (similarities_from_sound _ _ _ _ Hs _ _ Hin) as [[]|[e [He Hc]]].
      exact (Hnum id e s He Hc).
    + apply sorted_reverse_sorted. intros x y. apply ltb_asym.
Qed.

Lemma sample_mirror_ready : mirror_ready Sample.engine_ready "query".
Proof.
  split; [|split].
  - change (NoDup [KInt 1; KInt 2]). repeat constructor; simpl; intuition discriminate.
  - reflexivity.
  - repeat constructor.
Qed.

Lemma sample_scores_are_numbers : scores_are_numbers Sample.engine_ready "query".
Proof.
  intros id vector s Hin.
  change (In (id, vector) [(KInt 1, [Sample.f_one; Sample.f_zero]);
                           (KInt 2, [Sample.f_zero; Sample.f_one])]) in Hin.
  destruct Hin as [[= <- <-]|[[= <- <-]|[]]]; vm_compute; now intros [= <-].
Qed.

Lemma query_top_k_sorted_witness :
  mirror_ready Sample.engine_ready "query"
  /\ 0 <= 1
  /\ exists rs,
       query Sample.engine_ready "query" 1 = Ok rs
       /\ Z.of_nat (List.length rs)
          = Z.min 1 (Z.of_nat (List.length (embeddings Sample.engine_ready)))
       /\ (scores_are_numbers Sample.engine_ready "query" ->
           non_increasing (map similarity rs)).
Proof.
  split; [exact sample_mirror_ready|]. split; [lia|].
  apply (query_top_k_sorted Sample.engine_ready "query" 1 sample_mirror_ready).
  lia.
Defined.

(** The scenario of the specification: stored vectors (1, 0) for Alice
    and (0, 1) for Bob, the query embedded to (0.9, 0.1), [top_k = 1].
    The answer is Alice, with similarity 16674602 / 2^24 = 0.9938... *)
Example query_scenario :
  query Sample.engine_ready "query" 1
  = Ok [ {| contact := Sample.alice;
            similarity := S754_finite false 16674602 (-24) |} ]
  /\ 993 * 2 ^ 24 < 1000 * 16674602 < 995 * 2 ^ 24.
Proof. vm_compute. repeat split; reflexivity. Qed.

(** With a NaN among the scores the results are not in order: here NaN
    comes first and 0.0 second, and 0.0 <= NaN does not hold. *)
Example query_nan_scores_not_ordered :
  exists rs,
    query Sample.engine_degenerate "query" 3 = Ok rs
    /\ ~ non_increasing (map similarity rs).
Proof.
  eexists. split; [vm_compute; reflexivity|].
  cbv [map similarity]. intros H. inversion H as [|? ? _ Hd]; subst.
  inversion Hd as [|? ? Hle]; subst. discriminate Hle.
Qed.

(** C3 (counterexample).  The mirror holds N = 2 vectors and [top_k] is
    [-1]: [query] returns one result, more than min(-1, 2). *)
Lemma query_negative_top_k_exceeds_min :
  List.length (embeddings Sample.engine_ready) = 2%nat
  /\ query Sample.engine_ready "query" (-1)
     = Ok [ {| contact := Sample.alice;
               similarity := S754_finite false 16674602 (-24) |} ]
  /\ Z.min (-1) 2 < 1.
Proof. vm_compute. repeat split; reflexivity. Qed.




End QueryClaims.

(* ================================================================= *)
(** ** json: decoding what was encoded *)

Section JsonFacts.
Import Json.

Lemma append_assoc (a b c : string) : ((a ++ b) ++ c)%string = (a ++ (b ++ c))%string.
Proof. induction a as [|x a IH]; simpl; [reflexivity|now rewrite IH]. Qed.

Lemma length_append (a b : string) :
  String.length (a ++ b) = (String.length a + String.length b)%nat.
Proof. induction a as [|x a IH]; simpl; [reflexivity|now rewrite IH]. Qed.

(** *** Strings *)

Lemma scanstring_escape_char c t :
  scanstring (escape_char c ++ t) = scons c (scanstring t).
Proof.
  destruct c as [[] [] [] [] [] [] [] []]; reflexivity.
Qed.

Lemma scanstring_escape s rest :
  scanstring (escape s ++ String quote2 rest) = Some (s, rest).
Proof.
  induction s as [|c s IH]; [reflexivity|].
  cbn [escape]. rewrite append_assoc, scanstring_escape_char, IH. reflexivity.
Qed.

Lemma dumps_str_append s rest :
  (dumps_str s ++ rest)%string = String quote2 (escape s ++ String quote2 rest).
Proof. unfold dumps_str. cbn [append]. now rewrite append_assoc. Qed.

(** *** Integers *)

Lemma span_digits_delimited rest :
  delimited rest = true -> span_digits rest = (EmptyString, rest).
Proof.
  destruct rest as [|c r]; [reflexivity|]. cbn [delimited span_digits].
  destruct (is_digit c); [discriminate|reflexivity].
Qed.

Lemma span_digits_uint u rest :
  delimited rest = true ->
  span_digits (NilEmpty.string_of_uint u ++ rest)
  = (NilEmpty.string_of_uint u, rest).
Proof.
  intros H. induction u; cbn [NilEmpty.string_of_uint append];
    [now apply span_digits_delimited|..];
    cbn [span_digits]; rewrite IHu; reflexivity.
Qed.

Lemma to_uint_head p :
  match Pos.to_uint p with
  | Decimal.Nil | Decimal.D0 _ => False
  | _ => True
  end.
Proof.
  pose proof (DecimalPos.Unsigned.to_uint_nonnil p) as Hnil.
  assert (Hn : Decimal.unorm (Pos.to_uint p) = Pos.to_uint p).
  { change (Pos.to_uint p) with (N.to_uint (Npos p)) at 2.
    rewrite <- (DecimalPos.Unsigned.of_to p).
    symmetry. apply DecimalPos.Unsigned.to_of. }
  pose proof (DecimalPos.Unsigned.to_uint_nonzero p) as Hz.
  assert (Hh : Decimal.nzhead (Pos.to_uint p) = Pos.to_uint p).
  { unfold Decimal.unorm in Hn.
    destruct (Decimal.nzhead (Pos.to_uint p)) eqn:E; try exact Hn.
    exfalso. apply Hz. now rewrite <- Hn. }
  pose proof (DecimalFacts.nzhead_nonzero (Pos.to_uint p)) as Hd.
  rewrite Hh in Hd.
  destruct (Pos.to_uint p); try exact I; [now apply Hnil|now apply (Hd u)].
Qed.

Lemma scan_number_uint sign u rest :
  match u with Decimal.Nil | Decimal.D0 _ => False | _ => True end ->
  delimited rest = true ->
  (let (ds, rest') := span_digits (NilEmpty.string_of_uint u ++ rest) in
   match ds with
   | EmptyString => None
   | _ =>
       if leading_zero ds || float_follows rest' then None
       else
         match NilZero.int_of_string (sign ++ ds) with
         | Some d => Some (PyInt (Z.of_int d), rest')
         | None => None
         end
   end)
  = match NilZero.int_of_string (sign ++ NilEmpty.string_of_uint u) with
    | Some d => Some (PyInt (Z.of_int d), rest)
    | None => None
    end.
Proof.
  intros Hu Hr. rewrite span_digits_uint by assumption.
  assert (Hf : float_follows rest = false).
  { destruct rest as [|c r]; [reflexivity|]. cbn [delimited] in Hr.
    destruct (float_follows (String c r)); [|reflexivity].
    now rewrite andb_false_r in Hr. }
  rewrite Hf.
  destruct u; try contradiction; cbn [NilEmpty.string_of_uint leading_zero];
    destruct (NilEmpty.string_of_uint u); reflexivity.
Qed.

Lemma scan_number_str_of_int z rest :
  delimited rest = true ->
  scan_number (str_of_int z ++ rest) = Some (PyInt z, rest).
Proof.
  intros Hr. unfold str_of_int.
  destruct z as [|p|p]; cbn [Z.to_int NilZero.string_of_int].
  - change (scan_number (String "0" rest) = Some (PyInt 0, rest)).
    assert (Hf : float_follows rest = false).
    { destruct rest as [|c r]; [reflexivity|]. cbn [delimited] in Hr.
      destruct (float_follows (String c r)); [|reflexivity].
      now rewrite andb_false_r in Hr. }
    unfold scan_number. change (code "0" =? 45) with false. cbv iota.
    cbn [span_digits]. change (is_digit "0") with true. cbv iota.
    rewrite (span_digits_delimited _ Hr). cbn [leading_zero orb].
    rewrite Hf. reflexivity.
  - pose proof (to_uint_head p) as Hh.
    assert (Hs : NilZero.string_of_uint (Pos.to_uint p)
                 = NilEmpty.string_of_uint (Pos.to_uint p))
      by (destruct (Pos.to_uint p); try reflexivity; contradiction).
    rewrite Hs. unfold scan_number.
    assert (Hsign : (match (NilEmpty.string_of_uint (Pos.to_uint p) ++ rest)%string with
                     | String c s' =>
                         if code c =? 45
                         then ("-"%string, s')
                         else (EmptyString, (NilEmpty.string_of_uint (Pos.to_uint p) ++ rest)%string)
                     | EmptyString => (EmptyString, (NilEmpty.string_of_uint (Pos.to_uint p) ++ rest)%string)
                     end)
                    = (EmptyString, (NilEmpty.string_of_uint (Pos.to_uint p) ++ rest)%string)).
    { destruct (Pos.to_uint p); try contradiction; reflexivity. }
    rewrite Hsign.
    rewrite (scan_number_uint EmptyString _ _ Hh Hr).
    cbn [append]. rewrite <- Hs.
    change (NilZero.string_of_uint (Pos.to_uint p))
      with (NilZero.string_of_int (Z.to_int (Zpos p))).
    rewrite NilZero.isi;
      [|cbn; intros [= E]; revert E; apply DecimalPos.Unsigned.to_uint_nonnil
       |cbn; discriminate].
    now rewrite DecimalZ.of_to.
  - pose proof (to_uint_head p) as Hh.
    assert (Hs : NilZero.string_of_uint (Pos.to_uint p)
                 = NilEmpty.string_of_uint (Pos.to_uint p))
      by (destruct (Pos.to_uint p); try reflexivity; contradiction).
    rewrite Hs. unfold scan_number. cbn [append].
    change (code "-" =? 45) with true. cbv iota.
    rewrite (scan_number_uint "-" _ _ Hh Hr).
    cbn [append]. rewrite <- Hs.
    change (String "-" (NilZero.string_of_uint (Pos.to_uint p)))
      with (NilZero.string_of_int (Z.to_int (Zneg p))).
    rewrite NilZero.isi;
      [|cbn; discriminate
       |cbn; intros [= E]; revert E; apply DecimalPos.Unsigned.to_uint_nonnil].
    now rewrite DecimalZ.of_to.
Qed.

(** *** Values *)

Lemma pyval_ind' (P : pyval -> Prop) :
  P PyNone ->
  (forall b, P (PyBool b)) ->
  (forall z, P (PyInt z)) ->
  (forall s, P (PyStr s)) ->
  (forall xs, Forall P xs -> P (PyList xs)) ->
  (forall items, Forall (fun kv => P (snd kv)) items -> P (PyDict items)) ->
  forall v, P v.
Proof.
  intros HN HB HI HS HL HD.
  fix IH 1. intros [| b | z | s | xs | items].
  - exact HN.
  - apply HB.
  - apply HI.
  - apply HS.
  - apply HL. induction xs as [|x xs IHxs]; constructor; [apply IH|exact IHxs].
  - apply HD. induction items as [|[k v] items IHi]; constructor;
      [apply IH|exact IHi].
Qed.

Lemma dumps_list xs :
  dumps (PyList xs) = String "[" (join ", " (map dumps xs) ++ "]").
Proof. reflexivity. Qed.

Lemma dumps_dict items :
  dumps (PyDict items) = String "{" (join ", " (map member items) ++ "}").
Proof. reflexivity. Qed.

Lemma join_cons2 sep (x y : string) l :
  join sep (x :: y :: l) = (x ++ sep ++ join sep (y :: l))%string.
Proof. reflexivity. Qed.

Lemma starts_value_append s t : starts_value s -> starts_value (s ++ t).
Proof. destruct s; [contradiction|exact (fun H => H)]. Qed.

Lemma str_of_int_head z :
  match str_of_int z with
  | String c _ => is_digit c = true \/ code c = 45
  | EmptyString => False
  end.
Proof.
  unfold str_of_int. destruct z as [|p|p]; cbn [Z.to_int NilZero.string_of_int].
  - left. reflexivity.
  - pose proof (to_uint_head p) as Hh.
    destruct (Pos.to_uint p); try contradiction; left; reflexivity.
  - right. reflexivity.
Qed.

Lemma number_head_starts_value c s :
  is_digit c = true \/ code c = 45 -> starts_value (String c s).
Proof.
  destruct c as [[] [] [] [] [] [] [] []]; intros [H|H]; vm_compute in H;
    try discriminate H; repeat split.
Qed.

Lemma dumps_starts_value v : starts_value (dumps v).
Proof.
  destruct v as [| [] | z | s | xs | items]; try (repeat split; fail).
  cbn [dumps]. pose proof (str_of_int_head z) as H.
  destruct (str_of_int z) as [|c s]; [contradiction|].
  now apply number_head_starts_value.
Qed.

Lemma skip_ws_starts_value s : starts_value s -> skip_ws s = s.
Proof.
  destruct s as [|c s]; [contradiction|]. intros [H _]. cbn [skip_ws]. now rewrite H.
Qed.

Lemma skip_ws_space s : skip_ws (String " " s) = skip_ws s.
Proof. reflexivity. Qed.

(** One step of each scanner. *)
Lemma scan_items_S f s :
  scan_items (S f) s
  = match scan_once f s with
    | Some (v, rest) =>
        match skip_ws rest with
        | String c r =>
            if code c =? 93 then Some ([v], r)
            else if code c =? 44 then
              match scan_items f (skip_ws r) with
              | Some (vs, rest') => Some (v :: vs, rest')
              | None => None
              end
            else None
        | EmptyString => None
        end
    | None => None
    end.
Proof. reflexivity. Qed.

Lemma scan_pairs_S f s1 :
  scan_pairs (S f) (String quote2 s1)
  = match scanstring s1 with
    | Some (k, rest) =>
        match skip_ws rest with
        | String colon r =>
            if code colon =? 58 then
              match scan_once f (skip_ws r) with
              | Some (v, rest1) =>
                  match skip_ws rest1 with
                  | String c r1 =>
                      if code c =? 125 then Some ([(k, v)], r1)
                      else if code c =? 44 then
                        match scan_pairs f (skip_ws r1) with
                        | Some (kvs, rest') => Some ((k, v) :: kvs, rest')
                        | None => None
                        end
                      else None
                  | EmptyString => None
                  end
              | None => None
              end
            else None
        | EmptyString => None
        end
    | None => None
    end.
Proof. reflexivity. Qed.

Lemma scan_once_string f s1 :
  scan_once (S f) (String quote2 s1)
  = match scanstring s1 with
    | Some (t, rest) => Some (PyStr t, rest)
    | None => None
    end.
Proof. reflexivity. Qed.

Lemma scan_once_list f s :
  scan_once (S f) (String "[" s)
  = match skip_ws s with
    | String c1 s1 =>
        if code c1 =? 93 then Some (PyList [], s1)
        else
          match scan_items f (String c1 s1) with
          | Some (xs, rest) => Some (PyList xs, rest)
          | None => None
          end
    | EmptyString => None
    end.
Proof. reflexivity. Qed.

Lemma scan_once_dict f s :
  scan_once (S f) (String "{" s)
  = match skip_ws s with
    | String c1 s1 =>
        if code c1 =? 125 then Some (PyDict [], s1)
        else
          match scan_pairs f (String c1 s1) with
          | Some (pairs, rest) => Some (PyDict (dict_of_pairs pairs), rest)
          | None => None
          end
    | EmptyString => None
    end.
Proof. reflexivity. Qed.

Lemma scan_once_number f c s :
  is_digit c = true \/ code c = 45 ->
  scan_once (S f) (String c s) = scan_number (String c s).
Proof.
  destruct c as [[] [] [] [] [] [] [] []]; intros [H|H]; vm_compute in H;
    try discriminate H; reflexivity.
Qed.

Lemma distinct_NoDup keys : distinct keys = true -> NoDup keys.
Proof.
  induction keys as [|k keys IH]; cbn [distinct]; intros H; constructor.
  - apply andb_true_iff in H. destruct H as [H _].
    intros Hin. apply negb_true_iff in H.
    assert (existsb (String.eqb k) keys = true); [|congruence].
    apply existsb_exists. exists k. split; [assumption|apply String.eqb_refl].
  - apply IH. apply andb_true_iff in H. tauto.
Qed.

Lemma dict_set_fresh_str {V} (d : list (string * V)) k v :
  ~ In k (map fst d) -> dict_set String.eqb d k v = (d ++ [(k, v)])%list.
Proof.
  induction d as [|[k' v'] d IH]; cbn [dict_set map fst In app]; intros H; [reflexivity|].
  destruct (String.eqb_spec k k') as [->|Hne]; [tauto|].
  f_equal. apply IH. tauto.
Qed.

Lemma dict_of_pairs_acc (items acc : list (string * pyval)) :
  NoDup (map fst acc ++ map fst items)%list ->
  fold_left (fun d kv => dict_set String.eqb d (fst kv) (snd kv)) items acc
  = (acc ++ items)%list.
Proof.
  revert acc. induction items as [|[k v] items IH]; intros acc H; cbn [fold_left fst snd].
  - now rewrite List.app_nil_r.
  - cbn [map fst] in H.
    rewrite dict_set_fresh_str.
    + rewrite IH; [now rewrite <- List.app_assoc|].
      rewrite map_app. cbn [map fst]. now rewrite <- List.app_assoc.
    + apply NoDup_remove_2 in H. intros Hin. apply H, in_or_app. now left.
Qed.

Lemma dict_of_pairs_distinct items :
  distinct (map fst items) = true -> dict_of_pairs items = items.
Proof.
  intros H. unfold dict_of_pairs. rewrite dict_of_pairs_acc; [reflexivity|].
  now apply distinct_NoDup.
Qed.

Lemma join_dumps_starts_value x xs t :
  starts_value (join ", " (map dumps (x :: xs)) ++ t).
Proof.
  apply starts_value_append. destruct xs; cbn [map];
    [|rewrite join_cons2; apply starts_value_append]; apply dumps_starts_value.
Qed.

Lemma join_member_starts_value kv items t :
  starts_value (join ", " (map member (kv :: items)) ++ t).
Proof.
  apply starts_value_append. destruct items; cbn [map];
    [|rewrite join_cons2; apply starts_value_append]; repeat split.
Qed.

Lemma scan_items_dumps x xs :
  Forall scans_back (x :: xs) ->
  forallb wf_json (x :: xs) = true ->
  forall fuel rest,
    (String.length (join ", " (map dumps (x :: xs))) < fuel)%nat ->
    scan_items fuel (join ", " (map dumps (x :: xs)) ++ String "]" rest)
    = Some (x :: xs, rest).
Proof.
  revert x. induction xs as [|y ys IH]; intros x HP Hwf fuel rest Hfuel.
  - inversion HP as [|? ? Hx _]; subst.
    cbn [forallb] in Hwf. rewrite andb_true_r in Hwf.
    destruct fuel as [|f]; [lia|]. cbn [map join String.concat] in *.
    rewrite scan_items_S, (Hx Hwf f (String "]" rest)); [reflexivity|lia|reflexivity].
  - inversion HP as [|? ? Hx HP']; subst.
    cbn [forallb] in Hwf. apply andb_true_iff in Hwf. destruct Hwf as [Hwx Hwf].
    destruct fuel as [|f]; [lia|].
    cbn [map] in Hfuel |- *. rewrite join_cons2 in Hfuel |- *.
    rewrite !length_append in Hfuel. cbn [String.length] in Hfuel.
    rewrite !append_assoc. cbn [append].
    rewrite scan_items_S, (Hx Hwx f); [|lia|reflexivity].
    cbn [skip_ws]. change (is_ws ",") with false. cbv iota.
    change (code "," =? 93) with false. change (code "," =? 44) with true. cbv iota.
    rewrite skip_ws_space.
    change (dumps y :: map dumps ys) with (map dumps (y :: ys)).
    rewrite skip_ws_starts_value by apply join_dumps_starts_value.
    rewrite (IH y HP' Hwf f rest); [reflexivity|].
    cbn [map]. lia.
Qed.

Lemma scan_pairs_dumps kv items :
  Forall (fun kv => scans_back (snd kv)) (kv :: items) ->
  forallb (fun kv => wf_json (snd kv)) (kv :: items) = true ->
  forall fuel rest,
    (String.length (join ", " (map member (kv :: items))) < fuel)%nat ->
    scan_pairs fuel (join ", " (map member (kv :: items)) ++ String "}" rest)
    = Some (kv :: items, rest).
Proof.
  revert kv. induction items as [|kv' items IH]; intros [k v] HP Hwf fuel rest Hfuel.
  - inversion HP as [|? ? Hv _]; subst. cbn [snd] in Hv.
    cbn [forallb snd] in Hwf. rewrite andb_true_r in Hwf.
    destruct fuel as [|f]; [lia|]. cbn [map join String.concat] in *.
    unfold member in *. cbn [fst snd] in *.
    rewrite !length_append in Hfuel. cbn [String.length] in Hfuel.
    rewrite !append_assoc.
    rewrite dumps_str_append, scan_pairs_S, scanstring_escape.
    cbn [append skip_ws]. change (is_ws ":") with false. cbv iota.
    change (code ":" =? 58) with true. cbv iota.
    rewrite skip_ws_space, skip_ws_starts_value
      by (apply starts_value_append, dumps_starts_value).
    rewrite (Hv Hwf f (String "}" rest)); [reflexivity|lia|reflexivity].
  - inversion HP as [|? ? Hv HP']; subst. cbn [snd] in Hv.
    cbn [forallb snd] in Hwf. apply andb_true_iff in Hwf. destruct Hwf as [Hwv Hwf].
    destruct fuel as [|f]; [lia|].
    cbn [map] in Hfuel |- *. rewrite join_cons2 in Hfuel |- *.
    unfold member at 1 in Hfuel. unfold member at 1. cbn [fst snd] in *.
    rewrite !length_append in Hfuel. cbn [String.length] in Hfuel.
    rewrite !append_assoc.
    rewrite dumps_str_append, scan_pairs_S, scanstring_escape.
    cbn [append skip_ws]. change (is_ws ":") with false. cbv iota.
    change (code ":" =? 58) with true. cbv iota.
    rewrite skip_ws_space, skip_ws_starts_value
      by (apply starts_value_append, dumps_starts_value).
    rewrite (Hv Hwv f); [|lia|reflexivity].
    cbn [skip_ws]. change (is_ws ",") with false. cbv iota.
    change (code "," =? 125) with false. change (code "," =? 44) with true. cbv iota.
    rewrite skip_ws_space.
    change (member kv' :: map member items) with (map member (kv' :: items)).
    rewrite skip_ws_starts_value by apply join_member_starts_value.
    rewrite (IH kv' HP' Hwf f rest); [reflexivity|].
    cbn [map]. lia.
Qed.

Lemma scan_once_dumps v : scans_back v.
Proof.
  induction v as [| b | z | s | xs IHxs | items IHitems] using pyval_ind';
    intros Hwf fuel rest Hfuel Hrest.
  - destruct fuel as [|f]; [cbn in Hfuel; lia|]. reflexivity.
  - destruct fuel as [|f]; [destruct b; cbn in Hfuel; lia|]. destruct b; reflexivity.
  - cbn [dumps] in *. pose proof (str_of_int_head z) as Hh.
    pose proof (scan_number_str_of_int z rest Hrest) as Hn.
    destruct (str_of_int z) as [|c s]; [contradiction|].
    destruct fuel as [|f]; [cbn in Hfuel; lia|].
    cbn [append] in *. now rewrite scan_once_number.
  - destruct fuel as [|f]; [cbn in Hfuel; lia|].
    cbn [dumps]. rewrite dumps_str_append, scan_once_string, scanstring_escape.
    reflexivity.
  - rewrite dumps_list in *. cbn [wf_json] in Hwf.
    destruct fuel as [|f]; [cbn in Hfuel; lia|].
    cbn [String.length] in Hfuel. rewrite length_append in Hfuel.
    cbn [String.length] in Hfuel.
    cbn [append]. rewrite append_assoc. cbn [append]. rewrite scan_once_list.
    destruct xs as [|x xs]; [reflexivity|].
    pose proof (join_dumps_starts_value x xs (String "]" rest)) as Hs.
    rewrite (skip_ws_starts_value _ Hs).
    pose proof (scan_items_dumps x xs IHxs Hwf f rest) as Hi.
    destruct (join ", " (map dumps (x :: xs)) ++ String "]" rest)%string
      as [|c1 s1] eqn:E; [contradiction|].
    destruct Hs as (_ & -> & _).
    rewrite Hi by lia. reflexivity.
  - rewrite dumps_dict in *. cbn [wf_json] in Hwf.
    apply andb_true_iff in Hwf. destruct Hwf as [Hd Hwf].
    destruct fuel as [|f]; [cbn in Hfuel; lia|].
    cbn [String.length] in Hfuel. rewrite length_append in Hfuel.
    cbn [String.length] in Hfuel.
    cbn [append]. rewrite append_assoc. cbn [append]. rewrite scan_once_dict.
    destruct items as [|kv items]; [reflexivity|].
    pose proof (join_member_starts_value kv items (String "}" rest)) as Hs.
    rewrite (skip_ws_starts_value _ Hs).
    pose proof (scan_pairs_dumps kv items IHitems Hwf f rest) as Hi.
    destruct (join ", " (map member (kv :: items)) ++ String "}" rest)%string
      as [|c1 s1] eqn:E; [contradiction|].
    destruct Hs as (_ & _ & ->).
    rewrite Hi by lia. now rewrite dict_of_pairs_distinct.
Qed.

(** [json.loads(json.dumps(v))] gives [v] back. *)
Lemma loads_dumps v : wf_json v = true -> loads (dumps v) = Ok v.
Proof.
  intros Hwf. unfold loads.
  rewrite (skip_ws_starts_value _ (dumps_starts_value v)).
  pose proof (scan_once_dumps v Hwf (S (String.length (dumps v))) EmptyString) as H.
  assert (Hnil : forall s : string, (s ++ EmptyString)%string = s)
    by (induction s as [|c s IHs]; cbn [append]; [reflexivity|now rewrite IHs]).
  rewrite Hnil in H. rewrite H; [reflexivity|lia|reflexivity].
Qed.

End JsonFacts.

(* ================================================================= *)
(** ** numpy: a buffer read back *)

Section NpFacts.

Lemma Z_of_byte_of_Z z : Np.Z_of_byte (Np.byte_of_Z z) = Z.land z 255.
Proof.
  unfold Np.Z_of_byte, Np.byte_of_Z.
  assert (Hb : 0 <= Z.land z 255 < 256).
  { change 255 with (Z.ones 8). rewrite Z.land_ones by lia.
    apply Z.mod_pos_bound. reflexivity. }
  pose proof (Byte.to_of_N_option_map (Z.to_N (Z.land z 255))) as H.
  destruct (N.leb_spec (Z.to_N (Z.land z 255)) 255) as [_|Hgt]; [|lia].
  destruct (Byte.of_N (Z.to_N (Z.land z 255))) as [b|]; [|discriminate].
  injection H as ->. lia.
Qed.

Lemma testbit_byte_at w k n :
  0 <= n -> 0 <= k ->
  Z.testbit (Z.shiftl (Z.land (Z.shiftr w k) 255) k) n
  = Z.testbit w n && ((k <=? n) && (n <? k + 8)).
Proof.
  intros Hn Hk. rewrite Z.shiftl_spec by assumption.
  destruct (Z.leb_spec k n) as [Hle|Hlt].
  - rewrite Z.land_spec, Z.shiftr_spec by lia.
    change 255 with (Z.ones 8). rewrite Z.testbit_ones_nonneg by lia.
    replace (n - k + k) with n by lia.
    destruct (Z.ltb_spec (n - k) 8), (Z.ltb_spec n (k + 8)); try lia; reflexivity.
  - rewrite Z.testbit_neg_r by lia. now rewrite andb_false_r.
Qed.

Lemma element_round_trip w :
  Np.is_float32 w ->
  Np.element_of_bytes (Np.byte_of_Z w) (Np.byte_of_Z (Z.shiftr w 8))
    (Np.byte_of_Z (Z.shiftr w 16)) (Np.byte_of_Z (Z.shiftr w 24)) = w.
Proof.
  intros [Hlo Hhi]. unfold Np.element_of_bytes. rewrite !Z_of_byte_of_Z.
  rewrite <- (Z.shiftl_0_r (Z.land w 255)).
  rewrite <- (Z.shiftr_0_r w) at 1.
  apply Z.bits_inj'. intros n Hn.
  rewrite !Z.lor_spec, !testbit_byte_at by lia.
  destruct (Z.ltb_spec n 32) as [Hlt|Hge].
  - destruct (Z.testbit w n); [|reflexivity]. cbn [andb].
    destruct (Z.leb_spec 0 n), (Z.ltb_spec n (0 + 8)),
      (Z.leb_spec 8 n), (Z.ltb_spec n (8 + 8)),
      (Z.leb_spec 16 n), (Z.ltb_spec n (16 + 8)),
      (Z.leb_spec 24 n), (Z.ltb_spec n (24 + 8)); try lia; reflexivity.
  - assert (Hw : Z.testbit w n = false).
    { destruct (Z.eq_dec w 0) as [->|Hne]; [apply Z.testbit_0_l|].
      apply Z.bits_above_log2; [lia|].
      assert (Z.log2 w < 32) by (apply Z.log2_lt_pow2; lia). lia. }
    rewrite Hw. reflexivity.
Qed.

(** [np.frombuffer(a.tobytes(), dtype=np.float32)] gives the elements of
    [a] back, bit for bit. *)
Lemma frombuffer_tobytes a :
  Forall Np.is_float32 a -> Np.frombuffer (Np.tobytes a) = Ok a.
Proof.
  induction 1 as [|w a Hw Ha IH]; [reflexivity|].
  cbn [Np.tobytes flat_map Np.element_bytes app Np.frombuffer].
  fold (Np.tobytes a). rewrite IH. cbn [bind].
  now rewrite element_round_trip.
Qed.

End NpFacts.

(* ================================================================= *)
(** ** The embedding store *)

Section StorageFacts.
Import Storage.

Lemma in_insert_by_rowid r rows x :
  In x (insert_by_rowid r rows) <-> x = r \/ In x rows.
Proof.
  induction rows as [|r' rows IH]; cbn [insert_by_rowid].
  - simpl. intuition.
  - destruct (contact_id r <? contact_id r'); simpl in *; intuition.
Qed.

Lemma in_insert_or_replace r rows x :
  In x (insert_or_replace r rows)
  <-> x = r \/ (In x rows /\ contact_id x <> contact_id r).
Proof.
  unfold insert_or_replace. rewrite in_insert_by_rowid, filter_In.
  rewrite negb_true_iff, Z.eqb_neq. tauto.
Qed.

Lemma insert_by_rowid_perm r rows : Permutation (r :: rows) (insert_by_rowid r rows).
Proof.
  induction rows as [|r' rows IH]; cbn [insert_by_rowid]; [reflexivity|].
  destruct (contact_id r <? contact_id r'); [reflexivity|].
  rewrite perm_swap. now constructor.
Qed.

Lemma NoDup_map_filter {A B} (f : A -> B) (p : A -> bool) l :
  NoDup (map f l) -> NoDup (map f (filter p l)).
Proof.
  induction l as [|x l IH]; cbn [map filter]; intros H; [constructor|].
  inversion H as [|? ? Hx Hl]; subst.
  destruct (p x); cbn [map]; [constructor|]; auto.
  intros Hin. apply Hx. apply in_map_iff in Hin. destruct Hin as [y [Hy Hin]].
  apply in_map_iff. exists y. split; [assumption|]. now apply filter_In in Hin.
Qed.

(** One row per id: [INSERT OR REPLACE] keeps the primary key unique. *)
Lemma insert_or_replace_nodup r rows :
  NoDup (map contact_id rows) ->
  NoDup (map contact_id (insert_or_replace r rows)).
Proof.
  intros H. unfold insert_or_replace.
  apply (Permutation_NoDup (Permutation_map contact_id (insert_by_rowid_perm r _))).
  cbn [map]. constructor; [|now apply NoDup_map_filter].
  intros Hin. apply in_map_iff in Hin. destruct Hin as [x [Hx Hin]].
  apply filter_In in Hin. destruct Hin as [_ Hne].
  apply negb_true_iff, Z.eqb_neq in Hne. contradiction.
Qed.

Lemma filter_insert_by_rowid r rows :
  Forall (fun x => contact_id x <> contact_id r) rows ->
  filter (fun x => contact_id x =? contact_id r) (insert_by_rowid r rows) = [r].
Proof.
  induction 1 as [|r' rows Hr' Hrows IH]; cbn [insert_by_rowid filter].
  - now rewrite Z.eqb_refl.
  - assert (E : (contact_id r' =? contact_id r) = false) by now apply Z.eqb_neq.
    destruct (contact_id r <? contact_id r'); cbn [filter].
    + rewrite Z.eqb_refl, E. f_equal.
      clear IH. induction Hrows as [|y l Hy Hl IHl]; cbn [filter]; [reflexivity|].
      apply Z.eqb_neq in Hy. now rewrite Hy.
    + now rewrite E.
Qed.

Lemma filter_insert_or_replace r rows :
  filter (fun x => contact_id x =? contact_id r) (insert_or_replace r rows) = [r].
Proof.
  apply filter_insert_by_rowid. apply Forall_forall. intros x Hin.
  apply filter_In in Hin. destruct Hin as [_ Hne].
  now apply negb_true_iff, Z.eqb_neq in Hne.
Qed.

(** *** How [save_embedding] ends *)

(** Either it raises and the store is as before, or the store is kept in
    a file and has the new row, under a row id that stands for the id: the
    one the id converts to, or for a null id one that was not in use. *)
Lemma save_embedding_cases lib self id vector data now :
  (exists e, save_embedding lib self id vector data now = (Raise e, self))
  \/ exists rowid,
       save_embedding lib self id vector data now
       = (Ok tt, {| db_path := db_path self;
                    db := insert_or_replace (saved_row rowid vector data now)
                            (db self) |})
       /\ file_backed self
       /\ in_int64 rowid = true
       /\ (rowid_of lib id = Some rowid
           \/ (id = PyNone
               /\ existsb (fun r => contact_id r =? rowid) (db self) = false)).
Proof.
  unfold save_embedding, execute_insert, sqlite3_connect, file_backed.
  cbn [with_as bind]. destruct (transient (db_path self)); cbn [prepare bind];
    [left; eexists; reflexivity|].
  destruct id as [|b|z|s|xs|items]; cbn [bind_parameter bind rowid_for rowid_of];
    try (left; eexists; reflexivity).
  - destruct (auto_rowid lib (db self)) as [z|];
      [|left; eexists; reflexivity].
    destruct (in_int64 z) eqn:Ez; cbn [andb];
      [|left; eexists; reflexivity].
    destruct (existsb _ (db self)) eqn:Ex; cbn [negb bind];
      [left; eexists; reflexivity|].
    right. exists z. split; [reflexivity|]. split; [reflexivity|].
    split; [exact Ez|]. right. now split.
  - right. exists (if b then 1 else 0). split; [reflexivity|].
    split; [reflexivity|]. split; [now destruct b|]. left. now destruct b.
  - destruct (in_int64 z) eqn:Ez; cbn [bind rowid_for];
      [|left; eexists; reflexivity].
    right. exists z. split; [reflexivity|]. split; [reflexivity|].
    split; [exact Ez|]. now left.
  - destruct (integer_of_text lib s) as [z|];
      [|left; eexists; reflexivity].
    destruct (in_int64 z) eqn:Ez; cbn [bind];
      [|left; eexists; reflexivity].
    right. exists z. split; [reflexivity|]. split; [reflexivity|].
    split; [exact Ez|]. now left.
Qed.

(** On an integer id it returns when the store is kept in a file and the
    id has 64 bits; otherwise it raises, and which exception tells why. *)
Lemma save_embedding_int lib self id vector data now :
  file_backed self -> in_int64 id = true ->
  save_embedding lib self (PyInt id) vector data now
  = (Ok tt, {| db_path := db_path self;
               db := insert_or_replace (saved_row id vector data now) (db self) |}).
Proof.
  unfold file_backed, save_embedding, execute_insert, sqlite3_connect.
  intros -> Hid. cbn [with_as bind prepare bind_parameter]. rewrite Hid.
  reflexivity.
Qed.

Lemma save_embedding_int_raises lib self id vector data now :
  save_embedding lib self (PyInt id) vector data now
  = if transient (db_path self) then (Raise OperationalError, self)
    else if in_int64 id
         then (Ok tt, {| db_path := db_path self;
                         db := insert_or_replace (saved_row id vector data now)
                                 (db self) |})
         else (Raise OverflowError, self).
Proof.
  unfold save_embedding, execute_insert, sqlite3_connect.
  cbn [with_as bind]. destruct (transient (db_path self)); cbn [prepare bind];
    [reflexivity|].
  cbn [bind_parameter]. now destruct (in_int64 id).
Qed.

Lemma reachable_nodup s : reachable s -> NoDup (map contact_id (db s)).
Proof.
  induction 1 as [path|path self Hs IH|lib self id vector data now Hs IH].
  - constructor.
  - exact IH.
  - destruct (save_embedding_cases lib self id vector data now)
      as [(e & ->)|(rowid & -> & _)]; cbn [snd db]; [exact IH|].
    now apply insert_or_replace_nodup.
Qed.

(** *** Reading the table back *)

Lemma decode_rows_all rows acc :
  (exists d, decode_rows rows acc = Ok d) <-> Forall row_decodes rows.
Proof.
  revert acc. induction rows as [|r rows IH]; intros acc; cbn [decode_rows].
  - split; [constructor|eauto].
  - split.
    + intros [d H].
      destruct (Np.frombuffer (embedding r)) as [v|] eqn:Ev; [|discriminate].
      cbn [bind] in H.
      destruct (Json.loads (contact_data r)) as [c|] eqn:Ec; [|discriminate].
      cbn [bind] in H. constructor; [now exists v, c|].
      apply (IH (dict_set Z.eqb acc (contact_id r) (v, c))). eauto.
    + intros H. inversion H as [|? ? (v & c & Ev & Ec) Hrows]; subst.
      rewrite Ev, Ec. cbn [bind]. now apply IH.
Qed.

Lemma decode_rows_other rows acc d k :
  decode_rows rows acc = Ok d ->
  (forall r, In r rows -> contact_id r <> k) ->
  dict_get Z.eqb d k = dict_get Z.eqb acc k.
Proof.
  revert acc. induction rows as [|r rows IH]; intros acc H Hk; cbn [decode_rows] in H.
  - now injection H as <-.
  - destruct (Np.frombuffer (embedding r)) as [v|]; [|discriminate]. cbn [bind] in H.
    destruct (Json.loads (contact_data r)) as [c|]; [|discriminate]. cbn [bind] in H.
    rewrite (IH _ H) by (intros; apply Hk; now right).
    apply dict_get_set_other. intros ->. apply (Hk r); [now left|reflexivity].
Qed.

Lemma decode_rows_get rows acc d r vector data :
  decode_rows rows acc = Ok d ->
  In r rows ->
  (forall r', In r' rows -> contact_id r' = contact_id r -> r' = r) ->
  Np.frombuffer (embedding r) = Ok vector ->
  Json.loads (contact_data r) = Ok data ->
  dict_get Z.eqb d (contact_id r) = Some (vector, data).
Proof.
  intros H Hin Hu Ev Ec. revert acc H.
  induction rows as [|r0 rows IH]; intros acc H; [contradiction|].
  cbn [decode_rows] in H.
  destruct (Np.frombuffer (embedding r0)) as [v0|] eqn:Ev0; [|discriminate].
  cbn [bind] in H.
  destruct (Json.loads (contact_data r0)) as [c0|] eqn:Ec0; [|discriminate].
  cbn [bind] in H.
  destruct (existsb (fun x => contact_id x =? contact_id r) rows) eqn:Ex.
  - apply existsb_exists in Ex. destruct Ex as [x [Hx Hid]].
    apply Z.eqb_eq in Hid.
    assert (x = r) by (apply Hu; [now right|assumption]). subst x.
    eapply IH; [exact Hx|intros; apply Hu; [now right|assumption]|exact H].
  - assert (Hno : forall x, In x rows -> contact_id x <> contact_id r).
    { intros x Hx Hid.
      assert (existsb (fun x => contact_id x =? contact_id r) rows = true);
        [|congruence].
      apply existsb_exists. exists x. split; [assumption|now apply Z.eqb_eq]. }
    rewrite (decode_rows_other _ _ _ _ H Hno).
    destruct Hin as [->|Hin]; [|exfalso; now apply (Hno r)].
    rewrite Ev in Ev0. rewrite Ec in Ec0.
    injection Ev0 as <-. injection Ec0 as <-.
    apply dict_get_set_same.
Qed.

Lemma get_all_embeddings_rows self d :
  get_all_embeddings self = Ok d ->
  file_backed self /\ decode_rows (db self) [] = Ok d.
Proof.
  unfold get_all_embeddings, sqlite3_connect, file_backed. cbn [with_as bind].
  destruct (transient (db_path self)); cbn [prepare bind]; [discriminate|].
  now split.
Qed.

Lemma get_all_embeddings_file_backed self :
  file_backed self -> get_all_embeddings self = decode_rows (db self) [].
Proof.
  unfold get_all_embeddings, sqlite3_connect, file_backed. intros ->.
  reflexivity.
Qed.

Lemma readable_rows self : readable self -> Forall row_decodes (db self).
Proof.
  intros [d H]. apply get_all_embeddings_rows in H. destruct H as [_ H].
  apply (decode_rows_all _ []). eauto.
Qed.

(** What [get_all_embeddings] finds under the id of the one row with
    that id. *)
Lemma get_all_embeddings_entry self d r vector data :
  get_all_embeddings self = Ok d ->
  filter (fun x => contact_id x =? contact_id r) (db self) = [r] ->
  Np.frombuffer (embedding r) = Ok vector ->
  Json.loads (contact_data r) = Ok data ->
  dict_get Z.eqb d (contact_id r) = Some (vector, data).
Proof.
  intros H Hone Hv Hd. apply get_all_embeddings_rows in H. destruct H as [_ H].
  assert (Hin : forall x, In x (db self) /\ contact_id x = contact_id r <-> x = r).
  { intros x.
    pose proof (filter_In (fun x => contact_id x =? contact_id r) x (db self))
      as Hf.
    rewrite Hone, Z.eqb_eq in Hf. simpl in Hf.
    split; [intros H0; apply Hf in H0; destruct H0 as [H0|[]]; now symmetry
           |intros ->; apply Hf; now left]. }
  apply (decode_rows_get _ _ _ r vector data H); try assumption.
  - now apply (proj2 (Hin r)).
  - intros r' Hr' Hid. apply Hin. now split.
Qed.




(** C5 (amended).  On a store kept in a database file and for an id that
    SQLite can hold, two [save_embedding] calls with the same id both
    return, and the table then has exactly one row for that id: the row of
    the second call, with its vector, its record and its time stamp, which
    decode to the second vector and record.  Every store a program can
    reach has at most one row per id, whatever the calls and however they
    ended. *)
Theorem save_twice_keeps_one_entry :
  forall lib self id vector1 data1 now1 vector2 data2 now2,
    file_backed self ->
    in_int64 id = true ->
    let first := save_embedding lib self (PyInt id) vector1 data1 now1 in
    let second := save_embedding lib (snd first) (PyInt id) vector2 data2 now2 in
    fst first = Ok tt
    /\ fst second = Ok tt
    /\ filter (fun r => contact_id r =? id) (db (snd second))
       = [ {| contact_id := id;
              embedding := Np.tobytes vector2;
              contact_data := Json.dumps data2;
              last_updated := now2 |} ]
    /\ (Forall Np.is_float32 vector2 ->
        Np.frombuffer (Np.tobytes vector2) = Ok vector2)
    /\ (Json.wf_json data2 = true -> Json.loads (Json.dumps data2) = Ok data2)
    /\ (forall d,
          Forall Np.is_float32 vector2 ->
          Json.wf_json data2 = true ->
          get_all_embeddings (snd second) = Ok d ->
          dict_get Z.eqb d id = Some (vector2, data2))
    /\ (forall s, reachable s -> NoDup (map contact_id (db s))).
Proof.
  intros lib self id vector1 data1 now1 vector2 data2 now2 Hfile Hid first second.
  subst first second.
  rewrite (save_embedding_int lib self id vector1 data1 now1 Hfile Hid).
  cbn [fst snd].
  rewrite save_embedding_int by (try exact Hid; exact Hfile).
  cbn [fst snd db].
  assert (Hone : filter (fun r => contact_id r =? id)
                   (insert_or_replace (saved_row id vector2 data2 now2)
                      (insert_or_replace (saved_row id vector1 data1 now1) (db self)))
                 = [saved_row id vector2 data2 now2])
    by apply (filter_insert_or_replace (saved_row id vector2 data2 now2)).
  repeat split; try reflexivity.
  - exact Hone.
  - apply frombuffer_tobytes.
  - apply loads_dumps.
  - intros d Hv Hd H.
    apply (get_all_embeddings_entry _ d (saved_row id vector2 data2 now2)
             vector2 data2 H Hone).
    + now apply frombuffer_tobytes.
    + now apply loads_dumps.
  - exact reachable_nodup.
Qed.

Lemma save_twice_keeps_one_entry_witness :
  let second :=
    save_embedding Sample.sqlite_lib
      (snd (save_embedding Sample.sqlite_lib Sample.store_with_stale (PyInt 1)
              [Sample.f_zero; Sample.f_one] Sample.bob 1700000002))
      (PyInt 1) [Sample.f_0_9; Sample.f_0_1] Sample.alice 1700000003 in
  file_backed Sample.store_with_stale
  /\ in_int64 1 = true
  /\ fst second = Ok tt
  /\ map contact_id (db (snd second)) = [1; 7]
  /\ filter (fun r => contact_id r =? 1) (db (snd second))
     = [ {| contact_id := 1;
            embedding := Np.tobytes [Sample.f_0_9; Sample.f_0_1];
            contact_data := Json.dumps Sample.alice;
            last_updated := 1700000003 |} ].
Proof.
  assert (Hf : file_backed Sample.store_with_stale) by reflexivity.
  pose proof (save_twice_keeps_one_entry Sample.sqlite_lib Sample.store_with_stale 1
                [Sample.f_zero; Sample.f_one] Sample.bob 1700000002
                [Sample.f_0_9; Sample.f_0_1] Sample.alice 1700000003 Hf eq_refl)
    as (_ & Hok & Hrow & _).
  split; [exact Hf|]. split; [reflexivity|]. split; [exact Hok|].
  split; [reflexivity|exact Hrow].
Defined.

(** C5 (counterexample).  The id 2^63 on a store kept in a new file: each
    of the two [save_embedding] calls raises [OverflowError], and the
    table has no row for the id afterwards. *)
Lemma save_twice_overflow_keeps_no_entry :
  let first :=
    save_embedding Sample.sqlite_lib Scenario.new_store (PyInt (2 ^ 63))
      [Sample.f_zero; Sample.f_one] Sample.bob 1700000002 in
  let second :=
    save_embedding Sample.sqlite_lib (snd first) (PyInt (2 ^ 63))
      [Sample.f_0_9; Sample.f_0_1] Sample.alice 1700000003 in
  fst first = Raise OverflowError
  /\ fst second = Raise OverflowError
  /\ filter (fun r => contact_id r =? 2 ^ 63) (db (snd second)) = [].
Proof. repeat split; reflexivity. Qed.

End StorageFacts.

(* ================================================================= *)
(** ** The retrieval engine: rebuilding *)

Section Update.
Import Storage RAG.

Lemma preserves_for_each_in {A} I (body : A -> method unit) l :
  (forall x, In x l -> preserves I (body x)) -> preserves I (for_each body l).
Proof.
  induction l as [|x l IH]; intros Hb; cbn [for_each].
  - apply preserves_ret.
  - apply preserves_bind; [apply Hb; now left|].
    intros _. apply IH. intros y Hy. apply Hb. now right.
Qed.

Lemma keeps_rows_insert rows0 ids rows r_new :
  In (contact_id r_new) ids ->
  keeps_rows rows0 ids rows ->
  keeps_rows rows0 ids (insert_or_replace r_new rows).
Proof.
  intros Hid Hk r Hr. destruct (Hk r Hr) as [Hsame [r' [Hr' Heq]]]. split.
  - intros Hout. apply in_insert_or_replace. right. split; [now apply Hsame|].
    intros E. apply Hout. now rewrite E.
  - destruct (Z.eq_dec (contact_id r) (contact_id r_new)) as [E|E].
    + exists r_new. split; [apply in_insert_or_replace; now left|now symmetry].
    + exists r'. split; [|assumption].
      apply in_insert_or_replace. right. split; [assumption|congruence].
Qed.

Lemma keeps_rows_insert_fresh rows0 ids rows r_new :
  existsb (fun r => contact_id r =? contact_id r_new) rows = false ->
  keeps_rows rows0 ids rows ->
  keeps_rows rows0 ids (insert_or_replace r_new rows).
Proof.
  intros Hfresh Hk r Hr. destruct (Hk r Hr) as [Hsame [r' [Hr' Heq]]].
  assert (Hno : forall x, In x rows -> contact_id x <> contact_id r_new).
  { intros x Hx E.
    assert (existsb (fun r => contact_id r =? contact_id r_new) rows = true);
      [|congruence].
    apply existsb_exists. exists x. split; [assumption|now apply Z.eqb_eq]. }
  split.
  - intros Hout. apply in_insert_or_replace. right.
    split; [now apply Hsame|]. apply Hno. now apply Hsame.
  - exists r'. split; [|assumption].
    apply in_insert_or_replace. right. split; [assumption|now apply Hno].
Qed.

Lemma in_fetched_rowids env id z :
  In id (fetched_ids env) -> rowid_of (sqlite env) id = Some z ->
  In z (fetched_rowids env).
Proof.
  intros Hin Hz. unfold fetched_rowids. apply in_flat_map.
  exists id. split; [assumption|]. rewrite Hz. now left.
Qed.

(** One pass of the loop writes at most one row: under the row id that
    stands for the id of the record, or, for a null id, under a row id
    that was not in use. *)
Lemma keeps_update_one rows0 env c :
  (forall id, contact_id_of c = Ok id -> In id (fetched_ids env)) ->
  preserves (keeps rows0 (fetched_rowids env)) (update_one env c).
Proof.
  intros Hc self H. rewrite update_one_run.
  destruct (contact_id_of c) as [id|e]; [|exact H].
  specialize (Hc id eq_refl). cbv zeta.
  destruct (contact_details env id) as [details|e]; [|exact H].
  destruct (call_create_contact_text details) as [text|e]; [|exact H].
  destruct (hash_key id) as [k|e]; [|exact H].
  unfold keeps in *. cbn [snd storage].
  destruct (save_embedding_cases (sqlite env) (storage self) id
              (encoder self text) details (current_timestamp env id))
    as [(e & ->)|(rowid & -> & _ & _ & [Hrow|[_ Hfresh]])]; cbn [snd db].
  - exact H.
  - apply keeps_rows_insert; [|exact H].
    cbn [saved_row contact_id]. now apply (in_fetched_rowids env id).
  - apply keeps_rows_insert_fresh; [|exact H]. exact Hfresh.
Qed.

Lemma keeps_update_embeddings rows0 env :
  preserves (keeps rows0 (fetched_rowids env)) (update_embeddings env).
Proof.
  intros self H. unfold update_embeddings, bindM, get_contacts, request.
  destruct (contacts env) as [cs|e] eqn:Ec; [|exact H].
  apply preserves_for_each_in; [|exact H].
  intros c Hin. apply keeps_update_one. intros id Hid.
  unfold fetched_ids. rewrite Ec. apply in_flat_map.
  exists c. split; [assumption|]. rewrite Hid. now left.
Qed.

(** C6.  [update_embeddings] deletes nothing: a row whose id is not the
    row id of a fetched record is in the table afterwards exactly as it
    was, and every id that had a row still has one - whether the rebuild
    runs to its end or raises on the way, and whatever JSON value a record
    has as its id.  The row id of a record is its id when that is an
    integer, 1 or 0 when it is [true] or [false], and the integer SQLite
    converts it to when it is a text; a record whose id is null gets a row
    of its own under a row id that was not in use. *)
Theorem update_embeddings_keeps_other_entries :
  forall env self r,
    In r (db (storage self)) ->
    (~ In (contact_id r) (fetched_rowids env) ->
     In r (db (storage (snd (update_embeddings env self)))))
    /\ exists r',
         In r' (db (storage (snd (update_embeddings env self))))
         /\ contact_id r' = contact_id r.
Proof.
  intros env self r Hr.
  apply (keeps_update_embeddings (db (storage self)) env self); [|exact Hr].
  intros x Hx. split; [now intros _|now exists x].
Qed.

Lemma update_embeddings_keeps_other_entries_witness :
  In Sample.stale_row (db (storage Sample.engine_with_stale))
  /\ fetched_rowids Sample.one_contact = [1]
  /\ fst (update_embeddings Sample.one_contact Sample.engine_with_stale) = Ok tt
  /\ In Sample.stale_row
       (db (storage (snd (update_embeddings Sample.one_contact
                            Sample.engine_with_stale)))).
Proof.
  assert (Hin : In Sample.stale_row (db (storage Sample.engine_with_stale)))
    by (right; left; reflexivity).
  split; [exact Hin|]. split; [reflexivity|]. split; [vm_compute; reflexivity|].
  apply (proj1 (update_embeddings_keeps_other_entries Sample.one_contact
                  Sample.engine_with_stale Sample.stale_row Hin)).
  intros [H|[]]. discriminate H.
Defined.

(** A record whose id is the text "7": the detail request is made for
    that text, and the row 7 of the table is overwritten. *)
Example update_embeddings_text_id :
  fetched_ids Scenario.text_id = [PyStr "7"]
  /\ fetched_rowids Scenario.text_id = [7]
  /\ In Sample.stale_row (db (storage Sample.engine_with_stale))
  /\ fst (update_embeddings Scenario.text_id Sample.engine_with_stale) = Ok tt
  /\ api_calls (snd (update_embeddings Scenario.text_id Sample.engine_with_stale))
     = [GetContacts; GetContactDetails (PyStr "7")]
  /\ filter (fun r => contact_id r =? 7)
       (db (storage (snd (update_embeddings Scenario.text_id
                            Sample.engine_with_stale))))
     = [ saved_row 7 [Sample.f_zero; Sample.f_one] Sample.bob 1700000007 ].
Proof.
  split; [reflexivity|]. split; [reflexivity|].
  split; [right; left; reflexivity|].
  repeat split; vm_compute; reflexivity.
Qed.

End Update.

(* ================================================================= *)
(** ** The text projection *)

Section TextProjection.

Lemma name_part_get_default contact key :
  dict_get String.eqb contact key <> Some PyNone ->
  str (get_default contact key (PyStr "")) = name_part contact key.
Proof.
  unfold get_default, name_part.
  destruct (dict_get String.eqb contact key) as [[]|]; try reflexivity.
  now intros [].
Qed.

(** Unless a name part is null, the code computes the projection the
    specification describes. *)
Lemma create_contact_text_matches_spec contact :
  names_not_null contact ->
  create_contact_text contact = projection_spec contact.
Proof.
  intros [Hf Hl]. unfold create_contact_text, projection_spec. f_equal.
  unfold contact_parts, projection_lines, full_name, attribute_line.
  rewrite (name_part_get_default _ _ Hf), (name_part_get_default _ _ Hl).
  cbn [truthy str].
  destruct (String.eqb
              (strip (name_part contact "first_name" ++ " "
                      ++ name_part contact "last_name")) ""),
    (truthy (get contact "job")), (truthy (get contact "company")),
    (truthy (get contact "email")), (truthy (get contact "phone")),
    (truthy (get contact "notes")); reflexivity.
Qed.

(** A record with company "Acme" yields the line "Company: Acme". *)
Lemma company_line_present contact :
  get contact "company" = PyStr "Acme" ->
  In "Company: Acme" (contact_parts contact).
Proof.
  intros H. unfold contact_parts. rewrite H. cbn [truthy str String.eqb negb].
  unfold list_append.
  destruct (negb _), (truthy (get contact "job")), (truthy (get contact "email")),
    (truthy (get contact "phone")), (truthy (get contact "notes"));
    cbn [app In]; tauto.
Qed.

(** A record that lacks a company yields no line with the company label. *)
Lemma company_line_absent contact :
  dict_get String.eqb contact "company" = None ->
  forall p, In p (contact_parts contact) -> String.prefix "Company: " p = false.
Proof.
  intros H p. unfold contact_parts, get. rewrite H. cbn [truthy].
  unfold list_append.
  destruct (negb _),
    (truthy match dict_get String.eqb contact "job" with Some v => v | None => PyNone end),
    (truthy match dict_get String.eqb contact "email" with Some v => v | None => PyNone end),
    (truthy match dict_get String.eqb contact "phone" with Some v => v | None => PyNone end),
    (truthy match dict_get String.eqb contact "notes" with Some v => v | None => PyNone end);
    cbn [app In]; intuition (subst; reflexivity).
Qed.

(** The projections of the two sample contacts. *)
Example projection_of_alice :
  RAG.call_create_contact_text Sample.alice
  = Ok ("Name: Alice Smith" ++ nl ++ "Job: Engineer" ++ nl ++ "Company: Acme")%string.
Proof. reflexivity. Qed.

Example projection_of_bob :
  RAG.call_create_contact_text Sample.bob
  = Ok ("Name: Bob Lee" ++ nl ++ "Company: Acme")%string.
Proof. reflexivity. Qed.

(** C7 (evaluated on the code).  A name part that is present with the
    JSON value null is not left out: the f-string writes it as the text
    "None".  A record whose two name parts are null gets the line
    "Name: None None", and one without a last name the line
    "Name: John None", where the specification has no name line, and the
    line "Name: John".  A null job, tested with [if], is left out. *)
Theorem create_contact_text_null_name :
  create_contact_text [("first_name", PyNone); ("last_name", PyNone)]
  = "Name: None None"
  /\ projection_spec [("first_name", PyNone); ("last_name", PyNone)] = ""
  /\ create_contact_text
       [("first_name", PyStr "John"); ("last_name", PyNone);
        ("job", PyNone); ("company", PyStr "Acme")]
     = ("Name: John None" ++ nl ++ "Company: Acme")%string
  /\ projection_spec
       [("first_name", PyStr "John"); ("last_name", PyNone);
        ("job", PyNone); ("company", PyStr "Acme")]
     = ("Name: John" ++ nl ++ "Company: Acme")%string.
Proof. vm_compute. repeat split; reflexivity. Qed.

End TextProjection.

(* ================================================================= *)
(** ** The table: order, size and time stamps *)

Section StorageOrder.
Import Storage.

Lemma ascending_filter p rows : ascending rows -> ascending (filter p rows).
Proof.
  unfold ascending. induction 1 as [|r rows Hs IH Hr]; cbn [filter]; [constructor|].
  destruct (p r); [|exact IH].
  constructor; [exact IH|].
  apply Forall_forall. intros x Hx. apply filter_In in Hx.
  now apply (proj1 (Forall_forall _ _) Hr).
Qed.

Lemma ascending_insert_by_rowid r rows :
  ascending rows ->
  (forall x, In x rows -> contact_id x <> contact_id r) ->
  ascending (insert_by_rowid r rows).
Proof.
  unfold ascending. induction 1 as [|r' rows Hs IH Hr']; intros Hne;
    cbn [insert_by_rowid].
  - repeat constructor.
  - destruct (contact_id r <? contact_id r') eqn:E.
    + apply Z.ltb_lt in E. constructor; [now constructor|].
      constructor; [exact E|].
      apply Forall_forall. intros x Hx.
      pose proof (proj1 (Forall_forall _ _) Hr' x Hx) as Hlt.
      cbv beta in Hlt. lia.
    + apply Z.ltb_ge in E.
      assert (contact_id r' <> contact_id r) by (apply Hne; now left).
      constructor; [apply IH; intros; apply Hne; now right|].
      apply Forall_forall. intros x Hx. apply in_insert_by_rowid in Hx.
      destruct Hx as [->|Hx]; [lia|].
      exact (proj1 (Forall_forall _ _) Hr' x Hx).
Qed.

Lemma ascending_insert_or_replace r rows :
  ascending rows -> ascending (insert_or_replace r rows).
Proof.
  intros H. unfold insert_or_replace.
  apply ascending_insert_by_rowid; [now apply ascending_filter|].
  intros x Hx. apply filter_In in Hx. destruct Hx as [_ Hx].
  now apply negb_true_iff, Z.eqb_neq in Hx.
Qed.

Lemma ascending_nodup rows : ascending rows -> NoDup (map contact_id rows).
Proof.
  unfold ascending. induction 1 as [|r rows Hs IH Hr]; cbn [map]; constructor;
    [|exact IH].
  intros Hin. apply in_map_iff in Hin. destruct Hin as [x [Hx Hin]].
  pose proof (proj1 (Forall_forall _ _) Hr x Hin) as Hlt.
  cbv beta in Hlt. lia.
Qed.

(** Two tables in ascending order with the same rows are the same table. *)
Lemma ascending_ext rows1 rows2 :
  ascending rows1 -> ascending rows2 ->
  (forall x, In x rows1 <-> In x rows2) ->
  rows1 = rows2.
Proof.
  unfold ascending. intros H1. revert rows2.
  induction H1 as [|r1 rows1 Hs1 IH Hr1]; intros rows2 H2 Hiff.
  - destruct rows2 as [|r2 rows2]; [reflexivity|].
    exfalso. apply (Hiff r2). now left.
  - destruct H2 as [|r2 rows2 Hs2 Hr2].
    + exfalso. apply (Hiff r1). now left.
    + pose proof (proj1 (Forall_forall _ _) Hr1) as L1.
      pose proof (proj1 (Forall_forall _ _) Hr2) as L2.
      assert (E : r1 = r2).
      { destruct (proj1 (Hiff r1) (or_introl eq_refl)) as [E|Hin1]; [now symmetry|].
        destruct (proj2 (Hiff r2) (or_introl eq_refl)) as [E|Hin2]; [exact E|].
        specialize (L1 _ Hin2). specialize (L2 _ Hin1). cbv beta in L1, L2. lia. }
      subst r2. f_equal. apply IH; [exact Hs2|].
      intros x. split; intros Hx.
      * destruct (proj1 (Hiff x) (or_intror Hx)) as [E|Hin]; [|exact Hin].
        subst x. specialize (L1 _ Hx). cbv beta in L1. lia.
      * destruct (proj2 (Hiff x) (or_intror Hx)) as [E|Hin]; [|exact Hin].
        subst x. specialize (L2 _ Hx). cbv beta in L2. lia.
Qed.

Lemma reachable_ascending s : reachable s -> ascending (db s).
Proof.
  induction 1 as [path|path self Hs IH|lib self id vector data now Hs IH].
  - constructor.
  - exact IH.
  - destruct (save_embedding_cases lib self id vector data now)
      as [(e & ->)|(rowid & -> & _)]; cbn [snd db]; [exact IH|].
    now apply ascending_insert_or_replace.
Qed.

Lemma decode_rows_keys rows acc d :
  decode_rows rows acc = Ok d ->
  NoDup (dict_keys acc ++ map contact_id rows) ->
  dict_keys d = (dict_keys acc ++ map contact_id rows)%list.
Proof.
  revert acc. induction rows as [|r rows IH]; intros acc H Hnd; cbn [decode_rows] in H.
  - injection H as <-. cbn [map]. now rewrite List.app_nil_r.
  - destruct (Np.frombuffer (embedding r)) as [v|]; [|discriminate]. cbn [bind] in H.
    destruct (Json.loads (contact_data r)) as [c|]; [|discriminate]. cbn [bind] in H.
    assert (Hfresh : ~ In (contact_id r) (dict_keys acc)).
    { intros Hin. apply NoDup_remove_2 in Hnd. apply Hnd.
      apply in_or_app. now left. }
    assert (Hk : dict_keys (dict_set Z.eqb acc (contact_id r) (v, c))
                 = (dict_keys acc ++ [contact_id r])%list)
      by now apply dict_keys_set_notin.
    cbn [map] in *. rewrite (IH _ H); rewrite Hk, <- List.app_assoc; [reflexivity|].
    exact Hnd.
Qed.

End StorageOrder.

Section StorageBehaviour.
Import Storage.

Lemma filter_insert_by_rowid_out p r rows :
  p r = false -> filter p (insert_by_rowid r rows) = filter p rows.
Proof.
  intros Hp. induction rows as [|r' rows IH]; cbn [insert_by_rowid filter].
  - now rewrite Hp.
  - destruct (contact_id r <? contact_id r'); cbn [filter].
    + now rewrite Hp.
    + now rewrite IH.
Qed.

Lemma filter_idem {A} (p : A -> bool) l : filter p (filter p l) = filter p l.
Proof.
  induction l as [|x l IH]; cbn [filter]; [reflexivity|].
  destruct (p x) eqn:E; cbn [filter]; [rewrite E; now f_equal|exact IH].
Qed.

(** X1.  The last write wins, whole table: after two [save_embedding]
    calls with the same integer id the store is the one the second call
    alone would have left; nothing of the first call remains.  (When the
    calls raise, the store is as it was in both cases.) *)
Theorem save_embedding_last_write_wins :
  forall lib self id vector1 data1 now1 vector2 data2 now2,
    snd (save_embedding lib
           (snd (save_embedding lib self (PyInt id) vector1 data1 now1))
           (PyInt id) vector2 data2 now2)
    = snd (save_embedding lib self (PyInt id) vector2 data2 now2).
Proof.
  intros. rewrite !save_embedding_int_raises.
  destruct (transient (db_path self)) eqn:Et; cbn [snd db_path];
    [now rewrite Et|].
  destruct (in_int64 id); cbn [snd db_path db]; rewrite Et; [|reflexivity].
  cbn [snd]. f_equal. unfold insert_or_replace. cbn [saved_row contact_id]. f_equal.
  rewrite filter_insert_by_rowid_out by (cbn [contact_id]; now rewrite Z.eqb_refl).
  apply filter_idem.
Qed.

(** X2.  On a table in row-id order, [save_embedding] calls for two
    different integer ids commute: either order leaves the same store. *)
Theorem save_embedding_distinct_ids_commute :
  forall lib self id1 vector1 data1 now1 id2 vector2 data2 now2,
    ascending (db self) ->
    id1 <> id2 ->
    snd (save_embedding lib
           (snd (save_embedding lib self (PyInt id1) vector1 data1 now1))
           (PyInt id2) vector2 data2 now2)
    = snd (save_embedding lib
             (snd (save_embedding lib self (PyInt id2) vector2 data2 now2))
             (PyInt id1) vector1 data1 now1).
Proof.
  intros lib self id1 vector1 data1 now1 id2 vector2 data2 now2 Hasc Hne.
  rewrite !save_embedding_int_raises.
  destruct (transient (db_path self)) eqn:Et; cbn [snd db_path];
    [now rewrite Et|].
  destruct (in_int64 id1), (in_int64 id2); cbn [snd db_path db]; rewrite ?Et;
    cbn [snd db_path db]; rewrite ?Et; try reflexivity.
  cbn [snd]. f_equal.
  apply ascending_ext.
  - now do 2 apply ascending_insert_or_replace.
  - now do 2 apply ascending_insert_or_replace.
  - intros x. rewrite !in_insert_or_replace. cbn [saved_row contact_id].
    split; intros [->|[[->|[Hx H1]] H2]]; cbn [saved_row contact_id] in *;
      try tauto;
      right; (split; [now left|congruence]).
Qed.

Lemma save_embedding_distinct_ids_commute_witness :
  ascending (db (init "monica_rag.db" None))
  /\ 1 <> 2
  /\ snd (save_embedding Sample.sqlite_lib
            (snd (save_embedding Sample.sqlite_lib (init "monica_rag.db" None)
                    (PyInt 1) [Sample.f_one; Sample.f_zero] Sample.alice 1700000001))
            (PyInt 2) [Sample.f_zero; Sample.f_one] Sample.bob 1700000002)
     = snd (save_embedding Sample.sqlite_lib
              (snd (save_embedding Sample.sqlite_lib (init "monica_rag.db" None)
                      (PyInt 2) [Sample.f_zero; Sample.f_one] Sample.bob 1700000002))
              (PyInt 1) [Sample.f_one; Sample.f_zero] Sample.alice 1700000001).
Proof.
  assert (Ha : ascending (db (init "monica_rag.db" None))) by constructor.
  assert (Hne : 1 <> 2) by lia.
  split; [exact Ha|]. split; [exact Hne|].
  exact (save_embedding_distinct_ids_commute Sample.sqlite_lib
           (init "monica_rag.db" None)
           1 [Sample.f_one; Sample.f_zero] Sample.alice 1700000001
           2 [Sample.f_zero; Sample.f_one] Sample.bob 1700000002 Ha Hne).
Defined.

Lemma length_filter_split {A} (p : A -> bool) l :
  (List.length (filter p l) + List.length (filter (fun x => negb (p x)) l)
   = List.length l)%nat.
Proof.
  induction l as [|x l IH]; cbn [filter]; [reflexivity|].
  destruct (p x); cbn [negb List.length]; lia.
Qed.

Lemma length_insert_by_rowid r rows :
  List.length (insert_by_rowid r rows) = S (List.length rows).
Proof. symmetry. apply (Permutation_length (insert_by_rowid_perm r rows)). Qed.

Lemma filter_id_absent id rows :
  existsb (fun r => contact_id r =? id) rows = false ->
  filter (fun r => contact_id r =? id) rows = [].
Proof.
  induction rows as [|r rows IH]; cbn [existsb filter]; [reflexivity|].
  intros H. apply orb_false_iff in H. destruct H as [-> H]. now apply IH.
Qed.

Lemma filter_id_present id rows :
  NoDup (map contact_id rows) ->
  existsb (fun r => contact_id r =? id) rows = true ->
  List.length (filter (fun r => contact_id r =? id) rows) = 1%nat.
Proof.
  induction rows as [|r rows IH]; cbn [existsb filter map]; [discriminate|].
  intros Hnd H. inversion Hnd as [|? ? Hr Hrows]; subst.
  destruct (contact_id r =? id) eqn:E.
  - apply Z.eqb_eq in E. cbn [List.length]. f_equal.
    rewrite filter_id_absent; [reflexivity|].
    destruct (existsb _ rows) eqn:Ex; [|reflexivity].
    apply existsb_exists in Ex. destruct Ex as [x [Hx Hid]].
    apply Z.eqb_eq in Hid. exfalso. apply Hr. rewrite E, <- Hid.
    now apply in_map.
  - now apply IH.
Qed.

(** X3.  [SELECT COUNT] after [save_embedding] with an integer id, on a
    table in row-id order.  The call returns exactly when the store is
    kept in a database file and the id has 64 bits; the number of rows
    then grows by one when the id is new and stays the same when the id is
    already stored.  Otherwise the call raises - [OperationalError] when
    the path is the empty one or [":memory:"], [OverflowError] for the
    id - and the number of rows is as before. *)
Theorem select_count_after_save :
  forall lib self id vector data now,
    ascending (db self) ->
    let saved := save_embedding lib self (PyInt id) vector data now in
    fst saved
    = (if transient (db_path self) then Raise OperationalError
       else if in_int64 id then Ok tt else Raise OverflowError)
    /\ select_count (db (snd saved))
       = match fst saved with
         | Ok _ =>
             if existsb (fun r => contact_id r =? id) (db self)
             then select_count (db self)
             else select_count (db self) + 1
         | Raise _ => select_count (db self)
         end.
Proof.
  intros lib self id vector data now Hasc saved. subst saved.
  rewrite save_embedding_int_raises.
  destruct (transient (db_path self)); [now split|].
  destruct (in_int64 id); [|now split].
  split; [reflexivity|]. cbn [fst snd db].
  unfold select_count, insert_or_replace. cbn [saved_row contact_id].
  rewrite length_insert_by_rowid.
  pose proof (length_filter_split (fun r => contact_id r =? id) (db self)) as Hs.
  destruct (existsb _ (db self)) eqn:Ex.
  - rewrite (filter_id_present id (db self) (ascending_nodup _ Hasc) Ex) in Hs. lia.
  - rewrite (filter_id_absent id (db self) Ex) in Hs. cbn [List.length] in Hs. lia.
Qed.

Lemma select_count_after_save_witness :
  ascending (db Sample.store_with_stale)
  /\ select_count
       (db (snd (save_embedding Sample.sqlite_lib Sample.store_with_stale (PyInt 7)
                   [Sample.f_one; Sample.f_zero] Sample.bob 1700000002))) = 2
  /\ select_count
       (db (snd (save_embedding Sample.sqlite_lib Sample.store_with_stale (PyInt 2)
                   [Sample.f_one; Sample.f_zero] Sample.bob 1700000002))) = 3
  /\ fst (save_embedding Sample.sqlite_lib Sample.store_with_stale (PyInt (2 ^ 63))
            [Sample.f_one; Sample.f_zero] Sample.bob 1700000002)
     = Raise OverflowError
  /\ select_count
       (db (snd (save_embedding Sample.sqlite_lib Sample.store_with_stale
                   (PyInt (2 ^ 63))
                   [Sample.f_one; Sample.f_zero] Sample.bob 1700000002))) = 2.
Proof.
  assert (Ha : ascending (db Sample.store_with_stale)).
  { unfold ascending. repeat constructor. }
  split; [exact Ha|]. split; [|split; [|split]].
  - exact (proj2 (select_count_after_save Sample.sqlite_lib Sample.store_with_stale 7
                    [Sample.f_one; Sample.f_zero] Sample.bob 1700000002 Ha)).
  - exact (proj2 (select_count_after_save Sample.sqlite_lib Sample.store_with_stale 2
                    [Sample.f_one; Sample.f_zero] Sample.bob 1700000002 Ha)).
  - exact (proj1 (select_count_after_save Sample.sqlite_lib Sample.store_with_stale
                    (2 ^ 63)
                    [Sample.f_one; Sample.f_zero] Sample.bob 1700000002 Ha)).
  - exact (proj2 (select_count_after_save Sample.sqlite_lib Sample.store_with_stale
                    (2 ^ 63)
                    [Sample.f_one; Sample.f_zero] Sample.bob 1700000002 Ha)).
Defined.

End StorageBehaviour.

Section StorageReads.
Import Storage.

Lemma fold_left_max_spec l a :
  let m := fold_left Z.max l a in
  (m = a \/ In m l) /\ a <= m /\ Forall (fun x => x <= m) l.
Proof.
  revert a. induction l as [|x l IH]; intros a; cbn [fold_left].
  - cbn zeta. split; [now left|]. split; [lia|constructor].
  - specialize (IH (Z.max a x)). cbn zeta in *.
    destruct IH as (Hin & Hle & Hall). split; [|split].
    + destruct Hin as [E|Hin]; [|right; now right].
      destruct (Z.max_spec a x) as [[_ Em]|[_ Em]]; rewrite Em in *.
      * right. left. now symmetry.
      * now left.
    + lia.
    + constructor; [lia|exact Hall].
Qed.

(** The latest time stamp of a table that has a row. *)
Lemma latest_of_rows r rows :
  let t := fold_left Z.max (map last_updated rows) (last_updated r) in
  In t (map last_updated (r :: rows))
  /\ Forall (fun x => last_updated x <= t) (r :: rows).
Proof.
  pose proof (fold_left_max_spec (map last_updated rows) (last_updated r)) as H.
  cbn zeta in *. destruct H as (Hin & Hle & Hall). split.
  - cbn [map]. destruct Hin as [->|Hin]; [now left|now right].
  - constructor; [exact Hle|].
    apply Forall_forall. intros x Hx.
    apply (proj1 (Forall_forall _ _) Hall). now apply in_map.
Qed.

(** X4.  [get_last_updated] on a store whose path is the empty one or
    [":memory:"] raises [OperationalError]: the connection it opens has no
    table.  On a store kept in a database file it returns: [None] on an
    empty table, otherwise the time stamp of one of the rows, and no row
    has a later one. *)
Theorem get_last_updated_is_latest :
  forall self,
    (transient (db_path self) = true
     /\ get_last_updated self = Raise OperationalError)
    \/ (file_backed self /\ db self = [] /\ get_last_updated self = Ok None)
    \/ (file_backed self
        /\ exists t,
             get_last_updated self = Ok (Some t)
             /\ In t (map last_updated (db self))
             /\ Forall (fun r => last_updated r <= t) (db self)).
Proof.
  intros self. unfold get_last_updated, file_backed.
  cbn [with_as sqlite3_connect bind].
  destruct (transient (db_path self)); cbn [prepare bind]; [now left|right].
  destruct (db self) as [|r rows]; [now left|right].
  split; [reflexivity|].
  destruct (latest_of_rows r rows) as [Hin Hmax].
  eexists. split; [reflexivity|]. split; [exact Hin|exact Hmax].
Qed.

(** X5.  After a [save_embedding] that returned, at a time that is not
    before any stored time stamp, [get_last_updated] returns that time,
    whatever the id was.  With an integer id of 64 bits on a store kept in
    a database file the call does return. *)
Theorem get_last_updated_after_save :
  forall lib self id vector data now,
    Forall (fun r => last_updated r <= now) (db self) ->
    let saved := save_embedding lib self id vector data now in
    (fst saved = Ok tt -> get_last_updated (snd saved) = Ok (Some now))
    /\ (forall z,
          id = PyInt z -> file_backed self -> in_int64 z = true ->
          fst saved = Ok tt).
Proof.
  intros lib self id vector data now Hold saved. subst saved. split.
  - destruct (save_embedding_cases lib self id vector data now)
      as [(e & ->)|(rowid & -> & Hfile & _)]; cbn [fst snd]; [discriminate|].
    intros _. unfold get_last_updated, file_backed in *.
    cbn [with_as sqlite3_connect bind db db_path]. rewrite Hfile.
    cbn [prepare bind].
    set (r0 := saved_row rowid vector data now).
    assert (Hnew : In r0 (insert_or_replace r0 (db self)))
      by (apply in_insert_or_replace; now left).
    destruct (insert_or_replace r0 (db self)) as [|r rows] eqn:E; [contradiction|].
    destruct (latest_of_rows r rows) as [Hin Hmax]. cbv zeta in Hin, Hmax.
    do 2 f_equal. apply Z.le_antisymm.
    + apply in_map_iff in Hin. destruct Hin as (x & <- & Hx).
      rewrite <- E in Hx. apply in_insert_or_replace in Hx.
      destruct Hx as [->|[Hx _]]; [cbn; lia|].
      exact (proj1 (Forall_forall _ _) Hold x Hx).
    + exact (proj1 (Forall_forall _ _) Hmax r0 Hnew).
  - intros z -> Hfile Hz. now rewrite save_embedding_int.
Qed.

Lemma get_last_updated_after_save_witness :
  Forall (fun r => last_updated r <= 1700000002) (db Sample.store_with_stale)
  /\ fst (save_embedding Sample.sqlite_lib Sample.store_with_stale (PyInt 7)
            [Sample.f_one; Sample.f_zero] Sample.bob 1700000002) = Ok tt
  /\ get_last_updated
       (snd (save_embedding Sample.sqlite_lib Sample.store_with_stale (PyInt 7)
               [Sample.f_one; Sample.f_zero] Sample.bob 1700000002))
     = Ok (Some 1700000002).
Proof.
  assert (H : Forall (fun r => last_updated r <= 1700000002)
                (db Sample.store_with_stale)).
  { repeat constructor; cbn; lia. }
  split; [exact H|]. split; [reflexivity|].
  exact (proj1 (get_last_updated_after_save Sample.sqlite_lib
                  Sample.store_with_stale (PyInt 7)
                  [Sample.f_one; Sample.f_zero] Sample.bob 1700000002 H) eq_refl).
Defined.

Lemma frombuffer_ind (P : list byte -> Prop) :
  P [] ->
  (forall b0, P [b0]) ->
  (forall b0 b1, P [b0; b1]) ->
  (forall b0 b1 b2, P [b0; b1; b2]) ->
  (forall b0 b1 b2 b3 rest, P rest -> P (b0 :: b1 :: b2 :: b3 :: rest)) ->
  forall buf, P buf.
Proof.
  intros H0 H1 H2 H3 H4.
  fix IH 1. intros [|b0 [|b1 [|b2 [|b3 rest]]]].
  - exact H0.
  - apply H1.
  - apply H2.
  - apply H3.
  - apply H4, IH.
Qed.

(** X6.  [np.frombuffer] on a blob: an array of a quarter of the blob's
    length when that length is a multiple of four, [ValueError]
    otherwise. *)
Theorem frombuffer_length :
  forall buf,
    match Np.frombuffer buf with
    | Ok a =>
        Z.of_nat (List.length buf) = 4 * Z.of_nat (List.length a)
    | Raise e =>
        e = ValueError /\ Z.of_nat (List.length buf) mod 4 <> 0
    end.
Proof.
  induction buf as [|b0|b0 b1|b0 b1 b2|b0 b1 b2 b3 rest IH] using frombuffer_ind;
    try (cbn; split; [reflexivity|discriminate]).
  - reflexivity.
  - cbn [Np.frombuffer].
    destruct (Np.frombuffer rest) as [a|e]; cbn [bind List.length].
    + lia.
    + destruct IH as [-> IH]. split; [reflexivity|].
      replace (Z.of_nat (S (S (S (S (List.length rest))))))
        with (Z.of_nat (List.length rest) + 1 * 4) by lia.
      now rewrite Z.mod_add by lia.
Qed.

End StorageReads.

Section StorageListing.
Import Storage.

Lemma loads_raises s e : Json.loads s = Raise e -> e = JSONDecodeError.
Proof.
  unfold Json.loads.
  destruct (Json.scan_once _ _) as [[v rest]|]; [|congruence].
  destruct (Json.skip_ws rest); congruence.
Qed.

Lemma frombuffer_raises buf e : Np.frombuffer buf = Raise e -> e = ValueError.
Proof.
  induction buf as [|b0|b0 b1|b0 b1 b2|b0 b1 b2 b3 rest IH] using frombuffer_ind;
    cbn [Np.frombuffer]; try congruence.
  destruct (Np.frombuffer rest) as [a|e']; cbn [bind]; [discriminate|].
  intros [= <-]. now apply IH.
Qed.

Lemma decode_rows_raises rows acc e :
  decode_rows rows acc = Raise e -> e = ValueError \/ e = JSONDecodeError.
Proof.
  revert acc. induction rows as [|r rows IH]; intros acc H; cbn [decode_rows] in H;
    [discriminate|].
  destruct (Np.frombuffer (embedding r)) as [v|e1] eqn:Ev; cbn [bind] in H.
  - destruct (Json.loads (contact_data r)) as [c|e2] eqn:Ec; cbn [bind] in H.
    + exact (IH _ H).
    + injection H as <-. right. exact (loads_raises _ _ Ec).
  - injection H as <-. left. exact (frombuffer_raises _ _ Ev).
Qed.

(** X7.  What [get_all_embeddings] returns on a table in row-id order:
    one entry per row, in the order of the ids, holding the decoded
    vector and record of that row. *)
Theorem get_all_embeddings_one_entry_per_row :
  forall self d,
    ascending (db self) ->
    get_all_embeddings self = Ok d ->
    dict_keys d = map contact_id (db self)
    /\ Forall (fun r => exists vector data,
                 Np.frombuffer (embedding r) = Ok vector
                 /\ Json.loads (contact_data r) = Ok data
                 /\ dict_get Z.eqb d (contact_id r) = Some (vector, data))
         (db self).
Proof.
  intros self d Hasc H. apply get_all_embeddings_rows in H.
  destruct H as [_ H].
  pose proof (ascending_nodup _ Hasc) as Hnd. split.
  - now apply (decode_rows_keys _ [] d H).
  - assert (Hall : Forall row_decodes (db self))
      by (apply (decode_rows_all _ []); eauto).
    apply Forall_forall. intros r Hr.
    destruct (proj1 (Forall_forall _ _) Hall r Hr) as (v & c & Ev & Ec).
    exists v, c. repeat split; try assumption.
    apply (decode_rows_get _ _ _ r v c H Hr); try assumption.
    intros r' Hr' Hid.
    clear - Hasc Hr Hr' Hid. unfold ascending in Hasc.
    induction Hasc as [|x rows Hs IH Hx]; [contradiction|].
    pose proof (proj1 (Forall_forall _ _) Hx) as L. cbv beta in L.
    destruct Hr as [->|Hr], Hr' as [->|Hr']; auto.
    + specialize (L _ Hr'). lia.
    + specialize (L _ Hr). lia.
Qed.

Lemma get_all_embeddings_one_entry_per_row_witness :
  ascending (db Sample.store_with_stale)
  /\ exists d,
       get_all_embeddings Sample.store_with_stale = Ok d
       /\ dict_keys d = [1; 7]
       /\ dict_get Z.eqb d 7
          = Some ([Sample.f_zero; Sample.f_one], PyDict [("id", PyInt 7)]).
Proof.
  assert (Ha : ascending (db Sample.store_with_stale)).
  { unfold ascending. repeat constructor. }
  split; [exact Ha|].
  eexists. split; [vm_compute; reflexivity|].
  split; [|reflexivity].
  exact (proj1 (get_all_embeddings_one_entry_per_row
                  Sample.store_with_stale _ Ha eq_refl)).
Defined.

Lemma decode_rows_stops before r after acc :
  Forall row_decodes before ->
  Np.frombuffer (embedding r) = Raise ValueError ->
  decode_rows (before ++ r :: after)%list acc = Raise ValueError.
Proof.
  intros Hb Hr. revert acc.
  induction Hb as [|x before (v & c & Ev & Ec) Hb IH]; intros acc;
    cbn [app decode_rows].
  - now rewrite Hr.
  - rewrite Ev, Ec. cbn [bind]. apply IH.
Qed.

(** X8.  One row whose blob is no array of [float32] makes the whole read
    fail: on a store kept in a database file [get_all_embeddings] raises
    and returns none of the other rows.  The exception is [ValueError] or
    [JSONDecodeError], and it is the [ValueError] of that row when the
    rows before it can be decoded. *)
Theorem get_all_embeddings_corrupt_row :
  forall self before r after,
    file_backed self ->
    db self = (before ++ r :: after)%list ->
    Np.frombuffer (embedding r) = Raise ValueError ->
    (exists e, get_all_embeddings self = Raise e
               /\ (e = ValueError \/ e = JSONDecodeError))
    /\ (Forall row_decodes before ->
        get_all_embeddings self = Raise ValueError).
Proof.
  intros self before r after Hfile Hdb Hbad.
  rewrite get_all_embeddings_file_backed by exact Hfile. split.
  - destruct (decode_rows (db self) []) as [d|e] eqn:E.
    + exfalso.
      assert (Hall : Forall row_decodes (db self))
        by (apply (decode_rows_all _ []); eauto).
      assert (Hin : In r (db self))
        by (rewrite Hdb; apply in_or_app; right; now left).
      destruct (proj1 (Forall_forall _ _) Hall r Hin) as (v & c & Hv & _).
      congruence.
    + exists e. split; [reflexivity|]. exact (decode_rows_raises _ _ _ E).
  - intros Hb. rewrite Hdb. now apply decode_rows_stops.
Qed.

Lemma get_all_embeddings_corrupt_row_witness :
  file_backed Scenario.store_with_torn_row
  /\ db Scenario.store_with_torn_row = [Sample.alice_row; Scenario.torn_row]
  /\ Np.frombuffer (embedding Scenario.torn_row) = Raise ValueError
  /\ get_all_embeddings Scenario.store_with_torn_row = Raise ValueError.
Proof.
  assert (Hf : file_backed Scenario.store_with_torn_row) by reflexivity.
  assert (Hdb : db Scenario.store_with_torn_row
                = ([Sample.alice_row] ++ Scenario.torn_row :: [])%list)
    by reflexivity.
  assert (Hbad : Np.frombuffer (embedding Scenario.torn_row) = Raise ValueError)
    by reflexivity.
  split; [exact Hf|]. split; [reflexivity|]. split; [exact Hbad|].
  apply (proj2 (get_all_embeddings_corrupt_row Scenario.store_with_torn_row
                  [Sample.alice_row] Scenario.torn_row [] Hf Hdb Hbad)).
  repeat constructor. eexists _, _. split; vm_compute; reflexivity.
Defined.

End StorageListing.

(* ================================================================= *)
(** ** Loading the mirror from the store *)

Section Loading.
Import Storage RAG.

Lemma decode_rows_nodup rows acc d :
  NoDup (dict_keys acc) -> decode_rows rows acc = Ok d -> NoDup (dict_keys d).
Proof.
  revert acc. induction rows as [|r rows IH]; intros acc Hnd H; cbn [decode_rows] in H.
  - now injection H as <-.
  - destruct (Np.frombuffer (embedding r)) as [v|]; [|discriminate]. cbn [bind] in H.
    destruct (Json.loads (Storage.contact_data r)) as [c|]; [|discriminate].
    cbn [bind] in H. apply (IH _ (dict_set_nodup _ _ _ Hnd) H).
Qed.

Lemma for_each_load_one items self :
  NoDup (dict_keys items) ->
  let self' := snd (for_each load_one items self) in
  fst (for_each load_one items self) = Ok tt
  /\ encoder self' = encoder self
  /\ storage self' = storage self
  /\ api_calls self' = api_calls self
  /\ forall id,
       dict_get key_eqb (embeddings self') (KInt id)
       = loaded (embeddings self) (option_map fst (dict_get Z.eqb items id)) id
       /\ dict_get key_eqb (contact_data self') (KInt id)
          = loaded (contact_data self) (option_map snd (dict_get Z.eqb items id)) id.
Proof.
  revert self. induction items as [|[k [v c]] items IH]; intros self Hnd.
  - cbn. repeat split; reflexivity.
  - inversion Hnd as [|? ? Hk Hnd']; subst.
    cbn [for_each load_one bindM set_embedding set_contact_data hash_key].
    set (s1 := {| encoder := _ |}).
    destruct (IH s1 Hnd') as (Hr & He & Hs & Ha & Hget).
    cbv zeta. repeat split; try assumption.
    + rewrite (proj1 (Hget id)). cbn [dict_get].
      destruct (Z.eqb_spec id k) as [->|Hne].
      * rewrite (dict_get_notin _ _ Hk). cbn. apply kdict_get_set_same.
      * destruct (dict_get Z.eqb items id); [reflexivity|].
        cbn. apply kdict_get_set_other. congruence.
    + rewrite (proj2 (Hget id)). cbn [dict_get].
      destruct (Z.eqb_spec id k) as [->|Hne].
      * rewrite (dict_get_notin _ _ Hk). cbn. apply kdict_get_set_same.
      * destruct (dict_get Z.eqb items id); [reflexivity|].
        cbn. apply kdict_get_set_other. congruence.
Qed.

(** The loop writes under integer keys only. *)
Lemma for_each_load_one_other_keys items self k :
  (forall id, k <> KInt id) ->
  let self' := snd (for_each load_one items self) in
  dict_get key_eqb (embeddings self') k = dict_get key_eqb (embeddings self) k
  /\ dict_get key_eqb (contact_data self') k
     = dict_get key_eqb (contact_data self) k.
Proof.
  intros Hk. revert self. induction items as [|[id [v c]] items IH]; intros self.
  - now split.
  - cbn [for_each load_one bindM set_embedding set_contact_data hash_key].
    set (s1 := {| encoder := _ |}). cbv zeta.
    destruct (IH s1) as [He Hc]. rewrite He, Hc. subst s1.
    cbn [embeddings contact_data].
    split; apply kdict_get_set_other; apply Hk.
Qed.

(** When the store can be read, the method returns and the mirror
    follows the store. *)
Lemma load_from_storage_ok self d :
  get_all_embeddings (storage self) = Ok d ->
  let self' := snd (_load_from_storage self) in
  fst (_load_from_storage self) = Ok tt
  /\ storage self' = storage self
  /\ api_calls self' = api_calls self
  /\ forall id,
       dict_get key_eqb (embeddings self') (KInt id)
       = loaded (embeddings self) (option_map fst (dict_get Z.eqb d id)) id
       /\ dict_get key_eqb (contact_data self') (KInt id)
          = loaded (contact_data self) (option_map snd (dict_get Z.eqb d id)) id.
Proof.
  intros E. unfold _load_from_storage, bindM, raise_of. rewrite E.
  assert (Hnd : NoDup (dict_keys d)).
  { apply get_all_embeddings_rows in E. destruct E as [_ E].
    apply (decode_rows_nodup (db (storage self)) [] d); [constructor|exact E]. }
  destruct (for_each_load_one d self Hnd) as (Hr & _ & Hs & Ha & Hget).
  cbv zeta. repeat split; try assumption; apply Hget.
Qed.

(** A table without the [embeddings] table, or with a row whose blob is
    no array of [float32], cannot be read. *)
Lemma get_all_embeddings_unreadable self :
  transient (db_path self) = true
  \/ Exists (fun r => Np.frombuffer (embedding r) = Raise ValueError) (db self) ->
  exists e, get_all_embeddings self = Raise e.
Proof.
  intros H. destruct (get_all_embeddings self) as [d|e] eqn:E; [|now exists e].
  exfalso. apply get_all_embeddings_rows in E. destruct E as [Hfile E].
  destruct H as [H|H]; [unfold file_backed in Hfile; congruence|].
  assert (Hall : Forall row_decodes (db self))
    by (apply (decode_rows_all _ []); eauto).
  apply Exists_exists in H. destruct H as (r & Hr & Hbad).
  destruct (proj1 (Forall_forall _ _) Hall r Hr) as (v & c & Hv & _).
  congruence.
Qed.

(** X9.  [_load_from_storage] is all or nothing.  When
    [get_all_embeddings] returns, the method returns, sends no request
    and writes nothing to the store, and the mirror then holds under each
    stored id the vector and the record of the store, and under any other
    key what it held before.  When the store has no table (its path is
    the empty one or [":memory:"]) or has a row whose blob is no array of
    [float32], the method raises and the object is unchanged. *)
Theorem load_from_storage_mirrors_store :
  forall self,
    (forall d,
       get_all_embeddings (storage self) = Ok d ->
       let self' := snd (_load_from_storage self) in
       fst (_load_from_storage self) = Ok tt
       /\ storage self' = storage self
       /\ api_calls self' = api_calls self
       /\ (forall id,
             dict_get key_eqb (embeddings self') (KInt id)
             = match dict_get Z.eqb d id with
               | Some (vector, _) => Some vector
               | None => dict_get key_eqb (embeddings self) (KInt id)
               end
             /\ dict_get key_eqb (contact_data self') (KInt id)
                = match dict_get Z.eqb d id with
                  | Some (_, data) => Some data
                  | None => dict_get key_eqb (contact_data self) (KInt id)
                  end)
       /\ (forall k,
             (forall id, k <> KInt id) ->
             dict_get key_eqb (embeddings self') k
             = dict_get key_eqb (embeddings self) k
             /\ dict_get key_eqb (contact_data self') k
                = dict_get key_eqb (contact_data self) k))
    /\ (transient (db_path (storage self)) = true
        \/ Exists (fun r => Np.frombuffer (embedding r) = Raise ValueError)
             (db (storage self)) ->
        exists e, _load_from_storage self = (Raise e, self)).
Proof.
  intros self. split.
  - intros d E.
    destruct (load_from_storage_ok self d E) as (Hr & Hs & Ha & Hget).
    cbv zeta. split; [assumption|]. split; [assumption|]. split; [assumption|].
    split.
    + intros id. split.
      * rewrite (proj1 (Hget id)). now destruct (dict_get Z.eqb d id) as [[v c]|].
      * rewrite (proj2 (Hget id)). now destruct (dict_get Z.eqb d id) as [[v c]|].
    + intros k Hk. unfold _load_from_storage, bindM, raise_of. rewrite E.
      now apply for_each_load_one_other_keys.
  - intros H. destruct (get_all_embeddings_unreadable _ H) as [e E].
    exists e. unfold _load_from_storage, bindM, raise_of. now rewrite E.
Qed.

(** The mirror of an engine on [":memory:"] cannot be loaded. *)
Example load_from_storage_in_memory :
  _load_from_storage (init Sample.stub_encoder ":memory:" None)
  = (Raise OperationalError, init Sample.stub_encoder ":memory:" None).
Proof. reflexivity. Qed.

End Loading.

(* ================================================================= *)
(** ** Rebuilding: requests, write-through, failure *)

Section Rebuild.
Import Storage RAG.

(** One pass of the loop for a contact with an integer id of 64 bits and
    a dictionary of details, on a store kept in a database file. *)
Lemma update_one_ok env c self id details :
  contact_id_of c = Ok (PyInt id) ->
  contact_details env (PyInt id) = Ok (PyDict details) ->
  file_backed (storage self) ->
  in_int64 id = true ->
  update_one env c self
  = (Ok tt,
     {| encoder := encoder self;
        storage := {| db_path := db_path (storage self);
                      db := insert_or_replace (entry_row env self id details)
                              (db (storage self)) |};
        embeddings := dict_set key_eqb (embeddings self) (KInt id)
                        (encoder self (create_contact_text details));
        contact_data := dict_set key_eqb (contact_data self) (KInt id)
                          (PyDict details);
        api_calls := list_append (api_calls self) (GetContactDetails (PyInt id)) |}).
Proof.
  intros Hid Hd Hfile Hz. rewrite update_one_run, Hid. cbv zeta.
  rewrite Hd. cbn [call_create_contact_text hash_key].
  now rewrite (save_embedding_int _ _ _ _ _ _ Hfile Hz).
Qed.

(** A pass that returns was for a contact with an id, and has requested
    its details. *)
Lemma update_one_returns env c self :
  fst (update_one env c self) = Ok tt ->
  exists id,
    contact_id_of c = Ok id
    /\ api_calls (snd (update_one env c self))
       = list_append (api_calls self) (GetContactDetails id).
Proof.
  rewrite update_one_run.
  destruct (contact_id_of c) as [id|e]; [|discriminate]. cbv zeta.
  destruct (contact_details env id) as [details|e]; [|discriminate].
  destruct (call_create_contact_text details) as [text|e]; [|discriminate].
  destruct (hash_key id) as [k|e]; [|discriminate].
  intros _. now exists id.
Qed.

(** A pass that returns for a contact with an integer id: the contact
    can be fetched, and the store is kept in a database file. *)
Lemma update_one_returns_int env c self id :
  contact_id_of c = Ok (PyInt id) ->
  fst (update_one env c self) = Ok tt ->
  file_backed (storage self)
  /\ in_int64 id = true
  /\ exists details, contact_details env (PyInt id) = Ok (PyDict details).
Proof.
  intros Hid. rewrite update_one_run, Hid. cbv zeta.
  destruct (contact_details env (PyInt id)) as [details|e]; [|discriminate].
  destruct details as [| | | | |details]; try discriminate.
  cbn [call_create_contact_text hash_key].
  rewrite save_embedding_int_raises. unfold file_backed.
  destruct (transient (db_path (storage self))); [discriminate|].
  destruct (in_int64 id); [|discriminate].
  intros _. split; [reflexivity|]. split; [reflexivity|]. now exists details.
Qed.

(** A pass leaves the path of the store as it is. *)
Lemma db_path_update_one env c p :
  preserves (fun s => db_path (storage s) = p) (update_one env c).
Proof.
  intros self H. rewrite update_one_run.
  destruct (contact_id_of c) as [id|e]; [|exact H]. cbv zeta.
  destruct (contact_details env id) as [details|e]; [|exact H].
  destruct (call_create_contact_text details) as [text|e]; [|exact H].
  destruct (hash_key id) as [k|e]; [|exact H].
  cbn [snd storage].
  destruct (save_embedding_cases (sqlite env) (storage self) id
              (encoder self text) details (current_timestamp env id))
    as [(e & ->)|(rowid & -> & _)]; exact H.
Qed.

(** What a state in sync for [id] owes to a pass for the integer id [z]:
    the pass writes the two dictionaries, and the row unless the save
    raised. *)
Lemma in_sync_step env self self' id z details :
  in_sync env self id ->
  contact_details env (PyInt z) = Ok (PyDict details) ->
  encoder self' = encoder self ->
  embeddings self'
  = dict_set key_eqb (embeddings self) (KInt z)
      (encoder self (create_contact_text details)) ->
  contact_data self'
  = dict_set key_eqb (contact_data self) (KInt z) (PyDict details) ->
  db (storage self') = db (storage self)
  \/ db (storage self')
     = insert_or_replace (entry_row env self z details) (db (storage self)) ->
  in_sync env self' id.
Proof.
  intros (d & Hd & He & Hc & Hrow) Hz En Ee Ec Hdb.
  exists d. unfold entry_row in *. rewrite En, Ee, Ec.
  split; [exact Hd|].
  destruct (Z.eq_dec id z) as [<-|Hne].
  - rewrite Hd in Hz. injection Hz as <-.
    split; [apply kdict_get_set_same|]. split; [apply kdict_get_set_same|].
    destruct Hdb as [->| ->]; [exact Hrow|].
    apply in_insert_or_replace. now left.
  - assert (KInt id <> KInt z) by congruence.
    split; [now rewrite kdict_get_set_other|].
    split; [now rewrite kdict_get_set_other|].
    destruct Hdb as [->| ->]; [exact Hrow|].
    apply in_insert_or_replace. right. split; [exact Hrow|].
    cbn [contact_id]. exact Hne.
Qed.

Lemma in_sync_same env self self' id :
  in_sync env self id ->
  encoder self' = encoder self ->
  embeddings self' = embeddings self ->
  contact_data self' = contact_data self ->
  storage self' = storage self ->
  in_sync env self' id.
Proof.
  intros (d & Hd & He & Hc & Hrow) En Ee Ec Es.
  exists d. unfold entry_row in *. now rewrite En, Ee, Ec, Es.
Qed.

Lemma in_sync_update_one env c id :
  (forall id', contact_id_of c = Ok id' -> is_int id') ->
  preserves (fun self => in_sync env self id) (update_one env c).
Proof.
  intros Hint self H. rewrite update_one_run.
  destruct (contact_id_of c) as [id'|e]; [|exact H].
  destruct (Hint id' eq_refl) as [z ->]. cbv zeta.
  destruct (contact_details env (PyInt z)) as [details|e] eqn:Hd;
    [|now apply (in_sync_same env self)].
  destruct details as [| | | | |details];
    try (now apply (in_sync_same env self)).
  cbn [call_create_contact_text hash_key].
  rewrite save_embedding_int_raises.
  apply (in_sync_step env self _ id z details H Hd); try reflexivity.
  cbn [snd storage].
  destruct (transient (db_path (storage self))); [now left|].
  destruct (in_int64 z); [now right|now left].
Qed.

Lemma in_sync_after_update_one env c self id details :
  contact_id_of c = Ok (PyInt id) ->
  contact_details env (PyInt id) = Ok (PyDict details) ->
  file_backed (storage self) ->
  in_int64 id = true ->
  in_sync env (snd (update_one env c self)) id.
Proof.
  intros Hid Hd Hfile Hz.
  rewrite (update_one_ok env c self id details Hid Hd Hfile Hz). cbn [snd].
  exists details. unfold entry_row.
  cbn [encoder embeddings contact_data storage db].
  split; [exact Hd|]. split; [apply kdict_get_set_same|].
  split; [apply kdict_get_set_same|]. apply in_insert_or_replace. now left.
Qed.

Lemma for_each_cons_ok {A} (body : A -> method unit) x l self :
  fst (for_each body (x :: l) self) = Ok tt ->
  fst (body x self) = Ok tt
  /\ for_each body (x :: l) self = for_each body l (snd (body x self)).
Proof.
  cbn [for_each]. unfold bindM. destruct (body x self) as [[[]|e] s1]; cbn [fst snd].
  - intros _. split; reflexivity.
  - discriminate.
Qed.

Lemma ids_of_cons c cs id :
  contact_id_of c = Ok id -> ids_of (c :: cs) = id :: ids_of cs.
Proof. intros H. unfold ids_of. cbn [flat_map]. now rewrite H. Qed.

(** The requests of a run of the loop that returns: one for each listed
    contact, with the id as the list gives it. *)
Lemma for_each_update_one_calls env cs self :
  fst (for_each (update_one env) cs self) = Ok tt ->
  api_calls (snd (for_each (update_one env) cs self))
  = (api_calls self ++ map GetContactDetails (ids_of cs))%list
  /\ List.length (ids_of cs) = List.length cs.
Proof.
  revert self. induction cs as [|c cs IH]; intros self H.
  - cbn. now rewrite List.app_nil_r.
  - destruct (for_each_cons_ok _ _ _ _ H) as [Hc Hrest].
    rewrite Hrest in *. clear Hrest.
    destruct (update_one_returns env c self Hc) as (id & Hid & Hcalls).
    destruct (IH _ H) as [Ha Hl].
    rewrite (ids_of_cons c cs id Hid). split.
    + rewrite Ha, Hcalls. unfold list_append. cbn [map].
      now rewrite <- List.app_assoc.
    + cbn [List.length]. now f_equal.
Qed.

(** What a run of the loop that returns has done, when the ids of the
    listed contacts are integers. *)
Lemma for_each_update_one_ok env cs self :
  fst (for_each (update_one env) cs self) = Ok tt ->
  Forall is_int (ids_of cs) ->
  let self' := snd (for_each (update_one env) cs self) in
  Forall (fetchable env) cs
  /\ (cs = [] \/ file_backed (storage self))
  /\ Forall (in_sync env self') (ints_of (ids_of cs)).
Proof.
  revert self. induction cs as [|c cs IH]; intros self H Hint.
  - cbn. repeat split; [constructor|now left|constructor].
  - destruct (for_each_cons_ok _ _ _ _ H) as [Hc Hrest].
    rewrite Hrest in *. clear Hrest.
    destruct (update_one_returns env c self Hc) as (id & Hid & _).
    rewrite (ids_of_cons c cs id Hid) in *.
    inversion Hint as [|? ? [z Hz] Hint']; subst.
    destruct (update_one_returns_int env c self z Hid Hc)
      as (Hfile & Hz & details & Hd).
    destruct (IH _ H Hint') as (Hf & _ & Hs). cbv zeta.
    split; [|split].
    + constructor; [now exists z, details|exact Hf].
    + now right.
    + cbn [ints_of flat_map List.app]. constructor; [|exact Hs].
      apply (preserves_for_each_in (fun s => in_sync env s z) (update_one env) cs).
      * intros c' Hc'. apply in_sync_update_one. intros id' Hid'.
        apply (proj1 (Forall_forall _ _) Hint' id').
        unfold ids_of. apply in_flat_map. exists c'. split; [exact Hc'|].
        rewrite Hid'. now left.
      * now apply (in_sync_after_update_one env c self z details).
Qed.

End Rebuild.
Section RebuildTheorems.
Import Storage RAG.

Lemma update_embeddings_unfold env self :
  update_embeddings env self
  = match contacts env with
    | Ok cs => for_each (update_one env) cs (snd (get_contacts env self))
    | Raise e => (Raise e, snd (get_contacts env self))
    end.
Proof.
  unfold update_embeddings, bindM, get_contacts, request. cbn [snd].
  now destruct (contacts env).
Qed.

Lemma fetched_ids_ok env cs : contacts env = Ok cs -> fetched_ids env = ids_of cs.
Proof. intros H. unfold fetched_ids. now rewrite H. Qed.

(** X10.  A rebuild that returns has sent one request for the list of
    contacts and then one request for the details of each listed contact,
    in the order of the list and with the id as the list gives it,
    whatever JSON value that is: N + 1 requests for N contacts. *)
Theorem update_embeddings_requests :
  forall env self,
    fst (update_embeddings env self) = Ok tt ->
    api_calls (snd (update_embeddings env self))
    = (api_calls self ++ GetContacts :: map GetContactDetails (fetched_ids env))%list
    /\ exists cs, contacts env = Ok cs
                  /\ List.length (fetched_ids env) = List.length cs.
Proof.
  intros env self H. rewrite update_embeddings_unfold in *.
  destruct (contacts env) as [cs|e] eqn:Ec; [|discriminate].
  destruct (for_each_update_one_calls env cs _ H) as (Ha & Hl).
  rewrite (fetched_ids_ok env cs Ec). split.
  - rewrite Ha. unfold get_contacts, request, list_append. cbn [snd api_calls].
    now rewrite <- List.app_assoc.
  - now exists cs.
Qed.

Lemma update_embeddings_requests_witness :
  fst (update_embeddings Sample.two_contacts
         (init Sample.stub_encoder "monica_rag.db" None)) = Ok tt
  /\ api_calls (snd (update_embeddings Sample.two_contacts
                       (init Sample.stub_encoder "monica_rag.db" None)))
     = [GetContacts; GetContactDetails (PyInt 1); GetContactDetails (PyInt 2)]
  /\ fst (update_embeddings Scenario.text_id Sample.engine_with_stale) = Ok tt
  /\ api_calls (snd (update_embeddings Scenario.text_id Sample.engine_with_stale))
     = [GetContacts; GetContactDetails (PyStr "7")].
Proof.
  split; [reflexivity|]. split; [|split; [reflexivity|]].
  - exact (proj1 (update_embeddings_requests Sample.two_contacts
                    (init Sample.stub_encoder "monica_rag.db" None) eq_refl)).
  - exact (proj1 (update_embeddings_requests Scenario.text_id
                    Sample.engine_with_stale eq_refl)).
Defined.

(** X11.  Write-through: when a rebuild returns and the ids of the listed
    contacts are integers, every listed contact is in the mirror and in
    the store with the embedding of the text of its details, the details
    themselves, and the time of its write. *)
Theorem update_embeddings_writes_through :
  forall env self,
    fst (update_embeddings env self) = Ok tt ->
    Forall is_int (fetched_ids env) ->
    Forall (in_sync env (snd (update_embeddings env self)))
      (ints_of (fetched_ids env)).
Proof.
  intros env self H Hint. rewrite update_embeddings_unfold in *.
  destruct (contacts env) as [cs|e] eqn:Ec; [|discriminate].
  rewrite (fetched_ids_ok env cs Ec) in *.
  now destruct (for_each_update_one_ok env cs _ H Hint) as (_ & _ & Hs).
Qed.

Lemma update_embeddings_writes_through_witness :
  fst (update_embeddings Sample.two_contacts Sample.engine_with_stale) = Ok tt
  /\ Forall is_int (fetched_ids Sample.two_contacts)
  /\ Forall (in_sync Sample.two_contacts
               (snd (update_embeddings Sample.two_contacts Sample.engine_with_stale)))
       [1; 2].
Proof.
  assert (Hint : Forall is_int (fetched_ids Sample.two_contacts))
    by (repeat constructor; eexists; reflexivity).
  split; [reflexivity|]. split; [exact Hint|].
  exact (update_embeddings_writes_through Sample.two_contacts
           Sample.engine_with_stale eq_refl Hint).
Defined.

(** Ids that are no integers can share an entry: [True] is the key 1 of
    a dictionary and the row id 1 of the table, so a contact listed under
    [true] after the contact 1 takes its place in the mirror and in the
    store. *)
Example update_embeddings_boolean_id :
  let self := init Sample.stub_encoder "monica_rag.db" None in
  let self' := snd (update_embeddings Scenario.boolean_id self) in
  fst (update_embeddings Scenario.boolean_id self) = Ok tt
  /\ contact_details Scenario.boolean_id (PyInt 1) = Ok Sample.alice
  /\ dict_keys (contact_data self') = [KInt 1]
  /\ dict_get key_eqb (contact_data self') (KInt 1) = Some Sample.bob
  /\ map contact_id (db (storage self')) = [1]
  /\ map Storage.contact_data (db (storage self')) = [Json.dumps Sample.bob].
Proof. repeat split; vm_compute; reflexivity. Qed.

End RebuildTheorems.

Section RebuildFrame.
Import Storage RAG.

Lemma mirror_entry_update_one env c k (E0 : option Np.ndarray) (C0 : option pyval) :
  (forall id, contact_id_of c = Ok id -> hash_key id <> Ok k) ->
  preserves (fun s => dict_get key_eqb (embeddings s) k = E0
                      /\ dict_get key_eqb (contact_data s) k = C0)
    (update_one env c).
Proof.
  intros Hne self [He Hc]. rewrite update_one_run.
  destruct (contact_id_of c) as [id|e]; [|now split].
  specialize (Hne id eq_refl). cbv zeta.
  destruct (contact_details env id) as [details|e]; [|now split].
  destruct (call_create_contact_text details) as [text|e]; [|now split].
  destruct (hash_key id) as [k'|e]; [|now split].
  cbn [snd embeddings contact_data].
  assert (k <> k') by congruence.
  now rewrite !kdict_get_set_other.
Qed.

(** X12.  A rebuild leaves the mirror entries of the contacts that are
    not in the fetched list as they are, whether it returns or raises:
    a contact deleted in Monica stays in the mirror.  An entry is that of
    a fetched contact when the id of the contact is its key as a
    dictionary key of Python, for which [True] is 1 and [False] is 0. *)
Theorem update_embeddings_keeps_other_mirror_entries :
  forall env self k,
    (forall id, In id (fetched_ids env) -> hash_key id <> Ok k) ->
    dict_get key_eqb (embeddings (snd (update_embeddings env self))) k
    = dict_get key_eqb (embeddings self) k
    /\ dict_get key_eqb (contact_data (snd (update_embeddings env self))) k
       = dict_get key_eqb (contact_data self) k.
Proof.
  intros env self k Hout. rewrite update_embeddings_unfold.
  destruct (contacts env) as [cs|e] eqn:Ec; [|now split].
  apply (preserves_for_each_in
           (fun s => dict_get key_eqb (embeddings s) k
                     = dict_get key_eqb (embeddings self) k
                     /\ dict_get key_eqb (contact_data s) k
                        = dict_get key_eqb (contact_data self) k)
           (update_one env) cs); [|now split].
  intros c Hin. apply mirror_entry_update_one. intros id Hid.
  apply Hout. unfold fetched_ids. rewrite Ec. apply in_flat_map.
  exists c. split; [assumption|]. rewrite Hid. now left.
Qed.

Lemma update_embeddings_keeps_other_mirror_entries_witness :
  (forall id, In id (fetched_ids Sample.two_contacts) -> hash_key id <> Ok (KInt 7))
  /\ dict_get key_eqb
       (embeddings (snd (update_embeddings Sample.two_contacts
                           (snd (_load_from_storage Sample.engine_with_stale)))))
       (KInt 7)
     = Some [Sample.f_zero; Sample.f_one].
Proof.
  assert (Hout : forall id, In id (fetched_ids Sample.two_contacts) ->
                            hash_key id <> Ok (KInt 7)).
  { cbn. intros id [<-|[<-|[]]]; discriminate. }
  split; [exact Hout|].
  exact (proj1 (update_embeddings_keeps_other_mirror_entries Sample.two_contacts
                  (snd (_load_from_storage Sample.engine_with_stale)) (KInt 7) Hout)).
Defined.

Lemma for_each_app {A} (body : A -> method unit) l1 l2 self :
  for_each body (l1 ++ l2)%list self
  = match for_each body l1 self with
    | (Ok _, s1) => for_each body l2 s1
    | (Raise e, s1) => (Raise e, s1)
    end.
Proof.
  revert self. induction l1 as [|x l1 IH]; intros self; [reflexivity|].
  cbn [for_each List.app]. unfold bindM.
  destruct (body x self) as [[[]|e] s1]; [apply IH|reflexivity].
Qed.

Lemma for_each_cons_raise {A} (body : A -> method unit) x l self e :
  fst (body x self) = Raise e ->
  for_each body (x :: l) self = (Raise e, snd (body x self)).
Proof.
  cbn [for_each]. unfold bindM.
  destruct (body x self) as [[[]|e'] s1]; cbn [fst snd]; congruence.
Qed.

Lemma ids_of_fetchable env cs : Forall (fetchable env) cs -> Forall is_int (ids_of cs).
Proof.
  induction 1 as [|c cs (id & details & Hid & _) Hf IH]; [constructor|].
  rewrite (ids_of_cons c cs _ Hid). constructor; [now exists id|exact IH].
Qed.

(** A loop over contacts that can all be fetched returns, on a store kept
    in a database file. *)
Lemma for_each_update_one_fetchable env cs self :
  Forall (fetchable env) cs ->
  file_backed (storage self) ->
  fst (for_each (update_one env) cs self) = Ok tt.
Proof.
  intros H. revert self.
  induction H as [|c cs (id & details & Hid & Hz & Hd) Hf IH]; intros self Hfile;
    [reflexivity|].
  cbn [for_each]. unfold bindM.
  rewrite (update_one_ok env c self id details Hid Hd Hfile Hz). apply IH.
  exact Hfile.
Qed.

(** A pass whose details request fails. *)
Lemma update_one_details_fail env c self id e :
  contact_id_of c = Ok id ->
  contact_details env id = Raise e ->
  update_one env c self
  = (Raise e,
     {| encoder := encoder self; storage := storage self;
        embeddings := embeddings self; contact_data := contact_data self;
        api_calls := list_append (api_calls self) (GetContactDetails id) |}).
Proof. intros Hid Hd. rewrite update_one_run, Hid. cbv zeta. now rewrite Hd. Qed.

(** X13.  No rollback: on a store kept in a database file, when the
    contacts listed first can be fetched (integer ids of 64 bits,
    dictionaries of details) and the details request of the next one
    fails, the rebuild raises that exception, the contacts listed before
    it are already in the mirror and in the store, and the contacts listed
    after it are not requested. *)
Theorem update_embeddings_fails_midway :
  forall env self cs1 c cs2 id e,
    file_backed (storage self) ->
    contacts env = Ok (cs1 ++ c :: cs2)%list ->
    Forall (fetchable env) cs1 ->
    contact_id_of c = Ok id ->
    contact_details env id = Raise e ->
    let self' := snd (update_embeddings env self) in
    fst (update_embeddings env self) = Raise e
    /\ Forall (in_sync env self') (ints_of (ids_of cs1))
    /\ List.length (ints_of (ids_of cs1)) = List.length cs1
    /\ api_calls self'
       = (api_calls self
          ++ GetContacts :: map GetContactDetails (ids_of cs1 ++ [id]))%list.
Proof.
  intros env self cs1 c cs2 id e Hfile Ec Hf Hid Hd.
  rewrite update_embeddings_unfold, Ec, for_each_app.
  set (s0 := snd (get_contacts env self)).
  assert (Hfile0 : file_backed (storage s0)) by exact Hfile.
  pose proof (for_each_update_one_fetchable env cs1 s0 Hf Hfile0) as Hok.
  pose proof (ids_of_fetchable env cs1 Hf) as Hint.
  destruct (for_each_update_one_ok env cs1 s0 Hok Hint) as (_ & _ & Hs).
  destruct (for_each_update_one_calls env cs1 s0 Hok) as (Ha & Hl).
  destruct (for_each (update_one env) cs1 s0) as [[[]|e1] s1];
    cbn [fst snd] in *; [|discriminate].
  rewrite (for_each_cons_raise _ c cs2 s1 e)
    by now rewrite (update_one_details_fail env c s1 id e Hid Hd).
  rewrite (update_one_details_fail env c s1 id e Hid Hd).
  cbv zeta. cbn [fst snd]. split; [reflexivity|]. split; [|split].
  - apply Forall_forall. intros i Hi.
    apply (in_sync_same env s1); try reflexivity.
    exact (proj1 (Forall_forall _ _) Hs i Hi).
  - rewrite <- Hl. clear - Hint.
    induction Hint as [|x l [z ->] Hint IH]; [reflexivity|].
    cbn [ints_of flat_map List.app List.length]. f_equal. exact IH.
  - cbn [api_calls]. rewrite Ha. subst s0.
    unfold get_contacts, request, list_append.
    cbn [snd api_calls]. rewrite map_app. cbn [map].
    now rewrite <- !List.app_assoc.
Qed.

Lemma update_embeddings_fails_midway_witness :
  file_backed (storage (init Sample.stub_encoder "monica_rag.db" None))
  /\ contacts Scenario.details_fail
     = Ok ([PyDict [("id", PyInt 1)]] ++ PyDict [("id", PyInt 2)] :: [])%list
  /\ contact_details Scenario.details_fail (PyInt 2) = Raise ConnectionError
  /\ let self' := snd (update_embeddings Scenario.details_fail
                         (init Sample.stub_encoder "monica_rag.db" None)) in
     fst (update_embeddings Scenario.details_fail
            (init Sample.stub_encoder "monica_rag.db" None))
     = Raise ConnectionError
     /\ Forall (in_sync Scenario.details_fail self') [1]
     /\ api_calls self'
        = [GetContacts; GetContactDetails (PyInt 1); GetContactDetails (PyInt 2)].
Proof.
  assert (Hfile : file_backed
                    (storage (init Sample.stub_encoder "monica_rag.db" None)))
    by reflexivity.
  split; [exact Hfile|]. split; [reflexivity|]. split; [reflexivity|].
  destruct (update_embeddings_fails_midway Scenario.details_fail
              (init Sample.stub_encoder "monica_rag.db" None)
              [PyDict [("id", PyInt 1)]] (PyDict [("id", PyInt 2)]) [] (PyInt 2)
              ConnectionError Hfile eq_refl) as (Hr & Hs & _ & Ha).
  - constructor; [|constructor].
    exists 1. eexists. repeat split; reflexivity.
  - reflexivity.
  - reflexivity.
  - split; [exact Hr|]. split; [exact Hs|exact Ha].
Defined.

(** The save of a listed contact can fail as well: with the id 2^63 the
    rebuild raises [OverflowError] after it has written the mirror, so
    the mirror has an entry that the store has not. *)
Example update_embeddings_overflow :
  let self := init Sample.stub_encoder "monica_rag.db" None in
  let self' := snd (update_embeddings Scenario.wide_id self) in
  fst (update_embeddings Scenario.wide_id self) = Raise OverflowError
  /\ dict_keys (embeddings self') = [KInt (2 ^ 63)]
  /\ db (storage self') = [].
Proof. repeat split; reflexivity. Qed.

End RebuildFrame.

Section RebuildTwice.
Import Storage RAG.

Lemma filter_all {A} (p : A -> bool) l :
  Forall (fun x => p x = true) l -> filter p l = l.
Proof.
  induction 1 as [|x l Hx Hl IH]; cbn [filter]; [reflexivity|].
  now rewrite Hx, IH.
Qed.

(** Writing again a row that differs from a stored one in its time stamp
    only changes nothing else in the table. *)
Lemma insert_or_replace_untimed r' rows r :
  ascending rows -> In r rows -> untimed r' = untimed r ->
  map untimed (insert_or_replace r' rows) = map untimed rows.
Proof.
  intros Hasc Hin Hu.
  assert (Hid : contact_id r' = contact_id r) by (unfold untimed in Hu; congruence).
  unfold ascending in Hasc.
  induction Hasc as [|x rows Hs IH Hx]; [contradiction|].
  pose proof (proj1 (Forall_forall _ _) Hx) as L. cbv beta in L.
  unfold insert_or_replace in *. cbn [filter].
  destruct Hin as [->|Hin].
  - rewrite Hid, Z.eqb_refl. cbn [negb].
    rewrite filter_all.
    + destruct rows as [|y rows']; cbn [insert_by_rowid map]; [now rewrite Hu|].
      assert (contact_id r < contact_id y) by (apply L; now left).
      destruct (Z.ltb_spec (contact_id r') (contact_id y)); [|lia].
      cbn [map]. now rewrite Hu.
    + apply Forall_forall. intros y Hy. apply negb_true_iff, Z.eqb_neq.
      specialize (L y Hy). lia.
  - specialize (L r Hin).
    destruct (Z.eqb_spec (contact_id x) (contact_id r')); [lia|]. cbn [negb].
    cbn [insert_by_rowid].
    destruct (Z.ltb_spec (contact_id r') (contact_id x)); [lia|].
    cbn [map]. f_equal. now apply IH.
Qed.

Lemma ascending_update_one env c :
  preserves (fun s => ascending (db (storage s))) (update_one env c).
Proof.
  intros self H. rewrite update_one_run.
  destruct (contact_id_of c) as [id|e]; [|exact H]. cbv zeta.
  destruct (contact_details env id) as [details|e]; [|exact H].
  destruct (call_create_contact_text details) as [text|e]; [|exact H].
  destruct (hash_key id) as [k|e]; [|exact H].
  cbn [snd storage].
  destruct (save_embedding_cases (sqlite env) (storage self) id
              (encoder self text) details (current_timestamp env id))
    as [(e & ->)|(rowid & -> & _)]; cbn [snd db]; [exact H|].
  now apply ascending_insert_or_replace.
Qed.

Lemma ascending_update_embeddings env :
  preserves (fun s => ascending (db (storage s))) (update_embeddings env).
Proof.
  intros self H. rewrite update_embeddings_unfold.
  destruct (contacts env) as [cs|e]; [|exact H].
  apply preserves_for_each; [|exact H]. intros c. apply ascending_update_one.
Qed.

Lemma db_path_update_embeddings env p :
  preserves (fun s => db_path (storage s) = p) (update_embeddings env).
Proof.
  intros self H. rewrite update_embeddings_unfold.
  destruct (contacts env) as [cs|e]; [|exact H].
  apply preserves_for_each; [|exact H]. intros c. apply db_path_update_one.
Qed.

(** The second pass over contacts that are in sync changes no content. *)
Lemma for_each_update_one_again env env' s1 cs :
  (forall id, contact_details env' id = contact_details env id) ->
  Forall (fetchable env) cs ->
  Forall (in_sync env s1) (ints_of (ids_of cs)) ->
  forall s,
    same_content s s1 -> ascending (db (storage s)) ->
    cs = [] \/ file_backed (storage s) ->
    fst (for_each (update_one env') cs s) = Ok tt
    /\ same_content (snd (for_each (update_one env') cs s)) s1
    /\ ascending (db (storage (snd (for_each (update_one env') cs s)))).
Proof.
  intros Hsame Hf. induction Hf as [|c cs (id & details & Hid & Hz & Hd) Hf IH];
    intros Hs s Hc Hasc Hfile; [cbn [for_each ret fst snd]; auto|].
  destruct Hfile as [Hnil|Hfile]; [discriminate|].
  rewrite (ids_of_cons c cs _ Hid) in Hs. cbn [ints_of flat_map List.app] in Hs.
  inversion Hs as [|? ? (details' & Hd' & He & Hcd & Hrow) Hs']; subst.
  rewrite Hd in Hd'. injection Hd' as <-.
  cbn [for_each]. unfold bindM.
  rewrite (update_one_ok env' c s id details Hid) by
    (try exact Hfile; try exact Hz; now rewrite Hsame).
  destruct Hc as (Cn & Ce & Cc & Cr).
  apply (IH Hs').
  - cbn [encoder embeddings contact_data storage db]. repeat split.
    + exact Cn.
    + rewrite Ce, Cn. now apply kdict_set_same.
    + rewrite Cc. now apply kdict_set_same.
    + rewrite <- Cr.
      assert (Hin : In (untimed (entry_row env s1 id details))
                      (map untimed (db (storage s)))).
      { rewrite Cr. now apply in_map. }
      apply in_map_iff in Hin. destruct Hin as (r & Hr & Hin).
      apply (insert_or_replace_untimed _ _ r Hasc Hin).
      rewrite Hr. unfold untimed, entry_row. cbn. now rewrite Cn.
  - cbn [storage db]. now apply ascending_insert_or_replace.
  - right. exact Hfile.
Qed.

(** X14.  Rebuilding twice is rebuilding once, when the ids of the
    listed contacts are integers: a second rebuild against a Monica that
    gives the same answers returns, and leaves the mirror as it is and the
    table with the same ids, blobs and texts; only the time stamps of the
    rows are new. *)
Theorem update_embeddings_twice :
  forall env env' self,
    ascending (db (storage self)) ->
    same_answers env env' ->
    Forall is_int (fetched_ids env) ->
    fst (update_embeddings env self) = Ok tt ->
    let s1 := snd (update_embeddings env self) in
    fst (update_embeddings env' s1) = Ok tt
    /\ same_content (snd (update_embeddings env' s1)) s1.
Proof.
  intros env env' self Hasc [Hcs Hds] Hint H s1.
  assert (Hasc1 : ascending (db (storage s1)))
    by now apply ascending_update_embeddings.
  assert (Hpath : db_path (storage s1) = db_path (storage self))
    by now apply db_path_update_embeddings.
  subst s1. rewrite (update_embeddings_unfold env') , Hcs.
  rewrite (update_embeddings_unfold env) in *.
  destruct (contacts env) as [cs|e] eqn:Ec; [|discriminate].
  rewrite (fetched_ids_ok env cs Ec) in Hint.
  destruct (for_each_update_one_ok env cs _ H Hint) as (Hf & Hfile & Hs).
  set (s1 := snd (for_each (update_one env) cs (snd (get_contacts env self)))) in *.
  destruct (for_each_update_one_again env env' s1 cs Hds Hf Hs
              (snd (get_contacts env' s1))) as (Hr & Hc & _).
  - now repeat split.
  - exact Hasc1.
  - destruct Hfile as [Hnil|Hfile]; [now left|right].
    unfold file_backed in *. cbn [get_contacts request snd storage] in *.
    now rewrite Hpath.
  - split; assumption.
Qed.

Lemma update_embeddings_twice_witness :
  ascending (db (storage Sample.engine_with_stale))
  /\ same_answers Sample.two_contacts Scenario.two_contacts_later
  /\ Forall is_int (fetched_ids Sample.two_contacts)
  /\ let s1 := snd (update_embeddings Sample.two_contacts Sample.engine_with_stale) in
     fst (update_embeddings Scenario.two_contacts_later s1) = Ok tt
     /\ same_content (snd (update_embeddings Scenario.two_contacts_later s1)) s1.
Proof.
  assert (Ha : ascending (db (storage Sample.engine_with_stale))).
  { unfold ascending. repeat constructor. }
  assert (Hs : same_answers Sample.two_contacts Scenario.two_contacts_later)
    by (split; reflexivity).
  assert (Hint : Forall is_int (fetched_ids Sample.two_contacts))
    by (repeat constructor; eexists; reflexivity).
  split; [exact Ha|]. split; [exact Hs|]. split; [exact Hint|].
  exact (update_embeddings_twice Sample.two_contacts Scenario.two_contacts_later
           Sample.engine_with_stale Ha Hs Hint eq_refl).
Defined.

End RebuildTwice.

(* ================================================================= *)
(** ** Queries: dimensions, prefixes, the full ranking *)

Section QueryMore.
Import Storage RAG.

Lemma similarities_from_mismatch q items acc :
  Exists (fun item => List.length (snd item) <> List.length q) items ->
  similarities_from q items acc = Raise ValueError.
Proof.
  intros H. revert acc. induction H as [[k e] items Hne|[k e] items H IH];
    intros acc; cbn [similarities_from]; unfold cosine, Np.dot.
  - cbn [snd] in Hne. destruct (Nat.eqb_spec (List.length q) (List.length e));
      [congruence|reflexivity].
  - destruct (List.length q =? List.length e)%nat; cbn [bind]; [apply IH|reflexivity].
Qed.

(** X15.  When a stored vector has another dimension than the embedding
    of the query, [query] raises [ValueError] whatever [top_k] is, even
    0: the similarities are all computed before the slice. *)
Theorem query_dimension_mismatch :
  forall self q top_k,
    Exists (fun item => List.length (snd item) <> List.length (encoder self q))
      (embeddings self) ->
    query self q top_k = Raise ValueError.
Proof.
  intros self q top_k H. unfold query.
  now rewrite (similarities_from_mismatch _ _ [] H).
Qed.

Lemma query_dimension_mismatch_witness :
  embeddings Scenario.engine_other_model
  = [(KInt 1, [Sample.f_one; Sample.f_zero])]
  /\ List.length (encoder Scenario.engine_other_model "query") = 3%nat
  /\ query Scenario.engine_other_model "query" 0 = Raise ValueError.
Proof.
  split; [reflexivity|]. split; [reflexivity|].
  apply (query_dimension_mismatch Scenario.engine_other_model "query" 0).
  constructor. cbn. discriminate.
Defined.

(** X16.  Asking for fewer results gives a prefix: for
    [0 <= k <= k'], the answer for [k] is the first [k] results of the
    answer for [k']. *)
Theorem query_prefix :
  forall self q k k' rs',
    0 <= k <= k' ->
    query self q k' = Ok rs' ->
    query self q k = Ok (firstn (Z.to_nat k) rs').
Proof.
  intros self q k k' rs' Hk H. unfold query in *.
  destruct (similarities_from (encoder self q) (embeddings self) []) as [sims|];
    [|discriminate].
  cbn [bind] in *. rewrite slice_to_nonneg in * by lia.
  replace (firstn (Z.to_nat k) (sorted_reverse score_lt sims))
    with (firstn (Z.to_nat k) (firstn (Z.to_nat k') (sorted_reverse score_lt sims))).
  - now apply results_of_firstn.
  - rewrite firstn_firstn. f_equal. lia.
Qed.

Lemma query_prefix_witness :
  0 <= 1 <= 2
  /\ (exists rs', query Sample.engine_ready "query" 2 = Ok rs'
                  /\ query Sample.engine_ready "query" 1 = Ok (firstn 1 rs')).
Proof.
  split; [lia|].
  eexists. split; [vm_compute; reflexivity|].
  apply (query_prefix Sample.engine_ready "query" 1 2); [lia|].
  vm_compute. reflexivity.
Defined.

Lemma map_lookup_keys {V} (d : list (key * V)) (f : key -> V) :
  NoDup (dict_keys d) ->
  (forall k v, dict_get key_eqb d k = Some v -> f k = v) ->
  map f (dict_keys d) = map snd d.
Proof.
  induction d as [|[k v] d IH]; intros Hnd Hf; [reflexivity|].
  cbn [dict_keys map fst snd] in *. inversion Hnd as [|? ? Hk Hnd']; subst.
  f_equal.
  - apply Hf. cbn [dict_get]. now destruct (key_eqb_spec k k).
  - apply IH; [exact Hnd'|]. intros k' v' H. apply Hf. cbn [dict_get].
    destruct (key_eqb_spec k' k) as [->|_]; [|exact H].
    exfalso. apply Hk. apply kdict_get_in in H.
    apply in_map_iff. now exists (k, v').
Qed.

(** X17.  The full ranking is a rearrangement of the mirror: with
    [top_k] at least the number of stored vectors, [query] returns each
    stored record exactly once. *)
Theorem query_full_ranking_is_permutation :
  forall self q top_k,
    mirror_ready self q ->
    Z.of_nat (List.length (embeddings self)) <= top_k ->
    exists rs,
      query self q top_k = Ok rs
      /\ Permutation (map contact rs) (map snd (contact_data self)).
Proof.
  intros self q top_k (Hn & Hk & Hd) Hall. unfold same_keys in Hk.
  destruct (similarities_from_keys (encoder self q) (embeddings self) [] Hd Hn)
    as [sims [Hs Hkeys]].
  change (dict_keys sims = dict_keys (embeddings self)) in Hkeys.
  destruct (query_ranking self q (conj Hn (conj Hk Hd)))
    as (sims' & all & Hs' & Hlen & Hall' & _ & Hq).
  rewrite Hs in Hs'. injection Hs' as <-.
  exists all. split.
  - rewrite Hq, slice_to_nonneg by lia. rewrite firstn_all2; [exact Hall'|].
    rewrite sorted_reverse_length. lia.
  - set (f := fun id => match dict_get key_eqb (contact_data self) id with
                        | Some c => c
                        | None => PyNone
                        end).
    destruct (results_of_spec _ _ _ Hall') as [_ H2].
    assert (E : map contact all = map (fun t => f (fst t)) (sorted_reverse score_lt sims)).
    { clear - H2. induction H2 as [|t r top rs Ht H2 IH]; [reflexivity|].
      cbn [map]. f_equal; [|exact IH].
      unfold dict_getitem in Ht. subst f. cbv beta.
      destruct (dict_get key_eqb (contact_data self) (fst t)); congruence. }
    rewrite E.
    rewrite <- (Permutation_map (fun t => f (fst t)) (sorted_reverse_perm score_lt sims)).
    rewrite <- (map_map fst f).
    change (map fst sims) with (dict_keys sims). rewrite Hkeys, Hk.
    rewrite (map_lookup_keys (contact_data self) f); [reflexivity| |].
    + now rewrite <- Hk.
    + intros k v H. subst f. cbv beta. now rewrite H.
Qed.

Lemma query_full_ranking_is_permutation_witness :
  mirror_ready Sample.engine_ready "query"
  /\ Z.of_nat (List.length (embeddings Sample.engine_ready)) <= 5
  /\ exists rs,
       query Sample.engine_ready "query" 5 = Ok rs
       /\ Permutation (map contact rs) [Sample.alice; Sample.bob].
Proof.
  assert (Hle : Z.of_nat (List.length (embeddings Sample.engine_ready)) <= 5)
    by (vm_compute; discriminate).
  split; [exact sample_mirror_ready|]. split; [exact Hle|].
  exact (query_full_ranking_is_permutation Sample.engine_ready "query" 5
           sample_mirror_ready Hle).
Defined.

End QueryMore.

(* ================================================================= *)
(** ** What [initialize] does with the database file *)

Section StoreIndependence.
Import Storage RAG.

(** Whether [save_embedding] returns does not depend on the rows of the
    table, unless the id is null. *)
Lemma save_embedding_outcome lib s s' id vector data now :
  id <> PyNone ->
  db_path s = db_path s' ->
  fst (save_embedding lib s id vector data now)
  = fst (save_embedding lib s' id vector data now)
  /\ db_path (snd (save_embedding lib s id vector data now))
     = db_path (snd (save_embedding lib s' id vector data now)).
Proof.
  intros Hid Hp. unfold save_embedding, execute_insert, sqlite3_connect.
  cbn [with_as bind]. rewrite Hp.
  destruct (transient (db_path s')); cbn [prepare bind fst snd]; [now split|].
  destruct id as [|b|z|t|xs|items]; [congruence| | | | |];
    cbn [bind_parameter bind rowid_for fst snd db_path]; try (now split).
  - destruct (in_int64 z); cbn [bind rowid_for fst snd db_path]; now split.
  - destruct (integer_of_text lib t) as [z|]; cbn [bind fst snd]; [|now split].
    destruct (in_int64 z); cbn [bind fst snd db_path]; now split.
Qed.

Lemma same_mirror_update_one env c a b :
  contact_id_of c <> Ok PyNone ->
  same_mirror a b ->
  fst (update_one env c a) = fst (update_one env c b)
  /\ same_mirror (snd (update_one env c a)) (snd (update_one env c b)).
Proof.
  intros Hnone (Hn & He & Hc & Ha & Hp). rewrite !update_one_run.
  destruct (contact_id_of c) as [id|e]; [|now repeat split]. cbv zeta.
  assert (Hid : id <> PyNone) by congruence.
  destruct (contact_details env id) as [details|e];
    [|unfold same_mirror; cbn; rewrite ?Hn, ?He, ?Hc, ?Ha; now repeat split].
  destruct (call_create_contact_text details) as [text|e];
    [|unfold same_mirror; cbn; rewrite ?Hn, ?He, ?Hc, ?Ha; now repeat split].
  destruct (hash_key id) as [k|e];
    [|unfold same_mirror; cbn; rewrite ?Hn, ?He, ?Hc, ?Ha; now repeat split].
  rewrite Hn.
  destruct (save_embedding_outcome (sqlite env) (storage a) (storage b) id
              (encoder b text) details (current_timestamp env id) Hid Hp)
    as [Hr Hp'].
  cbn [fst snd]. split; [exact Hr|].
  unfold same_mirror. cbn. rewrite ?Hn, ?He, ?Hc, ?Ha. now repeat split.
Qed.

Lemma same_mirror_for_each env cs a b :
  Forall (fun c => contact_id_of c <> Ok PyNone) cs ->
  same_mirror a b ->
  fst (for_each (update_one env) cs a) = fst (for_each (update_one env) cs b)
  /\ same_mirror (snd (for_each (update_one env) cs a))
       (snd (for_each (update_one env) cs b)).
Proof.
  intros Hcs. revert a b.
  induction Hcs as [|c cs Hnone Hcs IH]; intros a b H; [now split|].
  cbn [for_each]. unfold bindM.
  destruct (same_mirror_update_one env c a b Hnone H) as [Hr Hs].
  destruct (update_one env c a) as [[[]|ea] a1], (update_one env c b) as [[[]|eb] b1];
    cbn [fst snd] in *; try discriminate; [now apply IH|now split].
Qed.

Lemma fetched_ids_not_null env cs :
  contacts env = Ok cs ->
  ~ In PyNone (fetched_ids env) ->
  Forall (fun c => contact_id_of c <> Ok PyNone) cs.
Proof.
  intros Ec Hout. apply Forall_forall. intros c Hc Hid. apply Hout.
  unfold fetched_ids. rewrite Ec. apply in_flat_map.
  exists c. split; [exact Hc|]. rewrite Hid. now left.
Qed.

Lemma same_mirror_update_embeddings env a b :
  ~ In PyNone (fetched_ids env) ->
  same_mirror a b ->
  fst (update_embeddings env a) = fst (update_embeddings env b)
  /\ same_mirror (snd (update_embeddings env a)) (snd (update_embeddings env b)).
Proof.
  intros Hout H. rewrite !update_embeddings_unfold.
  assert (H0 : same_mirror (snd (get_contacts env a)) (snd (get_contacts env b))).
  { destruct H as (Hn & He & Hc & Ha & Hp). unfold same_mirror, get_contacts, request.
    cbn. now rewrite Ha. }
  destruct (contacts env) as [cs|e] eqn:Ec; [|now split].
  apply same_mirror_for_each; [|exact H0].
  now apply (fetched_ids_not_null env).
Qed.

Lemma same_mirror_initialize env a b :
  ~ In PyNone (fetched_ids env) ->
  same_mirror a b ->
  fst (initialize env a) = fst (initialize env b)
  /\ same_mirror (snd (initialize env a)) (snd (initialize env b)).
Proof.
  intros Hout H. rewrite !initialize_rebuilds. unfold bindM, ret.
  destruct (same_mirror_update_embeddings env a b Hout H) as [Hr Hs].
  destruct (update_embeddings env a) as [[[]|ea] a1],
    (update_embeddings env b) as [[[]|eb] b1];
    cbn [fst snd] in *; try discriminate; split; try assumption; congruence.
Qed.

Lemma results_of_same_contact_data a b top :
  contact_data a = contact_data b -> results_of a top = results_of b top.
Proof.
  intros H. induction top as [|[id s] top IH]; [reflexivity|].
  cbn [results_of]. now rewrite H, IH.
Qed.

Lemma query_same_mirror a b q top_k :
  same_mirror a b -> query a q top_k = query b q top_k.
Proof.
  intros (Hn & He & Hc & _). unfold query. rewrite Hn, He.
  destruct (similarities_from _ _ _); [|reflexivity].
  cbn [bind]. now apply results_of_same_contact_data.
Qed.

(** X18.  What is in the database file makes no difference to a new
    engine: [initialize] returns the same value, builds the same mirror
    and sends the same requests whatever the file holds, and every query
    afterwards has the same answer - provided no listed contact has a
    null id, for which SQLite picks a row id that depends on the rows of
    the table. *)
Theorem initialize_ignores_database_file :
  forall env encode path file file' q top_k,
    ~ In PyNone (fetched_ids env) ->
    let a := initialize env (init encode path file) in
    let b := initialize env (init encode path file') in
    fst a = fst b
    /\ embeddings (snd a) = embeddings (snd b)
    /\ contact_data (snd a) = contact_data (snd b)
    /\ api_calls (snd a) = api_calls (snd b)
    /\ query (snd a) q top_k = query (snd b) q top_k.
Proof.
  intros env encode path file file' q top_k Hout a b.
  assert (H : same_mirror (init encode path file) (init encode path file'))
    by now repeat split.
  destruct (same_mirror_initialize env _ _ Hout H) as [Hr Hs]. subst a b.
  split; [exact Hr|].
  pose proof (query_same_mirror _ _ q top_k Hs) as Hq.
  destruct Hs as (_ & He & Hc & Ha & _). now repeat split.
Qed.

Lemma initialize_ignores_database_file_witness :
  ~ In PyNone (fetched_ids Sample.two_contacts)
  /\ fst (initialize Sample.two_contacts
            (init Sample.stub_encoder "monica_rag.db" None))
     = fst (initialize Sample.two_contacts
              (init Sample.stub_encoder "monica_rag.db"
                 (Some [Sample.alice_row; Sample.stale_row])))
  /\ embeddings (snd (initialize Sample.two_contacts
                        (init Sample.stub_encoder "monica_rag.db" None)))
     = embeddings (snd (initialize Sample.two_contacts
                          (init Sample.stub_encoder "monica_rag.db"
                             (Some [Sample.alice_row; Sample.stale_row])))).
Proof.
  assert (Hout : ~ In PyNone (fetched_ids Sample.two_contacts)).
  { cbn. intros [H|[H|[]]]; discriminate H. }
  destruct (initialize_ignores_database_file Sample.two_contacts
              Sample.stub_encoder "monica_rag.db" None
              (Some [Sample.alice_row; Sample.stale_row]) "query" 2 Hout)
    as (Hr & He & _).
  split; [exact Hout|]. split; [exact Hr|exact He].
Defined.

End StoreIndependence.

(* ================================================================= *)
(** ** The single-file version *)

Section LegacyFacts.
Import Storage RAG.

(** X19.  In the single-file version the stored embeddings are used:
    on a table with at least one row that can be read back,
    [initialize] returns [True], sends no request, and leaves the object
    as [_load_from_storage] does. *)
Theorem legacy_initialize_loads_store :
  forall env self,
    db (storage self) <> [] ->
    readable (storage self) ->
    Legacy.initialize env self = (Ok true, snd (_load_from_storage self))
    /\ api_calls (snd (_load_from_storage self)) = api_calls self.
Proof.
  intros env self Hrows [d Hd].
  destruct (load_from_storage_ok self d Hd) as (Hr & _ & Ha & _).
  split; [|exact Ha].
  destruct (get_all_embeddings_rows _ _ Hd) as [Hfile _].
  unfold Legacy.initialize, bindM, raise_of, Legacy.has_embeddings.
  cbn [with_as sqlite3_connect bind]. unfold file_backed in Hfile.
  rewrite Hfile. cbn [prepare bind]. unfold select_count.
  destruct (db (storage self)) as [|r rows] eqn:E; [contradiction|].
  replace (0 <? Z.of_nat (List.length (r :: rows))) with true
    by (symmetry; apply Z.ltb_lt; cbn [List.length]; lia).
  destruct (_load_from_storage self) as [[[]|e] s1]; cbn [fst snd] in *;
    [reflexivity|discriminate].
Qed.

Lemma legacy_initialize_loads_store_witness :
  db (storage Sample.engine_with_store) <> []
  /\ readable (storage Sample.engine_with_store)
  /\ fst (Legacy.initialize Sample.no_contacts Sample.engine_with_store) = Ok true
  /\ api_calls (snd (Legacy.initialize Sample.no_contacts Sample.engine_with_store))
     = []
  /\ dict_keys
       (embeddings (snd (Legacy.initialize Sample.no_contacts Sample.engine_with_store)))
     = [KInt 1].
Proof.
  assert (Hrows : db (storage Sample.engine_with_store) <> []) by discriminate.
  assert (Hread : readable (storage Sample.engine_with_store))
    by (eexists; vm_compute; reflexivity).
  destruct (legacy_initialize_loads_store Sample.no_contacts
              Sample.engine_with_store Hrows Hread) as [E Ha].
  split; [exact Hrows|]. split; [exact Hread|].
  rewrite E. cbn [fst snd]. split; [reflexivity|]. split; [exact Ha|].
  vm_compute. reflexivity.
Defined.

End LegacyFacts.

(* ================================================================= *)
(** ** Texts: the projection and the display *)

Section TextMore.
Import RAG.

Lemma join_nonempty_head sep (p : string) ps :
  p <> "" -> join sep (p :: ps) <> "".
Proof.
  intros Hp. unfold join. cbn [String.concat].
  destruct ps as [|p' ps]; [exact Hp|].
  destruct p; [contradiction|discriminate].
Qed.

(** X20.  The text of a contact is empty exactly when the contact has
    nothing to show: the name is blank after stripping, and job, company,
    email, phone and notes are all missing or falsy.  (The embedding of
    such a contact is then the embedding of the empty text.) *)
Theorem create_contact_text_empty_iff :
  forall contact,
    create_contact_text contact = ""
    <-> (strip (str (get_default contact "first_name" (PyStr "")) ++ " "
                ++ str (get_default contact "last_name" (PyStr ""))) = ""
         /\ truthy (get contact "job") = false
         /\ truthy (get contact "company") = false
         /\ truthy (get contact "email") = false
         /\ truthy (get contact "phone") = false
         /\ truthy (get contact "notes") = false).
Proof.
  intros contact. unfold create_contact_text, contact_parts.
  set (name := strip _).
  destruct (String.eqb_spec name "") as [En|En]; cbn [negb].
  - rewrite En.
    destruct (truthy (get contact "job")), (truthy (get contact "company")),
      (truthy (get contact "email")), (truthy (get contact "phone")),
      (truthy (get contact "notes"));
      unfold list_append; cbn [app filter String.eqb negb append];
      (split; [intros H; try (exfalso; revert H; apply join_nonempty_head; discriminate);
               now repeat split
              |intros (_ & ? & ? & ? & ? & ?); try discriminate; reflexivity]).
  - split; [|intros [H _]; contradiction].
    intros H. exfalso. revert H.
    destruct (truthy (get contact "job")), (truthy (get contact "company")),
      (truthy (get contact "email")), (truthy (get contact "phone")),
      (truthy (get contact "notes"));
      unfold list_append; cbn [app filter String.eqb negb append];
      apply join_nonempty_head; discriminate.
Qed.

(** X21.  The single-file version and the package give a contact the
    same text when the name has no white space at its ends and the
    contact has no email, phone or notes (the single-file version always
    writes the name line, unstripped, and knows job and company only). *)
Theorem legacy_text_agrees :
  forall contact,
    let name := (str (get_default contact "first_name" (PyStr "")) ++ " "
                 ++ str (get_default contact "last_name" (PyStr "")))%string in
    strip name = name ->
    truthy (get contact "email") = false ->
    truthy (get contact "phone") = false ->
    truthy (get contact "notes") = false ->
    Legacy._create_contact_text contact = create_contact_text contact.
Proof.
  intros contact name Hs He Hp Hn.
  unfold Legacy._create_contact_text, create_contact_text, contact_parts.
  fold name. rewrite Hs, He, Hp, Hn.
  assert (Hne : String.eqb name "" = false).
  { apply String.eqb_neq. subst name.
    destruct (str (get_default contact "first_name" (PyStr ""))); discriminate. }
  rewrite Hne. cbn [negb].
  destruct (truthy (get contact "job")), (truthy (get contact "company"));
    unfold list_append; cbn [app filter String.eqb negb append]; reflexivity.
Qed.

Lemma legacy_text_agrees_witness :
  strip "Alice Smith" = "Alice Smith"
  /\ Legacy.call_create_contact_text Sample.alice
     = call_create_contact_text Sample.alice.
Proof.
  split; [reflexivity|].
  unfold Legacy.call_create_contact_text, call_create_contact_text, Sample.alice.
  apply (f_equal Ok).
  apply (legacy_text_agrees
           [("id", PyInt 1); ("first_name", PyStr "Alice");
            ("last_name", PyStr "Smith"); ("job", PyStr "Engineer");
            ("company", PyStr "Acme")]); reflexivity.
Defined.

End TextMore.

Section DisplayFacts.
Import Storage RAG.

Lemma output_from_dicts i results :
  Forall (fun r => is_dict (contact r)) results ->
  exists lines, Display.output_from i results = Ok lines.
Proof.
  intros H. revert i. induction H as [|r results [items Hr] _ IH]; intros i.
  - now exists [].
  - cbn [Display.output_from]. unfold Display.result_lines. rewrite Hr.
    cbn [bind]. destruct (IH (i + 1)) as [more ->]. cbn [bind]. eauto.
Qed.

Lemma result_lines_raises i r :
  ~ is_dict (contact r) -> Display.result_lines i r = Raise AttributeError.
Proof.
  intros H. unfold Display.result_lines.
  destruct (contact r) as [| | | | |items]; try reflexivity.
  exfalso. apply H. now exists items.
Qed.

Lemma result_lines_cases i r :
  (exists lines, Display.result_lines i r = Ok lines)
  \/ Display.result_lines i r = Raise AttributeError.
Proof.
  unfold Display.result_lines. destruct (contact r); eauto.
Qed.

Lemma output_from_not_dict i results :
  Exists (fun r => ~ is_dict (contact r)) results ->
  Display.output_from i results = Raise AttributeError.
Proof.
  intros H. revert i. induction H as [r results Hr|r results _ IH]; intros i;
    cbn [Display.output_from].
  - now rewrite result_lines_raises.
  - destruct (result_lines_cases i r) as [[lines ->]| ->]; [|reflexivity].
    cbn [bind]. now rewrite IH.
Qed.

(** X22.  [format_search_results] returns a text when the contact of
    every result is a dictionary, and raises [AttributeError] as soon as
    one is not (a list, a string, a number, null), whatever the other
    results are. *)
Theorem format_search_results_needs_dicts :
  forall results,
    (Forall (fun r => is_dict (contact r)) results ->
     exists text, Display.format_search_results results = Ok text)
    /\ (Exists (fun r => ~ is_dict (contact r)) results ->
        Display.format_search_results results = Raise AttributeError).
Proof.
  intros results. unfold Display.format_search_results. split; intros H.
  - destruct (output_from_dicts 1 results H) as [lines ->]. cbn [bind]. eauto.
  - now rewrite (output_from_not_dict 1 results H).
Qed.

Lemma forall_dict_set (d : list (key * pyval)) k v :
  Forall (fun kv => is_dict (snd kv)) d -> is_dict v ->
  Forall (fun kv => is_dict (snd kv)) (dict_set key_eqb d k v).
Proof.
  intros Hd Hv. apply Forall_forall. intros [k' v'] Hin.
  destruct (in_dict_set _ _ _ _ _ Hin) as [Hold|[_ ->]]; [|exact Hv].
  exact (proj1 (Forall_forall _ _) Hd _ Hold).
Qed.

Lemma dicts_update_one env c :
  preserves (fun s => Forall (fun kv => is_dict (snd kv)) (contact_data s))
    (update_one env c).
Proof.
  intros self H. rewrite update_one_run.
  destruct (contact_id_of c) as [id|e]; [|exact H]. cbv zeta.
  destruct (contact_details env id) as [details|e]; [|exact H].
  destruct details as [| | | | |details]; try exact H.
  cbn [call_create_contact_text].
  destruct (hash_key id) as [k|e]; [|exact H].
  cbn [snd contact_data].
  apply forall_dict_set; [exact H|now exists details].
Qed.

Lemma dicts_update_embeddings env :
  preserves (fun s => Forall (fun kv => is_dict (snd kv)) (contact_data s))
    (update_embeddings env).
Proof.
  intros self H. rewrite update_embeddings_unfold.
  destruct (contacts env) as [cs|e]; [|exact H].
  apply preserves_for_each; [|exact H]. intros c. apply dicts_update_one.
Qed.

(** The records of the mirror of an engine are dictionaries: they are the
    details the projection was computed from. *)
Lemma reachable_contact_data_dicts self :
  reachable self -> Forall (fun kv => is_dict (snd kv)) (contact_data self).
Proof.
  induction 1 as [encode path file|env self Hs IH|env self Hs IH].
  - constructor.
  - rewrite initialize_rebuilds. unfold bindM.
    pose proof (dicts_update_embeddings env self IH) as H.
    now destruct (update_embeddings env self) as [[[]|e] s1].
  - now apply dicts_update_embeddings.
Qed.

(** X23.  The results of a query can always be displayed: on an engine
    built by [initialize] and [update_embeddings], every contact that
    [query] returns is a dictionary, and [format_search_results] returns
    a text for the list. *)
Theorem query_results_can_be_displayed :
  forall self q top_k rs,
    reachable self ->
    query self q top_k = Ok rs ->
    Forall (fun r => is_dict (contact r)) rs
    /\ exists text, Display.format_search_results rs = Ok text.
Proof.
  intros self q top_k rs Hreach H.
  assert (Hd : Forall (fun r => is_dict (contact r)) rs).
  { pose proof (reachable_contact_data_dicts self Hreach) as Hall.
    unfold query in H.
    destruct (similarities_from _ _ _) as [sims|]; [|discriminate].
    cbn [bind] in H. destruct (results_of_spec _ _ _ H) as [_ H2].
    clear - H2 Hall. induction H2 as [|t r top rs' Ht _ IH]; constructor; [|exact IH].
    unfold dict_getitem in Ht.
    destruct (dict_get key_eqb (contact_data self) (fst t)) as [c|] eqn:E;
      [|discriminate].
    injection Ht as ->.
    exact (proj1 (Forall_forall _ _) Hall _ (kdict_get_in _ _ _ E)). }
  split; [exact Hd|].
  unfold Display.format_search_results.
  destruct (output_from_dicts 1 rs Hd) as [lines ->]. cbn [bind]. eauto.
Qed.

Lemma query_results_can_be_displayed_witness :
  reachable Sample.engine_ready
  /\ exists rs,
       query Sample.engine_ready "query" 2 = Ok rs
       /\ Forall (fun r => is_dict (contact r)) rs
       /\ exists text, Display.format_search_results rs = Ok text.
Proof.
  assert (Hr : reachable Sample.engine_ready)
    by (apply reach_initialize, reach_init).
  split; [exact Hr|].
  eexists. split; [vm_compute; reflexivity|].
  apply (query_results_can_be_displayed Sample.engine_ready "query" 2 _ Hr).
  vm_compute. reflexivity.
Defined.

(** The display of the scenario of the specification, with two results. *)
Example display_scenario :
  (results <- query Sample.engine_ready "query" 2 ;;
   Display.format_search_results results)
  = Ok (nl ++ "1. Alice Smith" ++ nl ++ "   Similarity: 0.994" ++ nl
        ++ "   Job: Engineer" ++ nl ++ "   Company: Acme" ++ nl
        ++ nl ++ "2. Bob Lee" ++ nl ++ "   Similarity: 0.110" ++ nl
        ++ "   Company: Acme")%string.
Proof. vm_compute. reflexivity. Qed.

End DisplayFacts.

(* ================================================================= *)
(** ** The API client *)

Section ClientFacts.
Import Client.

Lemma rstrip_slash_cons c s :
  rstrip_slash (String c s)
  = match rstrip_slash s with
    | EmptyString => if Ascii.eqb c slash then EmptyString else String c EmptyString
    | r => String c r
    end.
Proof. reflexivity. Qed.

Lemma rstrip_slash_idem s : rstrip_slash (rstrip_slash s) = rstrip_slash s.
Proof.
  induction s as [|c s IH]; [reflexivity|].
  rewrite rstrip_slash_cons. destruct (rstrip_slash s) as [|c' r] eqn:E.
  - destruct (Ascii.eqb c slash) eqn:Ec; [reflexivity|].
    rewrite rstrip_slash_cons. cbn [rstrip_slash]. now rewrite Ec.
  - rewrite rstrip_slash_cons, IH. reflexivity.
Qed.

Lemma rstrip_slash_fixed_app p r :
  rstrip_slash r = r -> r <> "" -> rstrip_slash (p ++ r) = (p ++ r)%string.
Proof.
  intros Hr Hne. induction p as [|c p IH]; [exact Hr|].
  cbn [append]. rewrite rstrip_slash_cons, IH.
  destruct (p ++ r)%string eqn:E; [|reflexivity].
  destruct p; cbn [append] in E; [contradiction|discriminate].
Qed.

Lemma rstrip_slash_app_slash s : rstrip_slash (s ++ "/") = rstrip_slash s.
Proof.
  induction s as [|c s IH]; [reflexivity|].
  cbn [append]. now rewrite !rstrip_slash_cons, IH.
Qed.

Lemma rstrip_slash_cons_other c s :
  Ascii.eqb c slash = false -> rstrip_slash (String c s) = String c (rstrip_slash s).
Proof.
  intros Hc. rewrite rstrip_slash_cons, Hc. now destruct (rstrip_slash s).
Qed.

Lemma prefix_app p s : String.prefix p (p ++ s) = true.
Proof.
  induction p as [|c p IH]; cbn [append String.prefix]; [now destruct s|].
  destruct (ascii_dec c c); [exact IH|contradiction].
Qed.

(** X24.  Every client talks https: whatever the configured URL is, the
    base URL of the client starts with [https://]. *)
Theorem normalize_base_url_is_https :
  forall base_url, String.prefix "https://" (_normalize_base_url base_url) = true.
Proof.
  intros u. unfold _normalize_base_url.
  destruct (String.prefix "https://" (rstrip_slash u)) eqn:E; cbn [negb].
  - exact E.
  - apply prefix_app.
Qed.

(** X25.  Normalising a base URL twice is normalising it once exactly
    when the URL has a character other than [/]; an empty URL or one of
    slashes only normalises to [https://], and that to
    [https://https:]. *)
Theorem normalize_base_url_idempotent_iff :
  forall base_url,
    _normalize_base_url (_normalize_base_url base_url)
    = _normalize_base_url base_url
    <-> rstrip_slash base_url <> "".
Proof.
  intros u. split.
  - intros H Hr. unfold _normalize_base_url in H. rewrite Hr in H.
    cbn in H. discriminate H.
  - intros Hne. unfold _normalize_base_url.
    destruct (String.prefix "https://" (rstrip_slash u)) eqn:E; cbn [negb].
    + now rewrite rstrip_slash_idem, E.
    + rewrite (rstrip_slash_fixed_app "https://" (rstrip_slash u)
                 (rstrip_slash_idem u) Hne).
      now rewrite prefix_app.
Qed.

(** X26.  A plain [http://] URL is not upgraded: the scheme is put in
    front of it, and the host of the resulting URL is [http:]. *)
Theorem normalize_base_url_http :
  forall rest,
    String.prefix "https://http:" (_normalize_base_url ("http://" ++ rest)) = true.
Proof.
  intros rest. unfold _normalize_base_url. cbn [append].
  rewrite !rstrip_slash_cons_other by reflexivity.
  replace (String.prefix "https://"
             (String "h" (String "t" (String "t" (String "p" (String ":"
                (rstrip_slash (String "/" (String "/" rest)))))))))
    with false by reflexivity.
  cbn [negb]. apply (prefix_app "https://http:").
Qed.

(** X27.  Slashes at the seam make no difference: a trailing slash on the
    configured URL and a leading slash on the endpoint give the same
    request URL as the URL and the endpoint without them. *)
Theorem request_url_slashes :
  forall base_url tok verify endpoint,
    (self <- init (Some (base_url ++ "/")%string) tok verify ;;
     Ok (request_url self (String slash endpoint)))
    = (self <- init (Some base_url) tok verify ;;
       Ok (request_url self endpoint)).
Proof.
  intros u tok v e. cbn [init bind]. f_equal.
  unfold request_url, _normalize_base_url. cbn [Client.base_url lstrip_slash].
  rewrite rstrip_slash_app_slash.
  replace (Ascii.eqb slash slash) with true by reflexivity. reflexivity.
Qed.

(** X28.  How [get_contacts] ends.  It returns the value under ["data"]
    when the server answers with a status outside 400..599 and a JSON
    object that has the key.  Otherwise it raises: [ConnectionError] for
    a transport failure or a status in 400..599, [KeyError] for an object
    without ["data"], [TypeError] for a body that is no object. *)
Theorem get_contacts_outcomes :
  forall send self,
    let answer :=
      send {| http_method := "GET"; url := request_url self "contacts";
              headers := session_headers self; verify := verify_ssl self |} in
    match get_contacts send self with
    | Ok data =>
        exists status_code items,
          answer = Response status_code (PyDict items)
          /\ (status_code < 400 \/ 600 <= status_code)
          /\ dict_get String.eqb items "data" = Some data
    | Raise e =>
        (e = ConnectionError
         /\ (answer = SSLError \/ answer = RequestException
             \/ exists status_code body,
                  answer = Response status_code body
                  /\ 400 <= status_code < 600))
        \/ (e = KeyError
            /\ exists status_code items,
                 answer = Response status_code (PyDict items)
                 /\ dict_get String.eqb items "data" = None)
        \/ (e = TypeError
            /\ exists status_code body,
                 answer = Response status_code body
                 /\ forall items, body <> PyDict items)
    end.
Proof.
  intros send self answer. unfold get_contacts, _make_request. fold answer.
  destruct answer as [status_code body| |]; cbn [bind];
    [|left; split; [reflexivity|tauto]|left; split; [reflexivity|tauto]].
  unfold raise_for_status.
  destruct (Z.leb_spec 400 status_code), (Z.ltb_spec status_code 600);
    cbn [andb bind];
    try (destruct body as [| | | | |items]; cbn [getitem];
         [right; right; split; [reflexivity|]; eexists _, _; split;
            [reflexivity|discriminate]..
         |unfold dict_getitem;
          destruct (dict_get String.eqb items "data") as [data|] eqn:E;
          [exists status_code, items; repeat split; [lia|exact E]
          |right; left; split; [reflexivity|]; eexists _, _; split;
             [reflexivity|exact E]]]).
  left. split; [reflexivity|]. right. right. exists status_code, body.
  split; [reflexivity|lia].
Qed.

End ClientFacts.

(* ================================================================= *)
(** ** The commands *)

Section CliFacts.
Import Storage RAG.

(** X29.  Without a base URL for the selected environment the commands
    fail before anything else happens: unless [ENVIRONMENT] is [prod],
    only [MONICA_DEV_BASE_URL] counts, and when it is unset [search] and
    [update] raise [AttributeError], load no model, open no database and
    send no request, whatever the production variables are. *)
Theorem commands_need_base_url :
  forall environ w q top_k,
    environ "ENVIRONMENT" <> Some "prod" ->
    environ "MONICA_DEV_BASE_URL" = None ->
    Cli.search (Cli.load_config environ) w q top_k = (Raise AttributeError, None)
    /\ Cli.update (Cli.load_config environ) w = (Raise AttributeError, None).
Proof.
  intros environ w q top_k Henv Hurl.
  assert (E : Cli.BASE_URL (Cli.load_config environ) = None).
  { unfold Cli.load_config, Cli.getenv_default. cbn [Cli.BASE_URL].
    destruct (environ "ENVIRONMENT") as [v|]; [|exact Hurl].
    destruct (String.eqb_spec v "prod") as [->|_]; [now contradiction Henv|exact Hurl]. }
  unfold Cli.search, Cli.update. rewrite E. split; reflexivity.
Qed.

Lemma commands_need_base_url_witness :
  Scenario.production_only "ENVIRONMENT" <> Some "prod"
  /\ Scenario.production_only "MONICA_DEV_BASE_URL" = None
  /\ Scenario.production_only "MONICA_PROD_BASE_URL" = Some "monica.example.org"
  /\ Cli.search (Cli.load_config Scenario.production_only) Scenario.offline
       "query" 3
     = (Raise AttributeError, None)
  /\ Cli.update (Cli.load_config Scenario.production_only) Scenario.offline
     = (Raise AttributeError, None).
Proof.
  assert (Henv : Scenario.production_only "ENVIRONMENT" <> Some "prod")
    by discriminate.
  split; [exact Henv|]. split; [reflexivity|]. split; [reflexivity|].
  exact (commands_need_base_url Scenario.production_only Scenario.offline
           "query" 3 Henv eq_refl).
Defined.

(** X30.  [search] never reads the stored embeddings: what it prints
    depends on the server, the model and the query, not on what the
    database file holds - provided the server lists no contact with a
    null id, for which SQLite picks a row id that depends on the rows of
    the table. *)
Theorem search_ignores_database_file :
  forall cfg send clock lib model files files' q top_k,
    let w := {| Cli.send := send; Cli.clock := clock; Cli.sqlite := lib;
                Cli.model := model; Cli.files := files |} in
    let w' := {| Cli.send := send; Cli.clock := clock; Cli.sqlite := lib;
                 Cli.model := model; Cli.files := files' |} in
    (forall api_client,
       Client.init (Cli.BASE_URL cfg) (Cli.API_TOKEN cfg) true = Ok api_client ->
       ~ In PyNone (fetched_ids (Cli.environment_of api_client w))) ->
    fst (Cli.search cfg w q top_k) = fst (Cli.search cfg w' q top_k).
Proof.
  intros cfg send clock lib model files files' q top_k w w' Hout.
  unfold Cli.search.
  destruct (Client.init (Cli.BASE_URL cfg) (Cli.API_TOKEN cfg) true)
    as [api_client|e]; [|reflexivity].
  specialize (Hout api_client eq_refl).
  change (Cli.environment_of api_client w')
    with (Cli.environment_of api_client w).
  set (env := Cli.environment_of api_client w) in *.
  unfold Cli.new_rag. subst w w'. cbn [Cli.model Cli.files].
  set (a := init (model (Cli.MODEL_NAME cfg)) (Cli.DB_PATH cfg)
              (files (Cli.DB_PATH cfg))).
  set (b := init (model (Cli.MODEL_NAME cfg)) (Cli.DB_PATH cfg)
              (files' (Cli.DB_PATH cfg))).
  assert (H : same_mirror a b) by now repeat split.
  destruct (same_mirror_initialize env a b Hout H) as [Hr Hs].
  pose proof (query_same_mirror _ _ q top_k Hs) as Hq.
  destruct (initialize env a) as [ra a1], (initialize env b) as [rb b1].
  cbn [fst snd] in *. now rewrite Hr, Hq.
Qed.

Lemma search_ignores_database_file_witness :
  let cfg := Cli.load_config Scenario.development in
  (forall api_client,
     Client.init (Cli.BASE_URL cfg) (Cli.API_TOKEN cfg) true = Ok api_client ->
     ~ In PyNone (fetched_ids (Cli.environment_of api_client Scenario.online)))
  /\ fst (Cli.search cfg Scenario.online "query" 1)
     = fst (Cli.search cfg
              {| Cli.send := Cli.send Scenario.online;
                 Cli.clock := Cli.clock Scenario.online;
                 Cli.sqlite := Cli.sqlite Scenario.online;
                 Cli.model := Cli.model Scenario.online;
                 Cli.files := fun _ => Some [Sample.stale_row] |} "query" 1).
Proof.
  cbv zeta.
  assert (Hout : forall api_client,
            Client.init (Cli.BASE_URL (Cli.load_config Scenario.development))
              (Cli.API_TOKEN (Cli.load_config Scenario.development)) true
            = Ok api_client ->
            ~ In PyNone
                (fetched_ids (Cli.environment_of api_client Scenario.online))).
  { intros api_client [= <-]. vm_compute. intros [H|[]]. discriminate H. }
  split; [exact Hout|].
  exact (search_ignores_database_file
           (Cli.load_config Scenario.development)
           (Cli.send Scenario.online) (Cli.clock Scenario.online)
           (Cli.sqlite Scenario.online) (Cli.model Scenario.online)
           (Cli.files Scenario.online) (fun _ => Some [Sample.stale_row])
           "query" 1 Hout).
Defined.

(** What that search prints. *)
Example search_online :
  fst (Cli.search (Cli.load_config Scenario.development) Scenario.online "query" 1)
  = Ok [ (nl ++ "Search results for: query")%string;
         (nl ++ "1. Alice Smith" ++ nl ++ "   Similarity: 0.994" ++ nl
          ++ "   Job: Engineer" ++ nl ++ "   Company: Acme")%string ].
Proof. vm_compute. reflexivity. Qed.

End CliFacts.

